(** * The demangle node printer (lib/Demangling/NodePrinter.cpp)

    A shallow embedding of the node printer of the Swift demangler and the
    properties of its specification.  Strings are byte strings ([string] is a
    list of 8-bit [ascii]), 64-bit node indices are [N], C++ [int] and
    [unsigned] values are [Z]/[N] with their wrap-around written out, and the
    member functions of [NodePrinter] run in a state-and-failure monad over
    the three mutable members of the class. *)

From Stdlib Require Import String Ascii List NArith ZArith Bool Arith Lia.
From Stdlib Require Import DecimalString.
From Stdlib Require DecimalN.
From Equations Require Import Equations.
Import ListNotations.
Local Open Scope string_scope.
Local Open Scope nat_scope.

(** ** Node kinds

    The closed enumeration [Node::Kind], as listed by the exhaustive switch of
    [isSimpleType]; [KWeak], [KUnowned] and [KUnmanaged] are the expansion of
    the [REF_STORAGE] macro over ReferenceStorage.def. *)

Inductive ReferenceOwnership := Weak | Unowned | Unmanaged.

Inductive Kind :=
  | KAssociatedType
  | KAssociatedTypeRef
  | KBoundGenericClass
  | KBoundGenericEnum
  | KBoundGenericStructure
  | KBoundGenericProtocol
  | KBoundGenericOtherNominalType
  | KBoundGenericTypeAlias
  | KBoundGenericFunction
  | KBuiltinTypeName
  | KClass
  | KDependentGenericType
  | KDependentMemberType
  | KDependentGenericParamType
  | KDynamicSelf
  | KEnum
  | KErrorType
  | KExistentialMetatype
  | KMetatype
  | KMetatypeRepresentation
  | KModule
  | KTuple
  | KProtocol
  | KProtocolSymbolicReference
  | KReturnType
  | KSILBoxType
  | KSILBoxTypeWithLayout
  | KStructure
  | KOtherNominalType
  | KTupleElementName
  | KType
  | KTypeAlias
  | KTypeList
  | KLabelList
  | KTypeSymbolicReference
  | KSugaredOptional
  | KSugaredArray
  | KSugaredDictionary
  | KSugaredParen
  | KProtocolList
  | KProtocolListWithAnyObject
  | KProtocolListWithClass
  | KAccessorFunctionReference
  | KAllocator
  | KArgumentTuple
  | KAssociatedConformanceDescriptor
  | KAssociatedTypeDescriptor
  | KAssociatedTypeMetadataAccessor
  | KAssociatedTypeWitnessTableAccessor
  | KAutoClosureType
  | KBaseConformanceDescriptor
  | KBaseWitnessTableAccessor
  | KClangType
  | KClassMetadataBaseOffset
  | KCFunctionPointer
  | KConstructor
  | KCoroutineContinuationPrototype
  | KCurryThunk
  | KDispatchThunk
  | KDeallocator
  | KDeclContext
  | KDefaultArgumentInitializer
  | KDefaultAssociatedTypeMetadataAccessor
  | KDefaultAssociatedConformanceAccessor
  | KDependentAssociatedTypeRef
  | KDependentGenericSignature
  | KDependentGenericParamCount
  | KDependentGenericConformanceRequirement
  | KDependentGenericLayoutRequirement
  | KDependentGenericSameTypeRequirement
  | KDependentPseudogenericSignature
  | KDestructor
  | KDidSet
  | KDifferentiableFunctionType
  | KEscapingDifferentiableFunctionType
  | KLinearFunctionType
  | KEscapingLinearFunctionType
  | KDirectMethodReferenceAttribute
  | KDirectness
  | KDynamicAttribute
  | KEscapingAutoClosureType
  | KEscapingObjCBlock
  | KNoEscapeFunctionType
  | KExplicitClosure
  | KExtension
  | KEnumCase
  | KFieldOffset
  | KFullObjCResilientClassStub
  | KFullTypeMetadata
  | KFunction
  | KFunctionSignatureSpecialization
  | KFunctionSignatureSpecializationParam
  | KFunctionSignatureSpecializationReturn
  | KFunctionSignatureSpecializationParamKind
  | KFunctionSignatureSpecializationParamPayload
  | KFunctionType
  | KGenericProtocolWitnessTable
  | KGenericProtocolWitnessTableInstantiationFunction
  | KGenericPartialSpecialization
  | KGenericPartialSpecializationNotReAbstracted
  | KGenericSpecialization
  | KGenericSpecializationNotReAbstracted
  | KGenericSpecializationParam
  | KGenericSpecializationPrespecialized
  | KInlinedGenericFunction
  | KGenericTypeMetadataPattern
  | KGetter
  | KGlobal
  | KGlobalGetter
  | KIdentifier
  | KIndex
  | KIVarInitializer
  | KIVarDestroyer
  | KImplDifferentiable
  | KImplLinear
  | KImplEscaping
  | KImplConvention
  | KImplDifferentiability
  | KImplFunctionAttribute
  | KImplFunctionConvention
  | KImplFunctionConventionName
  | KImplFunctionType
  | KImplInvocationSubstitutions
  | KImplPatternSubstitutions
  | KImplicitClosure
  | KImplParameter
  | KImplResult
  | KImplYield
  | KImplErrorResult
  | KInOut
  | KInfixOperator
  | KInitializer
  | KPropertyWrapperBackingInitializer
  | KKeyPathGetterThunkHelper
  | KKeyPathSetterThunkHelper
  | KKeyPathEqualsThunkHelper
  | KKeyPathHashThunkHelper
  | KLazyProtocolWitnessTableAccessor
  | KLazyProtocolWitnessTableCacheVariable
  | KLocalDeclName
  | KMaterializeForSet
  | KMergedFunction
  | KMetaclass
  | KMethodDescriptor
  | KMethodLookupFunction
  | KModifyAccessor
  | KNativeOwningAddressor
  | KNativeOwningMutableAddressor
  | KNativePinningAddressor
  | KNativePinningMutableAddressor
  | KNominalTypeDescriptor
  | KNonObjCAttribute
  | KNumber
  | KObjCAsyncCompletionHandlerImpl
  | KObjCAttribute
  | KObjCBlock
  | KObjCMetadataUpdateFunction
  | KObjCResilientClassStub
  | KOpaqueTypeDescriptor
  | KOpaqueTypeDescriptorAccessor
  | KOpaqueTypeDescriptorAccessorImpl
  | KOpaqueTypeDescriptorAccessorKey
  | KOpaqueTypeDescriptorAccessorVar
  | KOwned
  | KOwningAddressor
  | KOwningMutableAddressor
  | KPartialApplyForwarder
  | KPartialApplyObjCForwarder
  | KPostfixOperator
  | KPrefixOperator
  | KPrivateDeclName
  | KPropertyDescriptor
  | KProtocolConformance
  | KProtocolConformanceDescriptor
  | KMetadataInstantiationCache
  | KProtocolDescriptor
  | KProtocolRequirementsBaseDescriptor
  | KProtocolSelfConformanceDescriptor
  | KProtocolSelfConformanceWitness
  | KProtocolSelfConformanceWitnessTable
  | KProtocolWitness
  | KProtocolWitnessTable
  | KProtocolWitnessTableAccessor
  | KProtocolWitnessTablePattern
  | KReabstractionThunk
  | KReabstractionThunkHelper
  | KReabstractionThunkHelperWithSelf
  | KReadAccessor
  | KRelatedEntityDeclName
  | KRetroactiveConformance
  | KSetter
  | KShared
  | KSILBoxLayout
  | KSILBoxMutableField
  | KSILBoxImmutableField
  | KIsSerialized
  | KSpecializationPassID
  | KStatic
  | KSubscript
  | KSuffix
  | KThinFunctionType
  | KTupleElement
  | KTypeMangling
  | KTypeMetadata
  | KTypeMetadataAccessFunction
  | KTypeMetadataCompletionFunction
  | KTypeMetadataInstantiationCache
  | KTypeMetadataInstantiationFunction
  | KTypeMetadataSingletonInitializationCache
  | KTypeMetadataDemanglingCache
  | KTypeMetadataLazyCache
  | KUncurriedFunctionType
  | KWeak
  | KUnowned
  | KUnmanaged
  | KUnknownIndex
  | KUnsafeAddressor
  | KUnsafeMutableAddressor
  | KValueWitness
  | KValueWitnessTable
  | KVariable
  | KVTableAttribute
  | KVTableThunk
  | KWillSet
  | KReflectionMetadataBuiltinDescriptor
  | KReflectionMetadataFieldDescriptor
  | KReflectionMetadataAssocTypeDescriptor
  | KReflectionMetadataSuperclassDescriptor
  | KResilientProtocolWitnessTable
  | KGenericTypeParamDecl
  | KAsyncAnnotation
  | KThrowsAnnotation
  | KEmptyList
  | KFirstElementMarker
  | KVariadicMarker
  | KOutlinedBridgedMethod
  | KOutlinedCopy
  | KOutlinedConsume
  | KOutlinedRetain
  | KOutlinedRelease
  | KOutlinedInitializeWithTake
  | KOutlinedInitializeWithCopy
  | KOutlinedAssignWithTake
  | KOutlinedAssignWithCopy
  | KOutlinedDestroy
  | KOutlinedVariable
  | KAssocTypePath
  | KModuleDescriptor
  | KAnonymousDescriptor
  | KAssociatedTypeGenericParamRef
  | KExtensionDescriptor
  | KAnonymousContext
  | KAnyProtocolConformanceList
  | KConcreteProtocolConformance
  | KDependentAssociatedConformance
  | KDependentProtocolConformanceAssociated
  | KDependentProtocolConformanceInherited
  | KDependentProtocolConformanceRoot
  | KProtocolConformanceRefInTypeModule
  | KProtocolConformanceRefInProtocolModule
  | KProtocolConformanceRefInOtherModule
  | KDynamicallyReplaceableFunctionKey
  | KDynamicallyReplaceableFunctionImpl
  | KDynamicallyReplaceableFunctionVar
  | KOpaqueType
  | KOpaqueTypeDescriptorSymbolicReference
  | KOpaqueReturnType
  | KOpaqueReturnTypeOf
  | KCanonicalSpecializedGenericMetaclass
  | KCanonicalSpecializedGenericTypeMetadataAccessFunction
  | KNoncanonicalSpecializedGenericTypeMetadata
  | KNoncanonicalSpecializedGenericTypeMetadataCache
  | KGlobalVariableOnceDeclList
  | KGlobalVariableOnceFunction
  | KGlobalVariableOnceToken
  | KCanonicalPrespecializedGenericTypeCachingOnceToken
.

(** The enumerator's position, used to compare kinds as the C++ [==] does. *)
Definition Kind_tag (k : Kind) : N :=
  match k with
  | KAssociatedType => 0
  | KAssociatedTypeRef => 1
  | KBoundGenericClass => 2
  | KBoundGenericEnum => 3
  | KBoundGenericStructure => 4
  | KBoundGenericProtocol => 5
  | KBoundGenericOtherNominalType => 6
  | KBoundGenericTypeAlias => 7
  | KBoundGenericFunction => 8
  | KBuiltinTypeName => 9
  | KClass => 10
  | KDependentGenericType => 11
  | KDependentMemberType => 12
  | KDependentGenericParamType => 13
  | KDynamicSelf => 14
  | KEnum => 15
  | KErrorType => 16
  | KExistentialMetatype => 17
  | KMetatype => 18
  | KMetatypeRepresentation => 19
  | KModule => 20
  | KTuple => 21
  | KProtocol => 22
  | KProtocolSymbolicReference => 23
  | KReturnType => 24
  | KSILBoxType => 25
  | KSILBoxTypeWithLayout => 26
  | KStructure => 27
  | KOtherNominalType => 28
  | KTupleElementName => 29
  | KType => 30
  | KTypeAlias => 31
  | KTypeList => 32
  | KLabelList => 33
  | KTypeSymbolicReference => 34
  | KSugaredOptional => 35
  | KSugaredArray => 36
  | KSugaredDictionary => 37
  | KSugaredParen => 38
  | KProtocolList => 39
  | KProtocolListWithAnyObject => 40
  | KProtocolListWithClass => 41
  | KAccessorFunctionReference => 42
  | KAllocator => 43
  | KArgumentTuple => 44
  | KAssociatedConformanceDescriptor => 45
  | KAssociatedTypeDescriptor => 46
  | KAssociatedTypeMetadataAccessor => 47
  | KAssociatedTypeWitnessTableAccessor => 48
  | KAutoClosureType => 49
  | KBaseConformanceDescriptor => 50
  | KBaseWitnessTableAccessor => 51
  | KClangType => 52
  | KClassMetadataBaseOffset => 53
  | KCFunctionPointer => 54
  | KConstructor => 55
  | KCoroutineContinuationPrototype => 56
  | KCurryThunk => 57
  | KDispatchThunk => 58
  | KDeallocator => 59
  | KDeclContext => 60
  | KDefaultArgumentInitializer => 61
  | KDefaultAssociatedTypeMetadataAccessor => 62
  | KDefaultAssociatedConformanceAccessor => 63
  | KDependentAssociatedTypeRef => 64
  | KDependentGenericSignature => 65
  | KDependentGenericParamCount => 66
  | KDependentGenericConformanceRequirement => 67
  | KDependentGenericLayoutRequirement => 68
  | KDependentGenericSameTypeRequirement => 69
  | KDependentPseudogenericSignature => 70
  | KDestructor => 71
  | KDidSet => 72
  | KDifferentiableFunctionType => 73
  | KEscapingDifferentiableFunctionType => 74
  | KLinearFunctionType => 75
  | KEscapingLinearFunctionType => 76
  | KDirectMethodReferenceAttribute => 77
  | KDirectness => 78
  | KDynamicAttribute => 79
  | KEscapingAutoClosureType => 80
  | KEscapingObjCBlock => 81
  | KNoEscapeFunctionType => 82
  | KExplicitClosure => 83
  | KExtension => 84
  | KEnumCase => 85
  | KFieldOffset => 86
  | KFullObjCResilientClassStub => 87
  | KFullTypeMetadata => 88
  | KFunction => 89
  | KFunctionSignatureSpecialization => 90
  | KFunctionSignatureSpecializationParam => 91
  | KFunctionSignatureSpecializationReturn => 92
  | KFunctionSignatureSpecializationParamKind => 93
  | KFunctionSignatureSpecializationParamPayload => 94
  | KFunctionType => 95
  | KGenericProtocolWitnessTable => 96
  | KGenericProtocolWitnessTableInstantiationFunction => 97
  | KGenericPartialSpecialization => 98
  | KGenericPartialSpecializationNotReAbstracted => 99
  | KGenericSpecialization => 100
  | KGenericSpecializationNotReAbstracted => 101
  | KGenericSpecializationParam => 102
  | KGenericSpecializationPrespecialized => 103
  | KInlinedGenericFunction => 104
  | KGenericTypeMetadataPattern => 105
  | KGetter => 106
  | KGlobal => 107
  | KGlobalGetter => 108
  | KIdentifier => 109
  | KIndex => 110
  | KIVarInitializer => 111
  | KIVarDestroyer => 112
  | KImplDifferentiable => 113
  | KImplLinear => 114
  | KImplEscaping => 115
  | KImplConvention => 116
  | KImplDifferentiability => 117
  | KImplFunctionAttribute => 118
  | KImplFunctionConvention => 119
  | KImplFunctionConventionName => 120
  | KImplFunctionType => 121
  | KImplInvocationSubstitutions => 122
  | KImplPatternSubstitutions => 123
  | KImplicitClosure => 124
  | KImplParameter => 125
  | KImplResult => 126
  | KImplYield => 127
  | KImplErrorResult => 128
  | KInOut => 129
  | KInfixOperator => 130
  | KInitializer => 131
  | KPropertyWrapperBackingInitializer => 132
  | KKeyPathGetterThunkHelper => 133
  | KKeyPathSetterThunkHelper => 134
  | KKeyPathEqualsThunkHelper => 135
  | KKeyPathHashThunkHelper => 136
  | KLazyProtocolWitnessTableAccessor => 137
  | KLazyProtocolWitnessTableCacheVariable => 138
  | KLocalDeclName => 139
  | KMaterializeForSet => 140
  | KMergedFunction => 141
  | KMetaclass => 142
  | KMethodDescriptor => 143
  | KMethodLookupFunction => 144
  | KModifyAccessor => 145
  | KNativeOwningAddressor => 146
  | KNativeOwningMutableAddressor => 147
  | KNativePinningAddressor => 148
  | KNativePinningMutableAddressor => 149
  | KNominalTypeDescriptor => 150
  | KNonObjCAttribute => 151
  | KNumber => 152
  | KObjCAsyncCompletionHandlerImpl => 153
  | KObjCAttribute => 154
  | KObjCBlock => 155
  | KObjCMetadataUpdateFunction => 156
  | KObjCResilientClassStub => 157
  | KOpaqueTypeDescriptor => 158
  | KOpaqueTypeDescriptorAccessor => 159
  | KOpaqueTypeDescriptorAccessorImpl => 160
  | KOpaqueTypeDescriptorAccessorKey => 161
  | KOpaqueTypeDescriptorAccessorVar => 162
  | KOwned => 163
  | KOwningAddressor => 164
  | KOwningMutableAddressor => 165
  | KPartialApplyForwarder => 166
  | KPartialApplyObjCForwarder => 167
  | KPostfixOperator => 168
  | KPrefixOperator => 169
  | KPrivateDeclName => 170
  | KPropertyDescriptor => 171
  | KProtocolConformance => 172
  | KProtocolConformanceDescriptor => 173
  | KMetadataInstantiationCache => 174
  | KProtocolDescriptor => 175
  | KProtocolRequirementsBaseDescriptor => 176
  | KProtocolSelfConformanceDescriptor => 177
  | KProtocolSelfConformanceWitness => 178
  | KProtocolSelfConformanceWitnessTable => 179
  | KProtocolWitness => 180
  | KProtocolWitnessTable => 181
  | KProtocolWitnessTableAccessor => 182
  | KProtocolWitnessTablePattern => 183
  | KReabstractionThunk => 184
  | KReabstractionThunkHelper => 185
  | KReabstractionThunkHelperWithSelf => 186
  | KReadAccessor => 187
  | KRelatedEntityDeclName => 188
  | KRetroactiveConformance => 189
  | KSetter => 190
  | KShared => 191
  | KSILBoxLayout => 192
  | KSILBoxMutableField => 193
  | KSILBoxImmutableField => 194
  | KIsSerialized => 195
  | KSpecializationPassID => 196
  | KStatic => 197
  | KSubscript => 198
  | KSuffix => 199
  | KThinFunctionType => 200
  | KTupleElement => 201
  | KTypeMangling => 202
  | KTypeMetadata => 203
  | KTypeMetadataAccessFunction => 204
  | KTypeMetadataCompletionFunction => 205
  | KTypeMetadataInstantiationCache => 206
  | KTypeMetadataInstantiationFunction => 207
  | KTypeMetadataSingletonInitializationCache => 208
  | KTypeMetadataDemanglingCache => 209
  | KTypeMetadataLazyCache => 210
  | KUncurriedFunctionType => 211
  | KWeak => 212
  | KUnowned => 213
  | KUnmanaged => 214
  | KUnknownIndex => 215
  | KUnsafeAddressor => 216
  | KUnsafeMutableAddressor => 217
  | KValueWitness => 218
  | KValueWitnessTable => 219
  | KVariable => 220
  | KVTableAttribute => 221
  | KVTableThunk => 222
  | KWillSet => 223
  | KReflectionMetadataBuiltinDescriptor => 224
  | KReflectionMetadataFieldDescriptor => 225
  | KReflectionMetadataAssocTypeDescriptor => 226
  | KReflectionMetadataSuperclassDescriptor => 227
  | KResilientProtocolWitnessTable => 228
  | KGenericTypeParamDecl => 229
  | KAsyncAnnotation => 230
  | KThrowsAnnotation => 231
  | KEmptyList => 232
  | KFirstElementMarker => 233
  | KVariadicMarker => 234
  | KOutlinedBridgedMethod => 235
  | KOutlinedCopy => 236
  | KOutlinedConsume => 237
  | KOutlinedRetain => 238
  | KOutlinedRelease => 239
  | KOutlinedInitializeWithTake => 240
  | KOutlinedInitializeWithCopy => 241
  | KOutlinedAssignWithTake => 242
  | KOutlinedAssignWithCopy => 243
  | KOutlinedDestroy => 244
  | KOutlinedVariable => 245
  | KAssocTypePath => 246
  | KModuleDescriptor => 247
  | KAnonymousDescriptor => 248
  | KAssociatedTypeGenericParamRef => 249
  | KExtensionDescriptor => 250
  | KAnonymousContext => 251
  | KAnyProtocolConformanceList => 252
  | KConcreteProtocolConformance => 253
  | KDependentAssociatedConformance => 254
  | KDependentProtocolConformanceAssociated => 255
  | KDependentProtocolConformanceInherited => 256
  | KDependentProtocolConformanceRoot => 257
  | KProtocolConformanceRefInTypeModule => 258
  | KProtocolConformanceRefInProtocolModule => 259
  | KProtocolConformanceRefInOtherModule => 260
  | KDynamicallyReplaceableFunctionKey => 261
  | KDynamicallyReplaceableFunctionImpl => 262
  | KDynamicallyReplaceableFunctionVar => 263
  | KOpaqueType => 264
  | KOpaqueTypeDescriptorSymbolicReference => 265
  | KOpaqueReturnType => 266
  | KOpaqueReturnTypeOf => 267
  | KCanonicalSpecializedGenericMetaclass => 268
  | KCanonicalSpecializedGenericTypeMetadataAccessFunction => 269
  | KNoncanonicalSpecializedGenericTypeMetadata => 270
  | KNoncanonicalSpecializedGenericTypeMetadataCache => 271
  | KGlobalVariableOnceDeclList => 272
  | KGlobalVariableOnceFunction => 273
  | KGlobalVariableOnceToken => 274
  | KCanonicalPrespecializedGenericTypeCachingOnceToken => 275
  end%N.

Definition Kind_eqb (a b : Kind) : bool := (Kind_tag a =? Kind_tag b)%N.

(** ** Nodes *)

(** Modelled from the spec: the node class (swift/Demangling/Demangle.h is not
    part of the sources at hand).  A node has a kind, an ordered sequence of
    children, an optional text and an optional 64-bit index; reading a payload
    that is absent, or a child beyond the last one, is a violation of the
    caller's contract and stops the program. *)
#[local] Unset Elimination Schemes.
Inductive Node : Type :=
  mkNode (kind : Kind) (text : option string) (index : option N)
         (children : list Node).
#[local] Set Elimination Schemes.

(** A [NodePointer] may be null. *)
Definition NodePointer := option Node.

(** The ways in which the printer stops without a result. *)
Inductive Failure :=
  | Unreachable (Message : string)   (* printer_unreachable: abort() *)
  | AssertionFailed                  (* a failed assert, in a build with asserts *)
  | InvalidAccess                    (* null, missing payload or child out of range *)
  | StackExhausted.                  (* the recursion is deeper than the stack *)

Inductive Res (A : Type) : Type :=
  | Ok (a : A)
  | Stop (f : Failure).
Arguments Ok {A} a.
Arguments Stop {A} f.

Definition getKind (n : Node) : Kind :=
  match n with mkNode k _ _ _ => k end.

Definition getChildren (n : Node) : list Node :=
  match n with mkNode _ _ _ cs => cs end.

Definition getNumChildren (n : Node) : nat := length (getChildren n).

Definition hasChildren (n : Node) : bool :=
  match getChildren n with [] => false | _ :: _ => true end.

Definition getChild (n : Node) (i : nat) : Res Node :=
  match nth_error (getChildren n) i with
  | Some c => Ok c
  | None => Stop InvalidAccess
  end.

Definition getFirstChild (n : Node) : Res Node := getChild n 0.

(** [getNumChildren() - 1] is computed on unsigned numbers: on a node
    without children it wraps to an index that no node has. *)
Definition getLastChild (n : Node) : Res Node :=
  match getNumChildren n with
  | 0 => Stop InvalidAccess
  | S i => getChild n i
  end.

Definition hasText (n : Node) : bool :=
  match n with mkNode _ (Some _) _ _ => true | _ => false end.

Definition getText (n : Node) : Res string :=
  match n with mkNode _ (Some t) _ _ => Ok t | _ => Stop InvalidAccess end.

Definition hasIndex (n : Node) : bool :=
  match n with mkNode _ _ (Some _) _ => true | _ => false end.

Definition getIndex (n : Node) : Res N :=
  match n with mkNode _ _ (Some i) _ => Ok i | _ => Stop InvalidAccess end.

(** The height of a node: no call of the printer goes deeper than this. *)
Fixpoint depth (n : Node) : nat :=
  match n with
  | mkNode _ _ _ cs => S (fold_right (fun c d => Nat.max (depth c) d) 0 cs)
  end.

(** ** Numbers and strings *)

Definition two32 : N := 4294967296.
Definition two64 : N := 18446744073709551616.

(** Conversion of a 64-bit index to [unsigned]. *)
Definition to_unsigned (n : N) : N := (n mod two32)%N.

(** Conversion of a 64-bit index to [int]. *)
Definition to_int (n : N) : Z :=
  let m := Z.of_N (n mod two32) in
  if (m <? 2147483648)%Z then m else (m - 4294967296)%Z.

(** [int] addition; an overflow is taken to wrap. *)
Definition int_add (a b : Z) : Z :=
  let m := ((a + b) mod 4294967296)%Z in
  if (m <? 2147483648)%Z then m else (m - 4294967296)%Z.

(** [snprintf "%llu"]. *)
Definition decimal (n : N) : string := NilZero.string_of_uint (N.to_uint n).

(** [snprintf "%lld"]. *)
Definition decimalZ (z : Z) : string := NilZero.string_of_int (Z.to_int z).

Definition Hexdigit (d : N) : ascii :=
  if (d <? 10)%N then ascii_of_N (48 + d) else ascii_of_N (55 + d).

(** [snprintf "%llX"]: upper-case digits, most significant first; sixteen
    digits are all a 64-bit number has. *)
Fixpoint hexDigits (digits : nat) (n : N) (acc : string) : string :=
  match digits with
  | 0 => acc
  | S digits' =>
      let acc' := String (Hexdigit (n mod 16)) acc in
      if (n / 16 =? 0)%N then acc' else hexDigits digits' (n / 16) acc'
  end.

Definition hexadecimal (n : N) : string := hexDigits 16 n "".

Definition str (c : ascii) : string := String c EmptyString.

(** The double quote. *)
Definition DQ : ascii := "034"%char.

Fixpoint contains (c : ascii) (s : string) : bool :=
  match s with
  | EmptyString => false
  | String a s' => if Ascii.eqb a c then true else contains c s'
  end.

Definition startswith (s p : string) : bool := String.prefix p s.

Definition empty (s : string) : bool :=
  match s with EmptyString => true | _ => false end.

(** ** genericParameterName *)

Equations? genericParameterLetters (index : N) : string
  by wf (N.to_nat index) lt :=
  genericParameterLetters index :=
    String (ascii_of_N (65 + index mod 26))
           (if N.eq_dec (index / 26) 0 then ""
            else genericParameterLetters (index / 26)).
Proof.
  assert (index / 26 < index)%N; [| lia].
  apply N.div_lt; [| lia].
  destruct index as [| p]; [contradiction n; reflexivity | lia].
Qed.

Definition genericParameterName (depth index : N) : string :=
  genericParameterLetters index ++
  (if (depth =? 0)%N then "" else decimal depth).

(** ** QuotedString *)

Definition quoteChar (C : ascii) : string :=
  if Ascii.eqb C "\" then "\\"
  else if Ascii.eqb C "009" then "\t"
  else if Ascii.eqb C "010" then "\n"
  else if Ascii.eqb C "013" then "\r"
  else if Ascii.eqb C DQ then String "\" (str DQ)
  else if Ascii.eqb C "000" then "\0"
  else
    let c := N_of_ascii C in
    if ((c <? 32) || (127 <=? c))%N then
      "\x" ++ str (Hexdigit (N.shiftr c 4)) ++ str (Hexdigit (N.land c 15))
    else str C.

Fixpoint quoteChars (Value : string) : string :=
  match Value with
  | EmptyString => ""
  | String C rest => quoteChar C ++ quoteChars rest
  end.

Definition QuotedString (Value : string) : string :=
  str DQ ++ quoteChars Value ++ str DQ.

(** ** Options and the parts of the library that this file only uses *)

Record DemangleOptions := {
  SynthesizeSugarOnTypes : bool;
  QualifyEntities : bool;
  DisplayExtensionContexts : bool;
  DisplayUnmangledSuffix : bool;
  DisplayModuleNames : bool;
  DisplayGenericSpecializations : bool;
  DisplayProtocolConformances : bool;
  DisplayWhereClauses : bool;
  DisplayEntityTypes : bool;
  DisplayLocalNameContexts : bool;
  ShortenPartialApply : bool;
  ShortenThunk : bool;
  ShortenValueWitness : bool;
  ShowPrivateDiscriminators : bool;
  ShowFunctionArgumentTypes : bool;
  DisplayDebuggerGeneratedModule : bool;
  DisplayStdlibModule : bool;
  DisplayObjCModule : bool;
  PrintForTypeName : bool;
  HidingCurrentModule : string;
  GenericParameterName : N -> N -> string
}.

Inductive Directness := Direct | Indirect.

Inductive ValueWitnessKind :=
  | AllocateBuffer | AssignWithCopy | AssignWithTake | DeallocateBuffer
  | Destroy | DestroyBuffer | InitializeBufferWithCopyOfBuffer
  | InitializeBufferWithCopy | InitializeWithCopy | InitializeBufferWithTake
  | InitializeWithTake | ProjectBuffer | InitializeBufferWithTakeOfBuffer
  | DestroyArray | InitializeArrayWithCopy
  | InitializeArrayWithTakeFrontToBack | InitializeArrayWithTakeBackToFront
  | StoreExtraInhabitant | GetExtraInhabitantIndex | GetEnumTag
  | DestructiveProjectEnumData | DestructiveInjectEnumTag
  | GetEnumTagSinglePayload | StoreEnumTagSinglePayload.

Inductive FunctionSigSpecializationParamKind :=
  | ConstantPropFunction | ConstantPropGlobal | ConstantPropInteger
  | ConstantPropFloat | ConstantPropString | ClosureProp
  | BoxToValue | BoxToStack
  | Dead | OwnedToGuaranteed | SROA | GuaranteedToOwned | ExistentialToGeneric.

(** What the printer takes from headers that are not among the sources: the
    names of the distinguished modules (swift/Strings.h), the keyword of a
    reference ownership (swift/AST/Ownership.h), the numbering of three
    enumerations (swift/Demangling/Demangle.h), the demangler it calls on
    embedded symbols, and whether [assert] is compiled in. *)
Record Externals := {
  STDLIB_NAME : string;
  MANGLING_MODULE_OBJC : string;
  LLDB_EXPRESSIONS_MODULE_NAME_PREFIX : string;
  keywordOf : ReferenceOwnership -> string;
  demangleSymbolAsString : string -> string;
  DirectnessValue : Directness -> Z;
  ValueWitnessKindValue : ValueWitnessKind -> Z;
  ParamKindValue : FunctionSigSpecializationParamKind -> N;
  assertsEnabled : bool
}.

Definition toString_Directness (d : Directness) : string :=
  match d with
  | Direct => "direct"
  | Indirect => "indirect"
  end.

Definition toString_ValueWitnessKind (k : ValueWitnessKind) : string :=
  match k with
  | AllocateBuffer => "allocateBuffer"
  | AssignWithCopy => "assignWithCopy"
  | AssignWithTake => "assignWithTake"
  | DeallocateBuffer => "deallocateBuffer"
  | Destroy => "destroy"
  | DestroyBuffer => "destroyBuffer"
  | InitializeBufferWithCopyOfBuffer => "initializeBufferWithCopyOfBuffer"
  | InitializeBufferWithCopy => "initializeBufferWithCopy"
  | InitializeWithCopy => "initializeWithCopy"
  | InitializeBufferWithTake => "initializeBufferWithTake"
  | InitializeWithTake => "initializeWithTake"
  | ProjectBuffer => "projectBuffer"
  | InitializeBufferWithTakeOfBuffer => "initializeBufferWithTakeOfBuffer"
  | DestroyArray => "destroyArray"
  | InitializeArrayWithCopy => "initializeArrayWithCopy"
  | InitializeArrayWithTakeFrontToBack => "initializeArrayWithTakeFrontToBack"
  | InitializeArrayWithTakeBackToFront => "initializeArrayWithTakeBackToFront"
  | StoreExtraInhabitant => "storeExtraInhabitant"
  | GetExtraInhabitantIndex => "getExtraInhabitantIndex"
  | GetEnumTag => "getEnumTag"
  | DestructiveProjectEnumData => "destructiveProjectEnumData"
  | DestructiveInjectEnumTag => "destructiveInjectEnumTag"
  | GetEnumTagSinglePayload => "getEnumTagSinglePayload"
  | StoreEnumTagSinglePayload => "storeEnumTagSinglePayload"
  end.

Definition allDirectness : list Directness := [Direct; Indirect].

Definition allValueWitnessKinds : list ValueWitnessKind :=
  [AllocateBuffer; AssignWithCopy; AssignWithTake; DeallocateBuffer; Destroy;
   DestroyBuffer; InitializeBufferWithCopyOfBuffer; InitializeBufferWithCopy;
   InitializeWithCopy; InitializeBufferWithTake; InitializeWithTake;
   ProjectBuffer; InitializeBufferWithTakeOfBuffer; DestroyArray;
   InitializeArrayWithCopy; InitializeArrayWithTakeFrontToBack;
   InitializeArrayWithTakeBackToFront; StoreExtraInhabitant;
   GetExtraInhabitantIndex; GetEnumTag; DestructiveProjectEnumData;
   DestructiveInjectEnumTag; GetEnumTagSinglePayload;
   StoreEnumTagSinglePayload].

(** ** The printer's state and its monad *)

(** The mutable members of [class NodePrinter]; [Options] never changes after
    construction and is a parameter of the member functions below. *)
Record NodePrinter := mkNodePrinter {
  Printer : string;
  SpecializationPrefixPrinted : bool;
  isValid : bool
}.

Definition M (A : Type) : Type := NodePrinter -> Res (A * NodePrinter).

Definition ret {A} (a : A) : M A := fun st => Ok (a, st).

Definition bind {A B} (m : M A) (f : A -> M B) : M B :=
  fun st =>
    match m st with
    | Ok (a, st') => f a st'
    | Stop e => Stop e
    end.

Definition fail {A} (e : Failure) : M A := fun _ => Stop e.

Definition lift {A} (r : Res A) : M A :=
  fun st => match r with Ok a => Ok (a, st) | Stop e => Stop e end.

Definition bindR {A B} (r : Res A) (f : A -> Res B) : Res B :=
  match r with Ok a => f a | Stop e => Stop e end.

Declare Scope printer_scope.
Delimit Scope printer_scope with printer.
Declare Scope res_scope.
Delimit Scope res_scope with res.

Notation "x <- m ;; k" := (bind m (fun x => k))
  (at level 61, m at next level, right associativity) : printer_scope.
Notation "m ;; k" := (bind m (fun _ => k))
  (at level 61, right associativity) : printer_scope.
Notation "x <-! r ;; k" := (bind (lift r) (fun x => k))
  (at level 61, r at next level, right associativity) : printer_scope.
Notation "x <- m ;; k" := (bindR m (fun x => k))
  (at level 61, m at next level, right associativity) : res_scope.

(** [Printer << s]. *)
Definition emit (s : string) : M unit :=
  fun st => Ok (tt, mkNodePrinter (Printer st ++ s)
                                  (SpecializationPrefixPrinted st)
                                  (isValid st)).

(** [Printer.getStringRef().size()]. *)
Definition getSize : M nat := fun st => Ok (String.length (Printer st), st).

Definition setInvalid : M unit :=
  fun st => Ok (tt, mkNodePrinter (Printer st)
                                  (SpecializationPrefixPrinted st) false).

Definition getSpecializationPrefixPrinted : M bool :=
  fun st => Ok (SpecializationPrefixPrinted st, st).

Definition setSpecializationPrefixPrinted : M unit :=
  fun st => Ok (tt, mkNodePrinter (Printer st) true (isValid st)).

Definition printer_unreachable {A} (Message : string) : M A :=
  fail (Unreachable Message).

Definition when (b : bool) (m : M unit) : M unit :=
  if b then m else ret tt.

Definition done : M NodePointer := ret None.

(** ** The member functions of NodePrinter *)

Inductive SugarType :=
  | SugarNone
  | SugarOptional
  | SugarImplicitlyUnwrappedOptional
  | SugarArray
  | SugarDictionary.

Inductive TypePrinting := NoType | WithColon | FunctionStyle.

Definition TypePrinting_eqb (a b : TypePrinting) : bool :=
  match a, b with
  | NoType, NoType | WithColon, WithColon | FunctionStyle, FunctionStyle => true
  | _, _ => false
  end.

(** The states of the loop of [printImplFunctionType]. *)
Inductive ImplState := Attrs | Inputs | Results.

Definition ImplState_eqb (a b : ImplState) : bool :=
  match a, b with
  | Attrs, Attrs | Inputs, Inputs | Results, Results => true
  | _, _ => false
  end.

Definition ImplState_leb (a b : ImplState) : bool :=
  match a, b with
  | Attrs, _ | Inputs, Inputs | Inputs, Results | Results, Results => true
  | _, _ => false
  end.

Definition isKind (n : Node) (k : Kind) : bool := Kind_eqb (getKind n) k.

(** [std::find_if] over the children, by kind. *)
Definition getChildIf (n : Node) (k : Kind) : NodePointer :=
  find (fun child => isKind child k) (getChildren n).

Definition isExistentialType (node : Node) : bool :=
  isKind node KExistentialMetatype || isKind node KProtocolList ||
  isKind node KProtocolListWithClass || isKind node KProtocolListWithAnyObject.

Definition isClassType (n : Node) : bool := isKind n KClass.

Fixpoint needSpaceBeforeType (Ty : Node) : Res bool :=
  match Ty with
  | mkNode KType _ _ (c :: _) => needSpaceBeforeType c
  | mkNode KType _ _ [] => Stop InvalidAccess
  | mkNode KFunctionType _ _ _
  | mkNode KNoEscapeFunctionType _ _ _
  | mkNode KUncurriedFunctionType _ _ _
  | mkNode KDependentGenericType _ _ _ => Ok false
  | _ => Ok true
  end.

(** The loop of [printEntity] that looks through dependent generic types:
    [while (t->getKind() == DependentGenericType) t = t->getChild(1)->getChild(0)]. *)
Fixpoint skipDependentGenericTypes (t : Node) : Res Node :=
  match t with
  | mkNode KDependentGenericType _ _ cs =>
      match cs with
      | _ :: mkNode _ _ _ (g :: _) :: _ => skipDependentGenericTypes g
      | _ => Stop InvalidAccess
      end
  | _ => Ok t
  end.

Section NodePrinter.

Variable E : Externals.
Variable Options : DemangleOptions.

Local Open Scope printer_scope.

(** [assert(cond)]: checked only in a build with asserts. *)
Definition assert (cond : bool) : M unit :=
  if assertsEnabled E && negb cond then fail AssertionFailed else ret tt.

Definition toDirectness (i : N) : option Directness :=
  find (fun d => (DirectnessValue E d =? to_int i)%Z) allDirectness.

Definition toValueWitnessKind (i : N) : option ValueWitnessKind :=
  find (fun k => (ValueWitnessKindValue E k =? to_int i)%Z)
       allValueWitnessKinds.

Definition isParamKind (V : N) (k : FunctionSigSpecializationParamKind) : bool :=
  (V =? ParamKindValue E k)%N.

Definition hasParamFlag (raw : N) (k : FunctionSigSpecializationParamKind) : bool :=
  negb (N.land raw (ParamKindValue E k) =? 0)%N.

Definition isSwiftModule (node : Node) : Res bool :=
  if isKind node KModule
  then (t <- getText node ;; Ok (String.eqb t (STDLIB_NAME E)))%res
  else Ok false.

Definition printContext (Context : Node) : Res bool :=
  if negb (QualifyEntities Options) then Ok false
  else if isKind Context KModule then
    (t <- getText Context ;;
     if String.eqb t (STDLIB_NAME E) then Ok (DisplayStdlibModule Options)
     else if String.eqb t (MANGLING_MODULE_OBJC E)
     then Ok (DisplayObjCModule Options)
     else if String.eqb t (HidingCurrentModule Options) then Ok false
     else if startswith t (LLDB_EXPRESSIONS_MODULE_NAME_PREFIX E)
     then Ok (DisplayDebuggerGeneratedModule Options)
     else Ok true)%res
  else Ok true.

Definition isIdentifier (node : Node) (desired : string) : Res bool :=
  if isKind node KIdentifier
  then (t <- getText node ;; Ok (String.eqb t desired))%res
  else Ok false.

(** Determine whether this is a "simple" type.  The kinds that the last
    branch stands for are listed one by one in the source, which returns
    [false] for each of them; no kind is left for its [printer_unreachable]. *)
Definition isSimpleType (Node : Node) : Res bool :=
  match getKind Node with
  | KAssociatedType | KAssociatedTypeRef | KBoundGenericClass
  | KBoundGenericEnum | KBoundGenericStructure | KBoundGenericProtocol
  | KBoundGenericOtherNominalType | KBoundGenericTypeAlias
  | KBoundGenericFunction | KBuiltinTypeName | KClass
  | KDependentGenericType | KDependentMemberType
  | KDependentGenericParamType | KDynamicSelf | KEnum | KErrorType
  | KExistentialMetatype | KMetatype | KMetatypeRepresentation | KModule
  | KTuple | KProtocol | KProtocolSymbolicReference | KReturnType
  | KSILBoxType | KSILBoxTypeWithLayout | KStructure | KOtherNominalType
  | KTupleElementName | KType | KTypeAlias | KTypeList | KLabelList
  | KTypeSymbolicReference | KSugaredOptional | KSugaredArray
  | KSugaredDictionary | KSugaredParen => Ok true
  | KProtocolList =>
      (c <- getChild Node 0 ;; Ok (getNumChildren c <=? 1))%res
  | KProtocolListWithAnyObject =>
      (c <- getChild Node 0 ;; l <- getChild c 0 ;;
       Ok (getNumChildren l =? 0))%res
  | _ => Ok false
  end.

Fixpoint findSugar (Node : Node) : Res SugarType :=
  match Node with
  | mkNode KType _ _ [c] => findSugar c
  | _ =>
    if negb (getNumChildren Node =? 2) then Ok SugarNone
    else if negb (isKind Node KBoundGenericEnum) &&
            negb (isKind Node KBoundGenericStructure) then Ok SugarNone
    else
      (base <- getChild Node 0 ;;
       unboundType <- getChild base 0 ;;   (* drill through Type *)
       typeArgs <- getChild Node 1 ;;
       let isSugar (name : string) (args : nat) : Res bool :=
         (ident <- getChild unboundType 1 ;;
          named <- isIdentifier ident name ;;
          if named && (getNumChildren typeArgs =? args)
          then (module <- getChild unboundType 0 ;; isSwiftModule module)
          else Ok false) in
       if isKind Node KBoundGenericEnum then
         (* Swift.Optional *)
         isOptional <- isSugar "Optional" 1 ;;
         if isOptional then Ok SugarOptional else
         (* Swift.ImplicitlyUnwrappedOptional *)
         isIUO <- isSugar "ImplicitlyUnwrappedOptional" 1 ;;
         if isIUO then Ok SugarImplicitlyUnwrappedOptional
         else Ok SugarNone
       else
         (* Array *)
         isArray <- isSugar "Array" 1 ;;
         if isArray then Ok SugarArray else
         (* Dictionary *)
         isDictionary <- isSugar "Dictionary" 2 ;;
         if isDictionary then Ok SugarDictionary
         else Ok SugarNone)%res
  end.

Section Dispatch.

(** The recursive calls of the member functions go to [print], "the main big
    print function", which in turn calls them. *)
Variable print : Node -> bool -> M NodePointer.

(** [print(p)] on a pointer that the source does not test for null. *)
Definition printPointer (p : NodePointer) : M NodePointer :=
  match p with
  | Some n => print n false
  | None => fail InvalidAccess
  end.

(** [print(Node->getChild(i))]. *)
Definition printChild (Node : Node) (i : nat) : M unit :=
  c <-! getChild Node i ;; print c false ;; ret tt.

Fixpoint printChildrenRange (cs : list Node) (sep : option string) : M unit :=
  match cs with
  | [] => ret tt
  | c :: rest =>
      print c false ;;
      match sep, rest with
      | Some s, _ :: _ => emit s
      | _, _ => ret tt
      end ;;
      printChildrenRange rest sep
  end.

Definition printChildren (Node : NodePointer) (sep : option string) : M unit :=
  match Node with
  | None => ret tt
  | Some n => printChildrenRange (getChildren n) sep
  end.

Definition getFirstChildOfKind (Node : NodePointer) (kind : Kind) : NodePointer :=
  match Node with
  | None => None
  | Some n => getChildIf n kind
  end.

Definition printBoundGenericNoSugar (Node : Node) : M unit :=
  if getNumChildren Node <? 2 then ret tt
  else
    typelist <-! getChild Node 1 ;;
    printChild Node 0 ;;
    emit "<" ;;
    printChildren (Some typelist) (Some ", ") ;;
    emit ">".

Definition printOptionalIndex (node : Node) : M unit :=
  assert (isKind node KIndex || isKind node KUnknownIndex) ;;
  if hasIndex node
  then i <-! getIndex node ;; emit "#" ;; emit (decimal i) ;; emit " "
  else ret tt.

Definition printWithParens (type : Node) : M unit :=
  simple <-! isSimpleType type ;;
  let needs_parens := negb simple in
  when needs_parens (emit "(") ;;
  print type false ;;
  when needs_parens (emit ")").

Definition printBoundGeneric (Node : Node) : M unit :=
  if getNumChildren Node <? 2 then ret tt
  else if negb (getNumChildren Node =? 2) then printBoundGenericNoSugar Node
  else if negb (SynthesizeSugarOnTypes Options) ||
          isKind Node KBoundGenericClass
  then (* no sugar here *) printBoundGenericNoSugar Node
  else if isKind Node KBoundGenericProtocol then
    (* Print the conforming type for a "bound" protocol node "as" the
       protocol type. *)
    args <-! getChild Node 1 ;;
    printChildren (Some args) None ;;
    emit " as " ;;
    printChild Node 0
  else
    sugarType <-! findSugar Node ;;
    match sugarType with
    | SugarNone => printBoundGenericNoSugar Node
    | SugarOptional | SugarImplicitlyUnwrappedOptional =>
        args <-! getChild Node 1 ;;
        type <-! getChild args 0 ;;
        printWithParens type ;;
        emit (match sugarType with SugarOptional => "?" | _ => "!" end)
    | SugarArray =>
        args <-! getChild Node 1 ;;
        type <-! getChild args 0 ;;
        emit "[" ;;
        print type false ;;
        emit "]"
    | SugarDictionary =>
        args <-! getChild Node 1 ;;
        keyType <-! getChild args 0 ;;
        args' <-! getChild Node 1 ;;
        valueType <-! getChild args' 1 ;;
        emit "[" ;;
        print keyType false ;;
        emit " : " ;;
        print valueType false ;;
        emit "]"
    end.

(** The lambda [getLabelFor] of [printFunctionParameters]. *)
Definition getLabelFor (LabelList : NodePointer) (Index : nat) : M string :=
  match LabelList with
  | None => fail InvalidAccess
  | Some labels =>
      Label <-! getChild labels Index ;;
      assert (isKind Label KIdentifier || isKind Label KFirstElementMarker) ;;
      if isKind Label KIdentifier then lift (getText Label) else ret "_"
  end.

(** [llvm::interleave] over the parameters; [ParamIndex] counts them. *)
Fixpoint printParameterList (LabelList : NodePointer) (hasLabels showTypes : bool)
    (Params : list Node) (ParamIndex : nat) : M unit :=
  match Params with
  | [] => ret tt
  | Param :: rest =>
      assert (isKind Param KTupleElement) ;;
      (if hasLabels then
         l <- getLabelFor LabelList ParamIndex ;; emit l ;; emit ":"
       else if negb showTypes then
         match getChildIf Param KTupleElementName with
         | Some Label => t <-! getText Label ;; emit t ;; emit ":"
         | None => emit "_:"
         end
       else ret tt) ;;
      when (hasLabels && showTypes) (emit " ") ;;
      (if showTypes then print Param false ;; ret tt else ret tt) ;;
      match rest with
      | [] => ret tt
      | _ :: _ =>
          emit (if showTypes then ", " else "") ;;
          printParameterList LabelList hasLabels showTypes rest (S ParamIndex)
      end
  end.

Definition printFunctionParameters (LabelList : NodePointer)
    (ParameterType : Node) (showTypes : bool) : M unit :=
  if negb (isKind ParameterType KArgumentTuple) then setInvalid
  else
    Parameters <-! getFirstChild ParameterType ;;
    assert (isKind Parameters KType) ;;
    Parameters <-! getFirstChild Parameters ;;
    if negb (isKind Parameters KTuple) then
      (* only a single not-named parameter *)
      if showTypes then
        emit "(" ;; print Parameters false ;; emit ")"
      else emit "(_:)"
    else
      let hasLabels :=
        match LabelList with
        | Some labels => 0 <? getNumChildren labels
        | None => false
        end in
      emit "(" ;;
      printParameterList LabelList hasLabels showTypes
                         (getChildren Parameters) 0 ;;
      emit ")".

(** The lambda [printConventionWithMangledCType] of [printFunctionType]. *)
Definition printConventionWithMangledCType (node : Node) (convention : string)
    : M unit :=
  emit "@convention(" ;; emit convention ;;
  first <-! getFirstChild node ;;
  (if isKind first KClangType then
     emit (", mangledCType: " ++ str DQ) ;;
     first' <-! getFirstChild node ;;
     print first' false ;;
     emit (str DQ)
   else ret tt) ;;
  emit ") ".

Definition printFunctionType (LabelList : NodePointer) (node : Node) : M unit :=
  if (getNumChildren node <? 2) || (5 <? getNumChildren node) then setInvalid
  else
    match getKind node with
    | KFunctionType | KUncurriedFunctionType | KNoEscapeFunctionType => ret tt
    | KAutoClosureType | KEscapingAutoClosureType => emit "@autoclosure "
    | KThinFunctionType => emit "@convention(thin) "
    | KCFunctionPointer => printConventionWithMangledCType node "c"
    | KEscapingObjCBlock =>
        emit "@escaping " ;; printConventionWithMangledCType node "block"
    | KObjCBlock => printConventionWithMangledCType node "block"
    | KDifferentiableFunctionType => emit "@differentiable "
    | KEscapingDifferentiableFunctionType => emit "@escaping @differentiable "
    | KLinearFunctionType => emit "@differentiable(linear) "
    | KEscapingLinearFunctionType =>
        emit "@escaping @differentiable(linear) "
    | _ => assert false
    end ;;
    let startIndex := 0 in
    c <-! getChild node startIndex ;;
    let startIndex :=
      if isKind c KClangType then (* handled earlier *) S startIndex
      else startIndex in
    c <-! getChild node startIndex ;;
    let isThrows := isKind c KThrowsAnnotation in
    let startIndex := if isThrows then S startIndex else startIndex in
    c <-! getChild node startIndex ;;
    let isAsync := isKind c KAsyncAnnotation in
    let startIndex := if isAsync then S startIndex else startIndex in
    params <-! getChild node startIndex ;;
    printFunctionParameters LabelList params
                            (ShowFunctionArgumentTypes Options) ;;
    if negb (ShowFunctionArgumentTypes Options) then ret tt
    else
      when isAsync (emit " async") ;;
      when isThrows (emit " throws") ;;
      printChild node (S startIndex).

(** One round of the loop of the lambda [transitionTo] of
    [printImplFunctionType]. *)
Definition transitionStep (patternSubs : NodePointer) (curState : ImplState)
    : M ImplState :=
  match curState with
  | Attrs =>
      match patternSubs with
      | Some subs => emit "@substituted " ;; printChild subs 0 ;; emit " "
      | None => ret tt
      end ;;
      emit "(" ;;
      ret Inputs
  | Inputs => emit ") -> (" ;; ret Results
  | Results => printer_unreachable "no state after Results"
  end.

(** [for (; curState != newState; curState = State(curState + 1))]: the
    third round, if there is one, starts in [Results] and is the last. *)
Fixpoint transitionLoop (rounds : nat) (patternSubs : NodePointer)
    (curState newState : ImplState) : M ImplState :=
  if ImplState_eqb curState newState then ret curState
  else
    match rounds with
    | 0 => ret curState
    | S rounds' =>
        next <- transitionStep patternSubs curState ;;
        transitionLoop rounds' patternSubs next newState
    end.

Definition transitionTo (patternSubs : NodePointer)
    (curState newState : ImplState) : M ImplState :=
  assert (ImplState_leb curState newState) ;;
  transitionLoop 3 patternSubs curState newState.

(** [for (auto &child : *fn)] of [printImplFunctionType]. *)
Fixpoint printImplFunctionChildren (cs : list Node)
    (patternSubs invocationSubs : NodePointer) (curState : ImplState)
    : M (NodePointer * NodePointer * ImplState) :=
  match cs with
  | [] => ret (patternSubs, invocationSubs, curState)
  | child :: rest =>
      if isKind child KImplParameter then
        when (ImplState_eqb curState Inputs) (emit ", ") ;;
        curState <- transitionTo patternSubs curState Inputs ;;
        print child false ;;
        printImplFunctionChildren rest patternSubs invocationSubs curState
      else if isKind child KImplResult || isKind child KImplYield ||
              isKind child KImplErrorResult then
        when (ImplState_eqb curState Results) (emit ", ") ;;
        curState <- transitionTo patternSubs curState Results ;;
        print child false ;;
        printImplFunctionChildren rest patternSubs invocationSubs curState
      else if isKind child KImplPatternSubstitutions then
        printImplFunctionChildren rest (Some child) invocationSubs curState
      else if isKind child KImplInvocationSubstitutions then
        printImplFunctionChildren rest patternSubs (Some child) curState
      else
        assert (ImplState_eqb curState Attrs) ;;
        print child false ;;
        emit " " ;;
        printImplFunctionChildren rest patternSubs invocationSubs curState
  end.

Definition printImplFunctionType (fn : Node) : M unit :=
  r <- printImplFunctionChildren (getChildren fn) None None Attrs ;;
  let '(patternSubs, invocationSubs, curState) := r in
  transitionTo patternSubs curState Results ;;
  emit ")" ;;
  match patternSubs with
  | Some subs =>
      emit " for <" ;;
      c <-! getChild subs 1 ;;
      printChildren (Some c) None ;;
      emit ">"
  | None => ret tt
  end ;;
  match invocationSubs with
  | Some subs =>
      emit " for <" ;;
      c <-! getChild subs 0 ;;
      printChildren (Some c) None ;;
      emit ">"
  | None => ret tt
  end.

(** The inner loop of the [ClosureProp] case,
    [for (unsigned e = Node->getNumChildren(); Idx < e;)]; every round but
    the last one advances [Idx], so [rounds] never runs out before [Idx]
    reaches [e] when it starts at the number of children. *)
Fixpoint printClosureArgumentTypes (rounds : nat) (Node : Node) (Idx : nat)
    : M nat :=
  match rounds with
  | 0 => ret Idx
  | S rounds' =>
      let e := getNumChildren Node in
      if Idx <? e then
        child <-! getChild Node Idx ;;
        (* Until we no longer have a type node, keep demangling. *)
        if negb (isKind child KType) then ret Idx
        else
          print child false ;;
          let Idx := S Idx in
          (* If we are not done, print the ", ". *)
          (if Idx <? e then
             next <-! getChild Node Idx ;;
             when (hasText next) (emit ", ")
           else ret tt) ;;
          printClosureArgumentTypes rounds' Node Idx
      else ret Idx
  end.

(** [while (Idx < End)] of [printFunctionSigSpecializationParams]; every
    round advances [Idx]. *)
Fixpoint printFunctionSigSpecializationParamsFrom (rounds : nat) (Node : Node)
    (Idx : nat) : M unit :=
  match rounds with
  | 0 => ret tt
  | S rounds' =>
      let End := getNumChildren Node in
      if Idx <? End then
        firstChild <-! getChild Node Idx ;;
        i <-! getIndex firstChild ;;
        let V := to_unsigned i in
        Idx <-
          (if isParamKind V BoxToValue || isParamKind V BoxToStack then
             printChild Node Idx ;;
             ret (S Idx)
           else if isParamKind V ConstantPropFunction ||
                   isParamKind V ConstantPropGlobal then
             emit "[" ;;
             printChild Node Idx ;;
             emit " : " ;;
             payload <-! getChild Node (S Idx) ;;
             text <-! getText payload ;;
             let demangledName := demangleSymbolAsString E text in
             (if empty demangledName then emit text
              else emit demangledName) ;;
             emit "]" ;;
             ret (S (S Idx))
           else if isParamKind V ConstantPropInteger ||
                   isParamKind V ConstantPropFloat then
             emit "[" ;;
             printChild Node Idx ;;
             emit " : " ;;
             printChild Node (S Idx) ;;
             emit "]" ;;
             ret (S (S Idx))
           else if isParamKind V ConstantPropString then
             emit "[" ;;
             printChild Node Idx ;;
             emit " : " ;;
             printChild Node (S Idx) ;;
             emit "'" ;;
             printChild Node (S (S Idx)) ;;
             emit "'" ;;
             emit "]" ;;
             ret (S (S (S Idx)))
           else if isParamKind V ClosureProp then
             emit "[" ;;
             printChild Node Idx ;;
             emit " : " ;;
             printChild Node (S Idx) ;;
             emit ", Argument Types : [" ;;
             Idx <- printClosureArgumentTypes (getNumChildren Node) Node
                                              (S (S Idx)) ;;
             emit "]" ;;
             ret Idx
           else
             assert (hasParamFlag V OwnedToGuaranteed ||
                     hasParamFlag V GuaranteedToOwned ||
                     hasParamFlag V SROA ||
                     hasParamFlag V Dead ||
                     hasParamFlag V ExistentialToGeneric) ;;
             printChild Node Idx ;;
             ret (S Idx)) ;;
        printFunctionSigSpecializationParamsFrom rounds' Node Idx
      else ret tt
  end.

(** Print the relevant parameters. *)
Definition printFunctionSigSpecializationParams (Node : Node) : M unit :=
  printFunctionSigSpecializationParamsFrom (getNumChildren Node) Node 0.

(** [for (NodePointer child : *node)] of [printSpecializationPrefix]. *)
Fixpoint printSpecializationChildren (cs : list Node) (ParamPrefix : string)
    (Separator : string) (argNum : Z) : M unit :=
  match cs with
  | [] => ret tt
  | child :: rest =>
      if isKind child KSpecializationPassID then
        (* We skip the SpecializationPassID since it does not contain any
           information that is useful to our users. *)
        printSpecializationChildren rest ParamPrefix Separator argNum
      else if isKind child KIsSerialized then
        emit Separator ;;
        print child false ;;
        printSpecializationChildren rest ParamPrefix ", " argNum
      else
        (* Ignore empty specializations. *)
        Separator <-
          (if hasChildren child then
             emit Separator ;; emit ParamPrefix ;;
             (if isKind child KFunctionSignatureSpecializationParam then
                emit "Arg[" ;; emit (decimalZ argNum) ;; emit "] = " ;;
                printFunctionSigSpecializationParams child
              else if isKind child KFunctionSignatureSpecializationReturn then
                emit "Return = " ;;
                printFunctionSigSpecializationParams child
              else print child false ;; ret tt) ;;
             ret ", "
           else ret Separator) ;;
        printSpecializationChildren rest ParamPrefix Separator
                                    (int_add argNum 1)
  end.

Definition printSpecializationPrefix (node : Node) (Description : string)
    (ParamPrefix : string) : M unit :=
  if negb (DisplayGenericSpecializations Options) then
    printed <- getSpecializationPrefixPrinted ;;
    if negb printed then
      emit "specialized " ;;
      setSpecializationPrefixPrinted
    else ret tt
  else
    emit Description ;; emit " <" ;;
    printSpecializationChildren (getChildren node) ParamPrefix "" 0%Z ;;
    emit "> of ".

Definition printEntityType (Entity type : Node)
    (genericFunctionTypeList : NodePointer) : M unit :=
  let labelList := getChildIf Entity KLabelList in
  match labelList, genericFunctionTypeList with
  | None, None => print type false ;; ret tt
  | _, _ =>
      match genericFunctionTypeList with
      | Some _ =>
          emit "<" ;;
          printChildren genericFunctionTypeList (Some ", ") ;;
          emit ">"
      | None => ret tt
      end ;;
      type <-
        (if isKind type KDependentGenericType then
           match genericFunctionTypeList with
           | None => printChild type 0   (* generic signature *)
           | Some _ => ret tt
           end ;;
           dependentType <-! getChild type 1 ;;
           space <-! needSpaceBeforeType dependentType ;;
           when space (emit " ") ;;
           lift (getFirstChild dependentType)
         else ret type) ;;
      printFunctionType labelList type
  end.

Definition isInitializerLike (Entity : Node) : bool :=
  isKind Entity KDefaultArgumentInitializer ||
  isKind Entity KInitializer ||
  isKind Entity KPropertyWrapperBackingInitializer.

Definition isFunctionStyleType (t : Node) : bool :=
  isKind t KFunctionType || isKind t KNoEscapeFunctionType ||
  isKind t KUncurriedFunctionType || isKind t KCFunctionPointer ||
  isKind t KThinFunctionType.

(** Utility function to print entities.  A non-null result is a context that
    must be printed in postfix form after the entity:
    "<entity> in <context>". *)
Definition printEntity (Entity : Node) (asPrefixContext : bool)
    (TypePr : TypePrinting) (hasName : bool) (ExtraName : string)
    (ExtraIndex : Z) (OverwriteName : string) : M NodePointer :=
  unwrapped <-
    (if isKind Entity KBoundGenericFunction then
       l <-! getChild Entity 1 ;;
       e <-! getFirstChild Entity ;;
       ret (Some l, e)
     else ret (None, Entity)) ;;
  let '(genericFunctionTypeList, Entity) := unwrapped in
  (* Either we print the context in prefix form "<context>.<name>" or in
     suffix form "<name> in <context>". *)
  let MultiWordName := contains " " ExtraName in
  (* Also a local name (e.g. Mystruct #1) does not look good if its context
     is printed in prefix form. *)
  LocalName <-
    (if hasName then
       n <-! getChild Entity 1 ;; ret (isKind n KLocalDeclName)
     else ret false) ;;
  let MultiWordName :=
    if LocalName && DisplayLocalNameContexts Options then true
    else MultiWordName in
  if asPrefixContext &&
     (negb (TypePrinting_eqb TypePr NoType) || MultiWordName)
  then
    (* If the context has a type to be printed, we can't use the prefix
       form. *)
    ret (Some Entity)
  else
    Context <-! getChild Entity 0 ;;
    shown <-! printContext Context ;;
    PostfixContext <-
      (if shown then
         if MultiWordName then
           (* If the name contains some spaces we don't print the context
              now but later in suffix form. *)
           ret (Some Context)
         else
           CurrentPos <- getSize ;;
           PostfixContext <- print Context true ;;
           (* Was the context printed as prefix? *)
           size <- getSize ;;
           when (negb (size =? CurrentPos)) (emit ".") ;;
           ret PostfixContext
       else ret None) ;;
    ExtraName <-
      (if hasName || negb (empty OverwriteName) then
         assert (ExtraIndex <? 0)%Z ;;
         ExtraName <-
           (if negb (empty ExtraName) && MultiWordName then
              emit ExtraName ;; emit " of " ;; ret ""
            else ret ExtraName) ;;
         CurrentPos <- getSize ;;
         (if negb (empty OverwriteName) then emit OverwriteName
          else
            Name <-! getChild Entity 1 ;;
            (if negb (isKind Name KPrivateDeclName)
             then print Name false ;; ret tt
             else ret tt) ;;
            match getChildIf Entity KPrivateDeclName with
            | Some PrivateName => print PrivateName false ;; ret tt
            | None => ret tt
            end) ;;
         size <- getSize ;;
         when (negb (size =? CurrentPos) && negb (empty ExtraName))
              (emit ".") ;;
         ret ExtraName
       else ret ExtraName) ;;
    (if negb (empty ExtraName) then
       emit ExtraName ;;
       when (0 <=? ExtraIndex)%Z (emit (decimalZ ExtraIndex))
     else ret tt) ;;
    typed <-
      (if negb (TypePrinting_eqb TypePr NoType) then
         match getChildIf Entity KType with
         | None =>
             assert false ;;   (* malformed entity *)
             setInvalid ;;
             ret false
         | Some type =>
             type <-! getChild type 0 ;;
             TypePr <-
               (if TypePrinting_eqb TypePr FunctionStyle then
                  (* We expect to see a function type here, but if we
                     don't, use the colon. *)
                  t <-! skipDependentGenericTypes type ;;
                  if negb (isFunctionStyleType t) then ret WithColon
                  else ret TypePr
                else ret TypePr) ;;
             (if TypePrinting_eqb TypePr WithColon then
                if DisplayEntityTypes Options then
                  emit " : " ;;
                  printEntityType Entity type genericFunctionTypeList
                else ret tt
              else
                assert (TypePrinting_eqb TypePr FunctionStyle) ;;
                space <-
                  (if MultiWordName then ret true
                   else lift (needSpaceBeforeType type)) ;;
                when space (emit " ") ;;
                printEntityType Entity type genericFunctionTypeList) ;;
             ret true
         end
       else ret true) ;;
    if negb typed then ret None
    else
      match PostfixContext with
      | Some Context' =>
          if negb asPrefixContext &&
             (negb LocalName || DisplayLocalNameContexts Options)
          then
            (* Print any left over context which couldn't be printed in
               prefix form. *)
            emit (if isInitializerLike Entity then " of " else " in ") ;;
            print Context' false ;;
            ret None
          else ret PostfixContext
      | None => ret PostfixContext
      end.

Definition printAbstractStorage (Node : Node) (asPrefixContent : bool)
    (ExtraName : string) : M NodePointer :=
  match getKind Node with
  | KVariable =>
      printEntity Node asPrefixContent WithColon true ExtraName (-1) ""
  | KSubscript =>
      printEntity Node asPrefixContent WithColon false ExtraName (-1)
                  "subscript"
  | _ => printer_unreachable "Not an abstract storage node"
  end.

(** [for (i = ...; i < e; ++i) { if (i != first) Printer << sep; print(child i); }] *)
Fixpoint printSeparated (sep : string) (isFirst : bool) (cs : list Node)
    : M unit :=
  match cs with
  | [] => ret tt
  | c :: rest =>
      when (negb isFirst) (emit sep) ;;
      print c false ;;
      printSeparated sep false rest
  end.

(** The loop of the [GenericSpecializationParam] case. *)
Fixpoint printWithAnd (i : nat) (cs : list Node) : M unit :=
  match cs with
  | [] => ret tt
  | c :: rest =>
      emit (if i =? 1 then " with " else " and ") ;;
      print c false ;;
      printWithAnd (S i) rest
  end.

(** The loop of the key path getter and setter cases. *)
Fixpoint printKeyPathChildren (cs : list Node) : M unit :=
  match cs with
  | [] => ret tt
  | Child :: rest =>
      when (isKind Child KIsSerialized) (emit ", ") ;;
      print Child false ;;
      printKeyPathChildren rest
  end.

(** The loop of the [SILBoxLayout] case. *)
Fixpoint printBoxFields (isFirst : bool) (cs : list Node) : M unit :=
  match cs with
  | [] => ret tt
  | c :: rest =>
      when (negb isFirst) (emit ",") ;;
      emit " " ;;
      print c false ;;
      printBoxFields false rest
  end.

(** [for (unsigned index = 0; index < count; ++index)] of the generic
    signature: the round with index 128 leaves the loop, so 129 rounds are
    all there can be. *)
Fixpoint printGenericParameters (rounds : nat) (depth index count : N)
    : M unit :=
  match rounds with
  | 0 => ret tt
  | S rounds' =>
      if (index <? count)%N then
        when (negb (index =? 0)%N) (emit ", ") ;;
        (* Limit the number of printed generic parameters. *)
        if (128 <=? index)%N then emit "..."
        else
          emit (GenericParameterName Options depth index) ;;
          printGenericParameters rounds' depth (index + 1)%N count
      else ret tt
  end.

(** The loop over the leading [DependentGenericParamCount] children of a
    generic signature; the result is what is left of the children. *)
Fixpoint printGenericParameterLists (cs : list Node) (depth : N)
    : M (list Node) :=
  match cs with
  | [] => ret []
  | c :: rest =>
      if isKind c KDependentGenericParamCount then
        when (negb (depth =? 0)%N) (emit "><") ;;
        i <-! getIndex c ;;
        let count := to_unsigned i in
        printGenericParameters 129 depth 0%N count ;;
        printGenericParameterLists rest (depth + 1)%N
      else ret cs
  end.

(** [Node->getChild(i - 1)] for an unsigned [i]. *)
Definition getChildBefore (n : Node) (i : nat) : Res Node :=
  match i with
  | 0 => Stop InvalidAccess
  | S j => getChild n j
  end.

Definition layoutConstraintName (c : ascii) : string :=
  if Ascii.eqb c "U" then "_UnknownLayout"
  else if Ascii.eqb c "R" then "_RefCountedObject"
  else if Ascii.eqb c "N" then "_NativeRefCountedObject"
  else if Ascii.eqb c "C" then "AnyObject"
  else if Ascii.eqb c "D" then "_NativeClass"
  else if Ascii.eqb c "T" then "_Trivial"
  else if Ascii.eqb c "E" || Ascii.eqb c "e" then "_Trivial"
  else if Ascii.eqb c "M" || Ascii.eqb c "m" then "_TrivialAtMost"
  else "".

(** [Printer << text << sep] for a fixed phrase followed by one child. *)
Definition printPrefixed (phrase : string) (Node : Node) (i : nat)
    : M NodePointer :=
  emit phrase ;; printChild Node i ;; done.

Definition printNodeText (Node : Node) : M unit :=
  t <-! getText Node ;; emit t.

Definition printNodeIndex (Node : Node) : M unit :=
  i <-! getIndex Node ;; emit (decimal i).

Definition printDemangled (Node : Node) : M unit :=
  text <-! getText Node ;;
  let demangledName := demangleSymbolAsString E text in
  if empty demangledName then emit text else emit demangledName.

(** The case [FunctionSignatureSpecializationParamKind] of [print]. *)
Definition printParamKind (Node : Node) : M NodePointer :=
  raw <-! getIndex Node ;;
  let printedOptionSet := false in
  printedOptionSet <-
    (if hasParamFlag raw ExistentialToGeneric then
       emit "Existential To Protocol Constrained Generic" ;; ret true
     else ret printedOptionSet) ;;
  printedOptionSet <-
    (if hasParamFlag raw Dead then
       when printedOptionSet (emit " and ") ;;
       emit "Dead" ;; ret true
     else ret printedOptionSet) ;;
  printedOptionSet <-
    (if hasParamFlag raw OwnedToGuaranteed then
       when printedOptionSet (emit " and ") ;;
       emit "Owned To Guaranteed" ;; ret true
     else ret printedOptionSet) ;;
  printedOptionSet <-
    (if hasParamFlag raw GuaranteedToOwned then
       when printedOptionSet (emit " and ") ;;
       emit "Guaranteed To Owned" ;; ret true
     else ret printedOptionSet) ;;
  if hasParamFlag raw SROA then
    when printedOptionSet (emit " and ") ;;
    emit "Exploded" ;;
    done
  else if printedOptionSet then done
  else
    let V := to_unsigned raw in
    if isParamKind V BoxToValue then emit "Value Promoted from Box" ;; done
    else if isParamKind V BoxToStack then
      emit "Stack Promoted from Box" ;; done
    else if isParamKind V ConstantPropFunction then
      emit "Constant Propagated Function" ;; done
    else if isParamKind V ConstantPropGlobal then
      emit "Constant Propagated Global" ;; done
    else if isParamKind V ConstantPropInteger then
      emit "Constant Propagated Integer" ;; done
    else if isParamKind V ConstantPropFloat then
      emit "Constant Propagated Float" ;; done
    else if isParamKind V ConstantPropString then
      emit "Constant Propagated String" ;; done
    else if isParamKind V ClosureProp then
      emit "Closure Propagated" ;; done
    else if isParamKind V ExistentialToGeneric || isParamKind V Dead ||
            isParamKind V OwnedToGuaranteed ||
            isParamKind V GuaranteedToOwned || isParamKind V SROA then
      printer_unreachable "option sets should have been handled earlier"
    else done.

(** The main big print function: the body of [NodePrinter::print]. *)
Definition printNode (Node : Node) (asPrefixContext : bool) : M NodePointer :=
  match getKind Node with
  | KStatic => printPrefixed "static " Node 0
  | KCurryThunk => printPrefixed "curry thunk of " Node 0
  | KDispatchThunk => printPrefixed "dispatch thunk of " Node 0
  | KMethodDescriptor => printPrefixed "method descriptor for " Node 0
  | KMethodLookupFunction => printPrefixed "method lookup function for " Node 0
  | KObjCMetadataUpdateFunction =>
      printPrefixed "ObjC metadata update function for " Node 0
  | KObjCResilientClassStub =>
      printPrefixed "ObjC resilient class stub for " Node 0
  | KFullObjCResilientClassStub =>
      printPrefixed "full ObjC resilient class stub for " Node 0
  | KOutlinedBridgedMethod =>
      emit "outlined bridged method (" ;; printNodeText Node ;;
      emit ") of " ;; done
  | KOutlinedCopy =>
      emit "outlined copy of " ;;
      printChild Node 0 ;;
      (if 1 <? getNumChildren Node then printChild Node 1 else ret tt) ;;
      done
  | KOutlinedConsume =>
      emit "outlined consume of " ;;
      printChild Node 0 ;;
      (if 1 <? getNumChildren Node then printChild Node 1 else ret tt) ;;
      done
  | KOutlinedRetain => printPrefixed "outlined retain of " Node 0
  | KOutlinedRelease => printPrefixed "outlined release of " Node 0
  | KOutlinedInitializeWithTake =>
      printPrefixed "outlined init with take of " Node 0
  | KOutlinedInitializeWithCopy =>
      printPrefixed "outlined init with copy of " Node 0
  | KOutlinedAssignWithTake =>
      printPrefixed "outlined assign with take of " Node 0
  | KOutlinedAssignWithCopy =>
      printPrefixed "outlined assign with copy of " Node 0
  | KOutlinedDestroy => printPrefixed "outlined destroy of " Node 0
  | KOutlinedVariable =>
      emit "outlined variable #" ;; printNodeIndex Node ;; emit " of " ;; done
  | KDirectness =>
      i <-! getIndex Node ;;
      match toDirectness i with
      | Some d => emit (toString_Directness d) ;; emit " " ;; done
      | None => printer_unreachable "bad directness"
      end
  | KAnonymousContext =>
      (if QualifyEntities Options && DisplayExtensionContexts Options then
         printChild Node 1 ;;
         emit ".(unknown context at " ;;
         printChild Node 0 ;;
         emit ")" ;;
         if 3 <=? getNumChildren Node then
           c <-! getChild Node 2 ;;
           if 0 <? getNumChildren c then
             emit "<" ;; printChild Node 2 ;; emit ">"
           else ret tt
         else ret tt
       else ret tt) ;;
      done
  | KExtension =>
      assert ((getNumChildren Node =? 2) || (getNumChildren Node =? 3)) ;;
      (if QualifyEntities Options && DisplayExtensionContexts Options then
         emit "(extension in " ;;
         (* Print the module where extension is defined. *)
         c <-! getChild Node 0 ;;
         print c true ;;
         emit "):"
       else ret tt) ;;
      printChild Node 1 ;;
      (if getNumChildren Node =? 3 then
         (* Currently the runtime does not mangle the generic signature. *)
         if negb (PrintForTypeName Options) then printChild Node 2
         else ret tt
       else ret tt) ;;
      done
  | KVariable => printEntity Node asPrefixContext WithColon true "" (-1) ""
  | KFunction | KBoundGenericFunction =>
      printEntity Node asPrefixContext FunctionStyle true "" (-1) ""
  | KSubscript =>
      printEntity Node asPrefixContext FunctionStyle false "" (-1) "subscript"
  | KGenericTypeParamDecl =>
      printEntity Node asPrefixContext NoType true "" (-1) ""
  | KExplicitClosure =>
      c <-! getChild Node 1 ;;
      i <-! getIndex c ;;
      printEntity Node asPrefixContext
                  (if ShowFunctionArgumentTypes Options
                   then FunctionStyle else NoType)
                  false "closure #" (int_add (to_int i) 1) ""
  | KImplicitClosure =>
      c <-! getChild Node 1 ;;
      i <-! getIndex c ;;
      printEntity Node asPrefixContext
                  (if ShowFunctionArgumentTypes Options
                   then FunctionStyle else NoType)
                  false "implicit closure #" (int_add (to_int i) 1) ""
  | KGlobal => printChildren (Some Node) None ;; done
  | KSuffix =>
      (if DisplayUnmangledSuffix Options then
         emit " with unmangled suffix " ;;
         t <-! getText Node ;;
         emit (QuotedString t)
       else ret tt) ;;
      done
  | KInitializer =>
      printEntity Node asPrefixContext NoType false
                  "variable initialization expression" (-1) ""
  | KPropertyWrapperBackingInitializer =>
      printEntity Node asPrefixContext NoType false
                  "property wrapper backing initializer" (-1) ""
  | KDefaultArgumentInitializer =>
      c <-! getChild Node 1 ;;
      i <-! getIndex c ;;
      printEntity Node asPrefixContext NoType false
                  "default argument " (to_int i) ""
  | KDeclContext => printChild Node 0 ;; done
  | KType => printChild Node 0 ;; done
  | KTypeMangling =>
      c <-! getChild Node 0 ;;
      (if isKind c KLabelList then
         labels <-! getChild Node 0 ;;
         c1 <-! getChild Node 1 ;;
         fn <-! getFirstChild c1 ;;
         printFunctionType (Some labels) fn
       else printChild Node 0) ;;
      done
  | KClass | KStructure | KEnum | KProtocol | KTypeAlias
  | KOtherNominalType =>
      printEntity Node asPrefixContext NoType true "" (-1) ""
  | KLocalDeclName =>
      printChild Node 1 ;;
      (if DisplayLocalNameContexts Options then
         emit " #" ;;
         c <-! getChild Node 0 ;;
         i <-! getIndex c ;;
         emit (decimal ((i + 1) mod two64))
       else ret tt) ;;
      done
  | KPrivateDeclName =>
      (if 1 <? getNumChildren Node then
         when (ShowPrivateDiscriminators Options) (emit "(") ;;
         printChild Node 1 ;;
         if ShowPrivateDiscriminators Options then
           emit " in " ;;
           c <-! getChild Node 0 ;;
           printNodeText c ;;
           emit ")"
         else ret tt
       else
         if ShowPrivateDiscriminators Options then
           emit "(in " ;;
           c <-! getChild Node 0 ;;
           printNodeText c ;;
           emit ")"
         else ret tt) ;;
      done
  | KRelatedEntityDeclName =>
      emit "related decl '" ;;
      c <-! getFirstChild Node ;;
      printNodeText c ;;
      emit "' for " ;;
      printChild Node 1 ;;
      done
  | KModule =>
      (if DisplayModuleNames Options then printNodeText Node else ret tt) ;;
      done
  | KIdentifier => printNodeText Node ;; done
  | KIndex => printNodeIndex Node ;; done
  | KUnknownIndex => emit "unknown index" ;; done
  | KFunctionType | KUncurriedFunctionType | KNoEscapeFunctionType
  | KAutoClosureType | KEscapingAutoClosureType | KThinFunctionType
  | KCFunctionPointer | KObjCBlock | KEscapingObjCBlock
  | KDifferentiableFunctionType | KEscapingDifferentiableFunctionType
  | KLinearFunctionType | KEscapingLinearFunctionType =>
      printFunctionType None Node ;; done
  | KClangType => printNodeText Node ;; done
  | KArgumentTuple =>
      printFunctionParameters None Node (ShowFunctionArgumentTypes Options) ;;
      done
  | KTuple =>
      emit "(" ;;
      printChildren (Some Node) (Some ", ") ;;
      emit ")" ;;
      done
  | KTupleElement =>
      match getChildIf Node KTupleElementName with
      | Some Label => printNodeText Label ;; emit ": "
      | None => ret tt
      end ;;
      let Ty := getChildIf Node KType in
      assert (match Ty with Some _ => true | None => false end) ;;
      printPointer Ty ;;
      match getChildIf Node KVariadicMarker with
      | Some _ => emit "..."
      | None => ret tt
      end ;;
      done
  | KTupleElementName => printNodeText Node ;; emit ": " ;; done
  | KReturnType =>
      (if getNumChildren Node =? 0 then emit " -> " ;; printNodeText Node
       else emit " -> " ;; printChildren (Some Node) None) ;;
      done
  | KRetroactiveConformance =>
      if negb (getNumChildren Node =? 2) then done
      else
        emit "retroactive @ " ;;
        printChild Node 0 ;;
        printChild Node 1 ;;
        done
  | KWeak => emit (keywordOf E Weak) ;; emit " " ;; printChild Node 0 ;; done
  | KUnowned =>
      emit (keywordOf E Unowned) ;; emit " " ;; printChild Node 0 ;; done
  | KUnmanaged =>
      emit (keywordOf E Unmanaged) ;; emit " " ;; printChild Node 0 ;; done
  | KInOut => printPrefixed "inout " Node 0
  | KShared => printPrefixed "__shared " Node 0
  | KOwned => printPrefixed "__owned " Node 0
  | KNonObjCAttribute => emit "@nonobjc " ;; done
  | KObjCAttribute => emit "@objc " ;; done
  | KDirectMethodReferenceAttribute => emit "super " ;; done
  | KDynamicAttribute => emit "dynamic " ;; done
  | KVTableAttribute => emit "override " ;; done
  | KFunctionSignatureSpecialization =>
      printSpecializationPrefix Node "function signature specialization" "" ;;
      done
  | KGenericPartialSpecialization =>
      printSpecializationPrefix Node "generic partial specialization"
                                "Signature = " ;;
      done
  | KGenericPartialSpecializationNotReAbstracted =>
      printSpecializationPrefix
        Node "generic not-reabstracted partial specialization"
        "Signature = " ;;
      done
  | KGenericSpecialization =>
      printSpecializationPrefix Node "generic specialization" "" ;; done
  | KGenericSpecializationPrespecialized =>
      printSpecializationPrefix Node "generic pre-specialization" "" ;; done
  | KGenericSpecializationNotReAbstracted =>
      printSpecializationPrefix
        Node "generic not re-abstracted specialization" "" ;;
      done
  | KInlinedGenericFunction =>
      printSpecializationPrefix Node "inlined generic function" "" ;; done
  | KIsSerialized => emit "serialized" ;; done
  | KGenericSpecializationParam =>
      printChild Node 0 ;;
      printWithAnd 1 (tl (getChildren Node)) ;;
      done
  | KFunctionSignatureSpecializationReturn
  | KFunctionSignatureSpecializationParam =>
      printer_unreachable "should be handled in printSpecializationPrefix"
  | KFunctionSignatureSpecializationParamPayload =>
      printDemangled Node ;; done
  | KFunctionSignatureSpecializationParamKind => printParamKind Node
  | KSpecializationPassID => printNodeIndex Node ;; done
  | KBuiltinTypeName => printNodeText Node ;; done
  | KNumber => printNodeIndex Node ;; done
  | KInfixOperator => printNodeText Node ;; emit " infix" ;; done
  | KPrefixOperator => printNodeText Node ;; emit " prefix" ;; done
  | KPostfixOperator => printNodeText Node ;; emit " postfix" ;; done
  | KLazyProtocolWitnessTableAccessor =>
      emit "lazy protocol witness table accessor for type " ;;
      printChild Node 0 ;;
      emit " and conformance " ;;
      printChild Node 1 ;;
      done
  | KLazyProtocolWitnessTableCacheVariable =>
      emit "lazy protocol witness table cache variable for type " ;;
      printChild Node 0 ;;
      emit " and conformance " ;;
      printChild Node 1 ;;
      done
  | KProtocolSelfConformanceWitnessTable =>
      printPrefixed "protocol self-conformance witness table for " Node 0
  | KProtocolWitnessTableAccessor =>
      printPrefixed "protocol witness table accessor for " Node 0
  | KProtocolWitnessTable =>
      printPrefixed "protocol witness table for " Node 0
  | KProtocolWitnessTablePattern =>
      printPrefixed "protocol witness table pattern for " Node 0
  | KGenericProtocolWitnessTable =>
      printPrefixed "generic protocol witness table for " Node 0
  | KGenericProtocolWitnessTableInstantiationFunction =>
      printPrefixed
        "instantiation function for generic protocol witness table for "
        Node 0
  | KResilientProtocolWitnessTable =>
      printPrefixed "resilient protocol witness table for " Node 0
  | KVTableThunk =>
      emit "vtable thunk for " ;;
      printChild Node 1 ;;
      emit " dispatching to " ;;
      printChild Node 0 ;;
      done
  | KProtocolSelfConformanceWitness =>
      printPrefixed "protocol self-conformance witness for " Node 0
  | KProtocolWitness =>
      emit "protocol witness for " ;;
      printChild Node 1 ;;
      emit " in conformance " ;;
      printChild Node 0 ;;
      done
  | KPartialApplyForwarder =>
      (if ShortenPartialApply Options then emit "partial apply"
       else emit "partial apply forwarder") ;;
      (if hasChildren Node then
         emit " for " ;; printChildren (Some Node) None
       else ret tt) ;;
      done
  | KPartialApplyObjCForwarder =>
      (if ShortenPartialApply Options then emit "partial apply"
       else emit "partial apply ObjC forwarder") ;;
      (if hasChildren Node then
         emit " for " ;; printChildren (Some Node) None
       else ret tt) ;;
      done
  | KKeyPathGetterThunkHelper =>
      emit "key path getter for " ;;
      printChild Node 0 ;;
      emit " : " ;;
      printKeyPathChildren (tl (getChildren Node)) ;;
      done
  | KKeyPathSetterThunkHelper =>
      emit "key path setter for " ;;
      printChild Node 0 ;;
      emit " : " ;;
      printKeyPathChildren (tl (getChildren Node)) ;;
      done
  | (KKeyPathEqualsThunkHelper | KKeyPathHashThunkHelper) as kind =>
      emit "key path index " ;;
      emit (match kind with
            | KKeyPathEqualsThunkHelper => "equality"
            | _ => "hash"
            end) ;;
      emit " operator for " ;;
      let lastChildIndex := getNumChildren Node in
      lastChild <-! getChildBefore Node lastChildIndex ;;
      last <-
        (if isKind lastChild KIsSerialized then
           let lastChildIndex := Nat.pred lastChildIndex in
           lastChild <-! getChildBefore Node lastChildIndex ;;
           ret (lastChildIndex, lastChild)
         else ret (lastChildIndex, lastChild)) ;;
      let '(lastChildIndex, lastChild) := last in
      lastChildIndex <-
        (if isKind lastChild KDependentGenericSignature then
           print lastChild false ;;
           ret (Nat.pred lastChildIndex)
         else ret lastChildIndex) ;;
      emit "(" ;;
      printSeparated ", " true (firstn lastChildIndex (getChildren Node)) ;;
      emit ")" ;;
      done
  | KFieldOffset =>
      printChild Node 0 ;;   (* directness *)
      emit "field offset for " ;;
      printChild Node 1 ;;
      done
  | KEnumCase => printPrefixed "enum case for " Node 0
  | (KReabstractionThunk | KReabstractionThunkHelper) as kind =>
      if ShortenThunk Options then
        emit "thunk for " ;;
        c <-! getChildBefore Node (getNumChildren Node) ;;
        print c false ;;
        done
      else
        emit "reabstraction thunk " ;;
        match kind with
        | KReabstractionThunkHelper => emit "helper "
        | _ => ret tt
        end ;;
        idx <-
          (if getNumChildren Node =? 3 then
             printChild Node 0 ;;   (* generics *)
             emit " " ;;
             ret 1
           else ret 0) ;;
        emit "from " ;;
        printChild Node (idx + 1) ;;
        emit " to " ;;
        printChild Node idx ;;
        done
  | KReabstractionThunkHelperWithSelf =>
      emit "reabstraction thunk " ;;
      idx <-
        (if getNumChildren Node =? 4 then
           printChild Node 0 ;;   (* generics *)
           emit " " ;;
           ret 1
         else ret 0) ;;
      emit "from " ;;
      printChild Node (idx + 2) ;;
      emit " to " ;;
      printChild Node (idx + 1) ;;
      emit " self " ;;
      printChild Node idx ;;
      done
  | KMergedFunction =>
      when (negb (ShortenThunk Options)) (emit "merged ") ;; done
  | KTypeSymbolicReference =>
      emit "type symbolic reference 0x" ;;
      i <-! getIndex Node ;;
      emit (hexadecimal i) ;;
      done
  | KOpaqueTypeDescriptorSymbolicReference =>
      emit "opaque type symbolic reference 0x" ;;
      i <-! getIndex Node ;;
      emit (hexadecimal i) ;;
      done
  | KDynamicallyReplaceableFunctionKey =>
      when (negb (ShortenThunk Options))
           (emit "dynamically replaceable key for ") ;;
      done
  | KDynamicallyReplaceableFunctionImpl =>
      when (negb (ShortenThunk Options))
           (emit "dynamically replaceable thunk for ") ;;
      done
  | KDynamicallyReplaceableFunctionVar =>
      when (negb (ShortenThunk Options))
           (emit "dynamically replaceable variable for ") ;;
      done
  | KProtocolSymbolicReference =>
      emit "protocol symbolic reference 0x" ;;
      i <-! getIndex Node ;;
      emit (hexadecimal i) ;;
      done
  | KGenericTypeMetadataPattern =>
      printPrefixed "generic type metadata pattern for " Node 0
  | KMetaclass => printPrefixed "metaclass for " Node 0
  | KProtocolSelfConformanceDescriptor =>
      printPrefixed "protocol self-conformance descriptor for " Node 0
  | KProtocolConformanceDescriptor =>
      printPrefixed "protocol conformance descriptor for " Node 0
  | KProtocolDescriptor => printPrefixed "protocol descriptor for " Node 0
  | KProtocolRequirementsBaseDescriptor =>
      printPrefixed "protocol requirements base descriptor for " Node 0
  | KFullTypeMetadata => printPrefixed "full type metadata for " Node 0
  | KTypeMetadata => printPrefixed "type metadata for " Node 0
  | KTypeMetadataAccessFunction =>
      printPrefixed "type metadata accessor for " Node 0
  | KTypeMetadataInstantiationCache =>
      printPrefixed "type metadata instantiation cache for " Node 0
  | KTypeMetadataInstantiationFunction =>
      printPrefixed "type metadata instantiation function for " Node 0
  | KTypeMetadataSingletonInitializationCache =>
      printPrefixed "type metadata singleton initialization cache for " Node 0
  | KTypeMetadataCompletionFunction =>
      printPrefixed "type metadata completion function for " Node 0
  | KTypeMetadataDemanglingCache =>
      printPrefixed "demangling cache variable for type metadata for " Node 0
  | KTypeMetadataLazyCache =>
      printPrefixed "lazy cache variable for type metadata for " Node 0
  | KAssociatedConformanceDescriptor =>
      emit "associated conformance descriptor for " ;;
      printChild Node 0 ;;
      emit "." ;;
      printChild Node 1 ;;
      emit ": " ;;
      printChild Node 2 ;;
      done
  | KDefaultAssociatedConformanceAccessor =>
      emit "default associated conformance accessor for " ;;
      printChild Node 0 ;;
      emit "." ;;
      printChild Node 1 ;;
      emit ": " ;;
      printChild Node 2 ;;
      done
  | KAssociatedTypeDescriptor =>
      printPrefixed "associated type descriptor for " Node 0
  | KAssociatedTypeMetadataAccessor =>
      emit "associated type metadata accessor for " ;;
      printChild Node 1 ;;
      emit " in " ;;
      printChild Node 0 ;;
      done
  | KBaseConformanceDescriptor =>
      emit "base conformance descriptor for " ;;
      printChild Node 0 ;;
      emit ": " ;;
      printChild Node 1 ;;
      done
  | KDefaultAssociatedTypeMetadataAccessor =>
      printPrefixed "default associated type metadata accessor for " Node 0
  | KAssociatedTypeWitnessTableAccessor =>
      emit "associated type witness table accessor for " ;;
      printChild Node 1 ;;
      emit " : " ;;
      printChild Node 2 ;;
      emit " in " ;;
      printChild Node 0 ;;
      done
  | KBaseWitnessTableAccessor =>
      emit "base witness table accessor for " ;;
      printChild Node 1 ;;
      emit " in " ;;
      printChild Node 0 ;;
      done
  | KClassMetadataBaseOffset =>
      printPrefixed "class metadata base offset for " Node 0
  | KPropertyDescriptor => printPrefixed "property descriptor for " Node 0
  | KNominalTypeDescriptor =>
      printPrefixed "nominal type descriptor for " Node 0
  | KOpaqueTypeDescriptor =>
      printPrefixed "opaque type descriptor for " Node 0
  | KOpaqueTypeDescriptorAccessor =>
      printPrefixed "opaque type descriptor accessor for " Node 0
  | KOpaqueTypeDescriptorAccessorImpl =>
      printPrefixed "opaque type descriptor accessor impl for " Node 0
  | KOpaqueTypeDescriptorAccessorKey =>
      printPrefixed "opaque type descriptor accessor key for " Node 0
  | KOpaqueTypeDescriptorAccessorVar =>
      printPrefixed "opaque type descriptor accessor var for " Node 0
  | KCoroutineContinuationPrototype =>
      printPrefixed "coroutine continuation prototype for " Node 0
  | KValueWitness =>
      c <-! getFirstChild Node ;;
      i <-! getIndex c ;;
      match toValueWitnessKind i with
      | Some k =>
          emit (toString_ValueWitnessKind k) ;;
          (if ShortenValueWitness Options then emit " for "
           else emit " value witness for ") ;;
          printChild Node 1 ;;
          done
      | None => printer_unreachable "bad value witness kind"
      end
  | KValueWitnessTable => printPrefixed "value witness table for " Node 0
  | KBoundGenericClass | KBoundGenericStructure | KBoundGenericEnum
  | KBoundGenericProtocol | KBoundGenericOtherNominalType
  | KBoundGenericTypeAlias =>
      printBoundGeneric Node ;; done
  | KDynamicSelf => emit "Self" ;; done
  | KSILBoxType => printPrefixed "@box " Node 0
  | KMetatype =>
      Idx <-
        (if getNumChildren Node =? 2 then
           printChild Node 0 ;;   (* repr *)
           emit " " ;;
           ret 1
         else ret 0) ;;
      c <-! getChild Node Idx ;;
      type <-! getChild c 0 ;;
      printWithParens type ;;
      (if isExistentialType type then emit ".Protocol"
       else emit ".Type") ;;
      done
  | KExistentialMetatype =>
      Idx <-
        (if getNumChildren Node =? 2 then
           printChild Node 0 ;;   (* repr *)
           emit " " ;;
           ret 1
         else ret 0) ;;
      printChild Node Idx ;;
      emit ".Type" ;;
      done
  | KMetatypeRepresentation => printNodeText Node ;; done
  | KAssociatedTypeRef =>
      printChild Node 0 ;;
      emit "." ;;
      c <-! getChild Node 1 ;;
      printNodeText c ;;
      done
  | KProtocolList =>
      type_list <-! getChild Node 0 ;;
      (if getNumChildren type_list =? 0 then emit "Any"
       else printChildren (Some type_list) (Some " & ")) ;;
      done
  | KProtocolListWithClass =>
      if getNumChildren Node <? 2 then done
      else
        protocols <-! getChild Node 0 ;;
        superclass <-! getChild Node 1 ;;
        print superclass false ;;
        emit " & " ;;
        if getNumChildren protocols <? 1 then done
        else
          type_list <-! getChild protocols 0 ;;
          printChildren (Some type_list) (Some " & ") ;;
          done
  | KProtocolListWithAnyObject =>
      if getNumChildren Node <? 1 then done
      else
        protocols <-! getChild Node 0 ;;
        if getNumChildren protocols <? 1 then done
        else
          type_list <-! getChild protocols 0 ;;
          (if 0 <? getNumChildren type_list then
             printChildren (Some type_list) (Some " & ") ;;
             emit " & "
           else ret tt) ;;
          (if QualifyEntities Options && DisplayStdlibModule Options then
             emit (STDLIB_NAME E) ;; emit "."
           else ret tt) ;;
          emit "AnyObject" ;;
          done
  | KAssociatedType =>
      (* Don't print for now. *)
      done
  | KOwningAddressor =>
      c <-! getFirstChild Node ;;
      printAbstractStorage c asPrefixContext "owningAddressor"
  | KOwningMutableAddressor =>
      c <-! getFirstChild Node ;;
      printAbstractStorage c asPrefixContext "owningMutableAddressor"
  | KNativeOwningAddressor =>
      c <-! getFirstChild Node ;;
      printAbstractStorage c asPrefixContext "nativeOwningAddressor"
  | KNativeOwningMutableAddressor =>
      c <-! getFirstChild Node ;;
      printAbstractStorage c asPrefixContext "nativeOwningMutableAddressor"
  | KNativePinningAddressor =>
      c <-! getFirstChild Node ;;
      printAbstractStorage c asPrefixContext "nativePinningAddressor"
  | KNativePinningMutableAddressor =>
      c <-! getFirstChild Node ;;
      printAbstractStorage c asPrefixContext "nativePinningMutableAddressor"
  | KUnsafeAddressor =>
      c <-! getFirstChild Node ;;
      printAbstractStorage c asPrefixContext "unsafeAddressor"
  | KUnsafeMutableAddressor =>
      c <-! getFirstChild Node ;;
      printAbstractStorage c asPrefixContext "unsafeMutableAddressor"
  | KGlobalGetter =>
      c <-! getFirstChild Node ;;
      printAbstractStorage c asPrefixContext "getter"
  | KGetter =>
      c <-! getFirstChild Node ;;
      printAbstractStorage c asPrefixContext "getter"
  | KSetter =>
      c <-! getFirstChild Node ;;
      printAbstractStorage c asPrefixContext "setter"
  | KMaterializeForSet =>
      c <-! getFirstChild Node ;;
      printAbstractStorage c asPrefixContext "materializeForSet"
  | KWillSet =>
      c <-! getFirstChild Node ;;
      printAbstractStorage c asPrefixContext "willset"
  | KDidSet =>
      c <-! getFirstChild Node ;;
      printAbstractStorage c asPrefixContext "didset"
  | KReadAccessor =>
      c <-! getFirstChild Node ;;
      printAbstractStorage c asPrefixContext "read"
  | KModifyAccessor =>
      c <-! getFirstChild Node ;;
      printAbstractStorage c asPrefixContext "modify"
  | KAllocator =>
      c <-! getChild Node 0 ;;
      printEntity Node asPrefixContext FunctionStyle false
                  (if isClassType c then "__allocating_init" else "init")
                  (-1) ""
  | KConstructor =>
      printEntity Node asPrefixContext FunctionStyle
                  (2 <? getNumChildren Node) "init" (-1) ""
  | KDestructor =>
      printEntity Node asPrefixContext NoType false "deinit" (-1) ""
  | KDeallocator =>
      c <-! getChild Node 0 ;;
      printEntity Node asPrefixContext NoType false
                  (if isClassType c then "__deallocating_deinit"
                   else "deinit")
                  (-1) ""
  | KIVarInitializer =>
      printEntity Node asPrefixContext NoType false "__ivar_initializer"
                  (-1) ""
  | KIVarDestroyer =>
      printEntity Node asPrefixContext NoType false "__ivar_destroyer"
                  (-1) ""
  | KProtocolConformance =>
      child0 <-! getChild Node 0 ;;
      child1 <-! getChild Node 1 ;;
      child2 <-! getChild Node 2 ;;
      if getNumChildren Node =? 4 then
        emit "property behavior storage of " ;;
        print child2 false ;;
        emit " in " ;;
        print child0 false ;;
        emit " : " ;;
        print child1 false ;;
        done
      else
        print child0 false ;;
        (if DisplayProtocolConformances Options then
           emit " : " ;;
           print child1 false ;;
           emit " in " ;;
           print child2 false ;;
           ret tt
         else ret tt) ;;
        done
  | KTypeList => printChildren (Some Node) None ;; done
  | KLabelList => done
  | KImplDifferentiable => emit "@differentiable" ;; done
  | KImplLinear => emit "@differentiable(linear)" ;; done
  | KImplEscaping => emit "@escaping" ;; done
  | KImplConvention => printNodeText Node ;; done
  | KImplDifferentiability =>
      t <-! getText Node ;;
      (* Skip if text is empty. *)
      if empty t then done
      else
        (* Otherwise, print with trailing space. *)
        emit t ;; emit " " ;; done
  | KImplFunctionAttribute => printNodeText Node ;; done
  | KImplFunctionConvention =>
      emit "@convention(" ;;
      match getNumChildren Node with
      | 1 => c <-! getChild Node 0 ;; printNodeText c
      | 2 =>
          c <-! getChild Node 0 ;;
          printNodeText c ;;
          emit (", mangledCType: " ++ str DQ) ;;
          printChild Node 1 ;;
          emit (str DQ)
      | _ => assert false
      end ;;
      emit ")" ;;
      done
  | KImplFunctionConventionName =>
      (* Without asserts the control falls through to the next case. *)
      assert false ;;
      emit "@error " ;;
      printChildren (Some Node) (Some " ") ;;
      done
  | KImplErrorResult =>
      emit "@error " ;;
      printChildren (Some Node) (Some " ") ;;
      done
  | KImplYield =>
      emit "@yields " ;;
      printChildren (Some Node) (Some " ") ;;
      done
  | KImplParameter | KImplResult =>
      (* Children: `convention, differentiability?, type` *)
      (* Print convention. *)
      printChild Node 0 ;;
      emit " " ;;
      (* Print differentiability, if it exists. *)
      (if getNumChildren Node =? 3 then printChild Node 1 else ret tt) ;;
      (* Print type. *)
      c <-! getLastChild Node ;;
      print c false ;;
      done
  | KImplFunctionType => printImplFunctionType Node ;; done
  | KImplInvocationSubstitutions =>
      emit "for <" ;;
      c <-! getChild Node 0 ;;
      printChildren (Some c) (Some ", ") ;;
      emit ">" ;;
      done
  | KImplPatternSubstitutions =>
      emit "@substituted " ;;
      printChild Node 0 ;;
      emit " for <" ;;
      c <-! getChild Node 1 ;;
      printChildren (Some c) (Some ", ") ;;
      emit ">" ;;
      done
  | KErrorType => emit "<ERROR TYPE>" ;; done
  | KDependentPseudogenericSignature | KDependentGenericSignature =>
      emit "<" ;;
      rest <- printGenericParameterLists (getChildren Node) 0%N ;;
      match rest with
      | [] => ret tt
      | _ :: _ =>
          if DisplayWhereClauses Options then
            emit " where " ;;
            printSeparated ", " true rest
          else ret tt
      end ;;
      emit ">" ;;
      done
  | KDependentGenericParamCount =>
      printer_unreachable
        "should be printed as a child of a DependentGenericSignature"
  | KDependentGenericConformanceRequirement =>
      type <-! getChild Node 0 ;;
      reqt <-! getChild Node 1 ;;
      print type false ;;
      emit ": " ;;
      print reqt false ;;
      done
  | KDependentGenericLayoutRequirement =>
      type <-! getChild Node 0 ;;
      layout <-! getChild Node 1 ;;
      print type false ;;
      emit ": " ;;
      assert (isKind layout KIdentifier) ;;
      t <-! getText layout ;;
      assert (String.length t =? 1) ;;
      match t with
      | EmptyString => fail InvalidAccess
      | String c _ =>
          emit (layoutConstraintName c) ;;
          (if 2 <? getNumChildren Node then
             emit "(" ;;
             printChild Node 2 ;;
             (if 3 <? getNumChildren Node then
                emit ", " ;; printChild Node 3
              else ret tt) ;;
             emit ")"
           else ret tt) ;;
          done
      end
  | KDependentGenericSameTypeRequirement =>
      fst <-! getChild Node 0 ;;
      snd <-! getChild Node 1 ;;
      print fst false ;;
      emit " == " ;;
      print snd false ;;
      done
  | KDependentGenericParamType =>
      c1 <-! getChild Node 1 ;;
      i <-! getIndex c1 ;;
      let index := to_unsigned i in
      c0 <-! getChild Node 0 ;;
      d <-! getIndex c0 ;;
      let depth := to_unsigned d in
      emit (GenericParameterName Options depth index) ;;
      done
  | KDependentGenericType =>
      sig <-! getChild Node 0 ;;
      depTy <-! getChild Node 1 ;;
      print sig false ;;
      space <-! needSpaceBeforeType depTy ;;
      when space (emit " ") ;;
      print depTy false ;;
      done
  | KDependentMemberType =>
      base <-! getChild Node 0 ;;
      print base false ;;
      emit "." ;;
      assocTy <-! getChild Node 1 ;;
      print assocTy false ;;
      done
  | KDependentAssociatedTypeRef =>
      (if 1 <? getNumChildren Node then
         printChild Node 1 ;; emit "."
       else ret tt) ;;
      printChild Node 0 ;;
      done
  | KReflectionMetadataBuiltinDescriptor =>
      printPrefixed "reflection metadata builtin descriptor " Node 0
  | KReflectionMetadataFieldDescriptor =>
      printPrefixed "reflection metadata field descriptor " Node 0
  | KReflectionMetadataAssocTypeDescriptor =>
      printPrefixed "reflection metadata associated type descriptor " Node 0
  | KReflectionMetadataSuperclassDescriptor =>
      printPrefixed "reflection metadata superclass descriptor " Node 0
  | KAsyncAnnotation => emit " async " ;; done
  | KThrowsAnnotation => emit " throws " ;; done
  | KEmptyList => emit " empty-list " ;; done
  | KFirstElementMarker => emit " first-element-marker " ;; done
  | KVariadicMarker => emit " variadic-marker " ;; done
  | KSILBoxTypeWithLayout =>
      assert ((getNumChildren Node =? 1) || (getNumChildren Node =? 3)) ;;
      layout <-! getChild Node 0 ;;
      assert (isKind layout KSILBoxLayout) ;;
      genericArgs <-
        (if getNumChildren Node =? 3 then
           signature <-! getChild Node 1 ;;
           assert (isKind signature KDependentGenericSignature) ;;
           genericArgs <-! getChild Node 2 ;;
           assert (isKind genericArgs KTypeList) ;;
           print signature false ;;
           emit " " ;;
           ret (Some genericArgs)
         else ret None) ;;
      print layout false ;;
      match genericArgs with
      | Some args =>
          emit " <" ;;
          printSeparated ", " true (getChildren args) ;;
          emit ">"
      | None => ret tt
      end ;;
      done
  | KSILBoxLayout =>
      emit "{" ;;
      printBoxFields true (getChildren Node) ;;
      emit " }" ;;
      done
  | (KSILBoxImmutableField | KSILBoxMutableField) as kind =>
      emit (match kind with
            | KSILBoxImmutableField => "let "
            | _ => "var "
            end) ;;
      assert ((getNumChildren Node =? 1) &&
              match getChildren Node with
              | c :: _ => isKind c KType
              | [] => false
              end) ;;
      printChild Node 0 ;;
      done
  | KAssocTypePath =>
      printChildrenRange (getChildren Node) (Some ".") ;; done
  | KModuleDescriptor => printPrefixed "module descriptor " Node 0
  | KAnonymousDescriptor => printPrefixed "anonymous descriptor " Node 0
  | KExtensionDescriptor => printPrefixed "extension descriptor " Node 0
  | KAssociatedTypeGenericParamRef =>
      emit "generic parameter reference for associated type " ;;
      printChildren (Some Node) None ;;
      done
  | KAnyProtocolConformanceList => printChildren (Some Node) None ;; done
  | KConcreteProtocolConformance =>
      emit "concrete protocol conformance " ;;
      (if hasIndex Node then
         emit "#" ;; printNodeIndex Node ;; emit " "
       else ret tt) ;;
      printChildren (Some Node) None ;;
      done
  | KDependentAssociatedConformance =>
      emit "dependent associated conformance " ;;
      printChildren (Some Node) None ;;
      done
  | KDependentProtocolConformanceAssociated =>
      emit "dependent associated protocol conformance " ;;
      c <-! getChild Node 2 ;;
      printOptionalIndex c ;;
      printChild Node 0 ;;
      printChild Node 1 ;;
      done
  | KDependentProtocolConformanceInherited =>
      emit "dependent inherited protocol conformance " ;;
      c <-! getChild Node 2 ;;
      printOptionalIndex c ;;
      printChild Node 0 ;;
      printChild Node 1 ;;
      done
  | KDependentProtocolConformanceRoot =>
      emit "dependent root protocol conformance " ;;
      c <-! getChild Node 2 ;;
      printOptionalIndex c ;;
      printChild Node 0 ;;
      printChild Node 1 ;;
      done
  | KProtocolConformanceRefInTypeModule =>
      emit "protocol conformance ref (type's module) " ;;
      printChildren (Some Node) None ;;
      done
  | KProtocolConformanceRefInProtocolModule =>
      emit "protocol conformance ref (protocol's module) " ;;
      printChildren (Some Node) None ;;
      done
  | KProtocolConformanceRefInOtherModule =>
      emit "protocol conformance ref (retroactive) " ;;
      printChildren (Some Node) None ;;
      done
  | KSugaredOptional =>
      c <-! getChild Node 0 ;;
      printWithParens c ;;
      emit "?" ;;
      done
  | KSugaredArray =>
      emit "[" ;;
      printChild Node 0 ;;
      emit "]" ;;
      done
  | KSugaredDictionary =>
      emit "[" ;;
      printChild Node 0 ;;
      emit " : " ;;
      printChild Node 1 ;;
      emit "]" ;;
      done
  | KSugaredParen =>
      emit "(" ;;
      printChild Node 0 ;;
      emit ")" ;;
      done
  | KOpaqueReturnType => emit "some" ;; done
  | KOpaqueReturnTypeOf =>
      emit "<<opaque return type of " ;;
      printChildren (Some Node) None ;;
      emit ">>" ;;
      done
  | KOpaqueType =>
      printChild Node 0 ;;
      emit "." ;;
      printChild Node 1 ;;
      done
  | KAccessorFunctionReference =>
      emit "accessor function at " ;; printNodeIndex Node ;; done
  | KCanonicalSpecializedGenericMetaclass =>
      printPrefixed "specialized generic metaclass for " Node 0
  | KCanonicalSpecializedGenericTypeMetadataAccessFunction =>
      printPrefixed
        "canonical specialized generic type metadata accessor for " Node 0
  | KMetadataInstantiationCache =>
      printPrefixed "metadata instantiation cache for " Node 0
  | KNoncanonicalSpecializedGenericTypeMetadata =>
      printPrefixed "noncanonical specialized generic type metadata for "
                    Node 0
  | KNoncanonicalSpecializedGenericTypeMetadataCache =>
      printPrefixed
        "cache variable for noncanonical specialized generic type metadata for "
        Node 0
  | (KGlobalVariableOnceToken | KGlobalVariableOnceFunction) as kind =>
      emit (match kind with
            | KGlobalVariableOnceToken => "one-time initialization token for "
            | _ => "one-time initialization function for "
            end) ;;
      c <-! getChild Node 0 ;;
      _ <-! printContext c ;;
      printChild Node 1 ;;
      done
  | KGlobalVariableOnceDeclList =>
      (if getNumChildren Node =? 1 then printChild Node 0
       else
         emit "(" ;;
         printSeparated ", " true (getChildren Node) ;;
         emit ")") ;;
      done
  | KObjCAsyncCompletionHandlerImpl =>
      printPrefixed "@objc completion handler block implementation for "
                    Node 0
  | KCanonicalPrespecializedGenericTypeCachingOnceToken =>
      printPrefixed
        "flag for loading of canonical specialized generic type metadata for "
        Node 0
  end.

End Dispatch.

(** [NodePrinter::print].  Every call of the C++ function takes a frame of
    the stack; [stack] bounds the number of frames that are live at once. *)
Fixpoint print (stack : nat) (Node : Node) (asPrefixContext : bool)
    : M NodePointer :=
  match stack with
  | 0 => fail StackExhausted
  | S stack' => printNode (print stack') Node asPrefixContext
  end.

Definition setValid : M unit :=
  fun st => Ok (tt, mkNodePrinter (Printer st)
                                  (SpecializationPrefixPrinted st) true).

Definition getIsValid : M bool := fun st => Ok (isValid st, st).

(** [std::move(Printer).str()]: the buffer is moved out of the printer, which
    is left with an empty one. *)
Definition takePrinter : M string :=
  fun st => Ok (Printer st,
                mkNodePrinter "" (SpecializationPrefixPrinted st) (isValid st)).

(** [NodePrinter::printRoot], on a printer in any state. *)
Definition printRoot (stack : nat) (root : Node) : M string :=
  setValid ;;
  print stack root false ;;
  valid <- getIsValid ;;
  if valid then takePrinter else ret "".

End NodePrinter.

(** The printer as its constructor and the initializers of its members leave
    it. *)
Definition newNodePrinter : NodePrinter := mkNodePrinter "" false true.

(** [Demangle::nodeToString]: the public entry point.  The stack is taken to
    be as deep as the tree is high, which [print] never exceeds. *)
Definition nodeToString (E : Externals) (root : NodePointer)
    (options : DemangleOptions) : Res string :=
  match root with
  | None => Ok ""
  | Some r =>
      match printRoot E options (depth r) r newNodePrinter with
      | Ok (s, _) => Ok s
      | Stop e => Stop e
      end
  end.

(** * Properties *)

(** ** Nodes and their height *)

Lemma depth_pos (n : Node) : 0 < depth n.
Proof. destruct n; simpl; lia. Qed.

Lemma depth_children (n c : Node) : In c (getChildren n) -> depth c < depth n.
Proof.
  destruct n as [k t i cs]; simpl.
  induction cs as [| x cs IH]; simpl; [contradiction |].
  intros [-> | Hin]; [lia |].
  specialize (IH Hin). lia.
Qed.

Lemma getChild_In (n c : Node) (i : nat) :
  getChild n i = Ok c -> In c (getChildren n).
Proof.
  unfold getChild. destruct (nth_error (getChildren n) i) eqn:H; [| discriminate].
  intros [= <-]. eapply nth_error_In; eassumption.
Qed.

Lemma getChild_depth (n c : Node) (i : nat) :
  getChild n i = Ok c -> depth c < depth n.
Proof. intros H. apply depth_children. eapply getChild_In; eassumption. Qed.

Lemma getLastChild_depth (n c : Node) :
  getLastChild n = Ok c -> depth c < depth n.
Proof.
  unfold getLastChild. destruct (getNumChildren n); [discriminate |].
  apply getChild_depth.
Qed.

Lemma getChildBefore_depth (n c : Node) (i : nat) :
  getChildBefore n i = Ok c -> depth c < depth n.
Proof. destruct i; simpl; [discriminate | apply getChild_depth]. Qed.

Lemma getChildIf_In (n c : Node) (k : Kind) :
  getChildIf n k = Some c -> In c (getChildren n).
Proof. unfold getChildIf. intros H. apply find_some in H. tauto. Qed.

Lemma getChildIf_depth (n c : Node) (k : Kind) :
  getChildIf n k = Some c -> depth c < depth n.
Proof. intros H. apply depth_children. eapply getChildIf_In; eassumption. Qed.

Lemma children_depth (n : Node) (k : nat) :
  depth n <= S k -> Forall (fun c => depth c <= k) (getChildren n).
Proof.
  intros H. apply Forall_forall. intros c Hc.
  apply depth_children in Hc. lia.
Qed.

Lemma Forall_tl {A} (P : A -> Prop) (l : list A) : Forall P l -> Forall P (tl l).
Proof. destruct 1; simpl; auto. Qed.

Lemma Forall_firstn {A} (P : A -> Prop) (n : nat) (l : list A) :
  Forall P l -> Forall P (firstn n l).
Proof.
  intros H. revert n. induction H as [| x l Hx Hl IH]; intros [| n]; simpl;
    constructor; auto.
Qed.

(** Induction on nodes, with the hypothesis for every child. *)
Lemma Node_induction (P : Node -> Prop) :
  (forall k t i cs, Forall P cs -> P (mkNode k t i cs)) ->
  forall n, P n.
Proof.
  intros step.
  fix IH 1. intros [k t i cs]. apply step.
  induction cs as [| c cs IHcs]; constructor; [apply IH | exact IHcs].
Qed.

Lemma skipDependentGenericTypes_depth_bounded (d : nat) :
  forall t t', depth t <= d ->
    skipDependentGenericTypes t = Ok t' -> depth t' <= depth t.
Proof.
  induction d as [| d IH]; intros t t' Hd.
  - pose proof (depth_pos t). lia.
  - destruct t as [k tx ix cs].
    destruct k; try (intros [= <-]; lia).
    destruct cs as [| c0 [| [k1 t1 i1 [| g gs]] cs]]; try discriminate.
    cbn [skipDependentGenericTypes]. intros H.
    assert (H1 : depth (mkNode k1 t1 i1 (g :: gs))
                 < depth (mkNode KDependentGenericType tx ix
                            (c0 :: mkNode k1 t1 i1 (g :: gs) :: cs))).
    { apply depth_children. simpl. auto. }
    assert (H2 : depth g < depth (mkNode k1 t1 i1 (g :: gs))).
    { apply depth_children. simpl. auto. }
    assert (H3 : depth t' <= depth g) by (apply IH; [lia | exact H]).
    lia.
Qed.

Lemma skipDependentGenericTypes_depth (t t' : Node) :
  skipDependentGenericTypes t = Ok t' -> depth t' <= depth t.
Proof. apply (skipDependentGenericTypes_depth_bounded (depth t)). lia. Qed.

(** The height of the node behind a pointer; a null pointer has none. *)
Definition pdepth (p : NodePointer) : nat :=
  match p with
  | Some n => depth n
  | None => 0
  end.

Lemma getChildIf_pdepth (n : Node) (k : Kind) :
  pdepth (getChildIf n k) < depth n.
Proof.
  destruct (getChildIf n k) eqn:H; simpl;
    [eapply getChildIf_depth; eassumption | apply depth_pos].
Qed.

(** ** What a run of the printer never undoes

    The buffer only grows at its end, a cleared validity flag stays cleared
    and a set one-shot flag stays set. *)

Record extends (st st' : NodePrinter) : Prop := {
  extends_buffer : exists out, Printer st' = Printer st ++ out;
  extends_invalid : isValid st = false -> isValid st' = false;
  extends_printed :
    SpecializationPrefixPrinted st = true ->
    SpecializationPrefixPrinted st' = true
}.

Lemma extends_refl (st : NodePrinter) : extends st st.
Proof.
  split; auto. exists "". 
  induction (Printer st) as [| c s IH]; simpl; congruence.
Qed.

Lemma append_assoc (a b c : string) : (a ++ b) ++ c = a ++ (b ++ c).
Proof. induction a as [| x a IH]; simpl; congruence. Qed.

Lemma append_empty_r (a : string) : a ++ "" = a.
Proof. induction a as [| x a IH]; simpl; congruence. Qed.

Lemma extends_trans (a b c : NodePrinter) :
  extends a b -> extends b c -> extends a c.
Proof.
  intros [[o1 H1] V1 P1] [[o2 H2] V2 P2]. split; auto.
  exists (o1 ++ o2). rewrite H2, H1. apply append_assoc.
Qed.

(** [wp m Q st]: the run of [m] from [st] does not exhaust the stack, and if
    it comes to its end, its result and final state satisfy [Q]. *)
Definition wp {A} (m : M A) (Q : A -> NodePrinter -> Prop) (st : NodePrinter)
    : Prop :=
  match m st with
  | Ok (a, st') => Q a st'
  | Stop StackExhausted => False
  | Stop _ => True
  end.

(** [safe m Q]: from every state, [m] does not exhaust the stack, extends the
    state, and returns a result that satisfies [Q]. *)
Definition safe {A} (m : M A) (Q : A -> Prop) : Prop :=
  forall st, wp m (fun a st' => extends st st' /\ Q a) st.

Lemma wp_ret {A} (a : A) Q st : Q a st -> wp (ret a) Q st.
Proof. exact (fun H => H). Qed.

Lemma wp_bind {A B} (m : M A) (f : A -> M B) Q st :
  wp m (fun a st' => wp (f a) Q st') st -> wp (bind m f) Q st.
Proof.
  unfold wp, bind. destruct (m st) as [[a st'] | e]; auto.
Qed.

(** The functions that only read the tree stop on a contract violation,
    never for want of stack. *)
Definition grounded {A} (r : Res A) : Prop := r <> Stop StackExhausted.

Lemma grounded_Ok {A} (a : A) : grounded (Ok a).
Proof. discriminate. Qed.

Lemma grounded_InvalidAccess {A} : grounded (@Stop A InvalidAccess).
Proof. discriminate. Qed.

Lemma grounded_bindR {A B} (r : Res A) (f : A -> Res B) :
  grounded r -> (forall a, grounded (f a)) -> grounded (bindR r f).
Proof.
  intros Hr Hf. destruct r as [a | e]; simpl; [apply Hf |].
  unfold grounded in *. congruence.
Qed.

Lemma grounded_getChild n i : grounded (getChild n i).
Proof. unfold getChild. destruct (nth_error _ _); discriminate. Qed.

Lemma grounded_getFirstChild n : grounded (getFirstChild n).
Proof. apply grounded_getChild. Qed.

Lemma grounded_getLastChild n : grounded (getLastChild n).
Proof.
  unfold getLastChild. destruct (getNumChildren n);
    [discriminate | apply grounded_getChild].
Qed.

Lemma grounded_getChildBefore n i : grounded (getChildBefore n i).
Proof. destruct i; [discriminate | apply grounded_getChild]. Qed.

Lemma grounded_getText n : grounded (getText n).
Proof. destruct n as [k [t |] i cs]; discriminate. Qed.

Lemma grounded_getIndex n : grounded (getIndex n).
Proof. destruct n as [k t [i |] cs]; discriminate. Qed.

Create HintDb grounded.

#[export] Hint Resolve grounded_Ok grounded_InvalidAccess grounded_getChild
  grounded_getFirstChild grounded_getLastChild grounded_getChildBefore
  grounded_getText grounded_getIndex : grounded.

Ltac grounded_cases :=
  first
    [ solve [auto with grounded]
    | apply grounded_bindR; [grounded_cases | intros ?; grounded_cases]
    | match goal with
      | |- grounded (if ?b then _ else _) => destruct b; grounded_cases
      | |- grounded (match ?x with _ => _ end) => destruct x; grounded_cases
      end ].

Lemma grounded_isSwiftModule E n : grounded (isSwiftModule E n).
Proof. unfold isSwiftModule. grounded_cases. Qed.

Lemma grounded_isIdentifier n s : grounded (isIdentifier n s).
Proof. unfold isIdentifier. grounded_cases. Qed.

Lemma grounded_printContext E O n : grounded (printContext E O n).
Proof. unfold printContext. grounded_cases. Qed.

Lemma grounded_isSimpleType n : grounded (isSimpleType n).
Proof. unfold isSimpleType. grounded_cases. Qed.

#[export] Hint Resolve grounded_isSwiftModule grounded_isIdentifier
  grounded_printContext grounded_isSimpleType : grounded.

Lemma grounded_needSpaceBeforeType n : grounded (needSpaceBeforeType n).
Proof.
  induction n as [k t i cs IH] using Node_induction.
  destruct k; try discriminate.
  destruct cs as [| c cs]; [discriminate |].
  simpl. inversion IH; assumption.
Qed.

Lemma grounded_skipDependentGenericTypes_bounded d :
  forall t, depth t <= d -> grounded (skipDependentGenericTypes t).
Proof.
  induction d as [| d IH]; intros t Hd.
  - pose proof (depth_pos t). lia.
  - destruct t as [k tx ix cs].
    destruct k; try discriminate.
    destruct cs as [| c0 [| [k1 t1 i1 [| g gs]] cs]]; try discriminate.
    cbn [skipDependentGenericTypes]. apply IH.
    assert (H1 : depth (mkNode k1 t1 i1 (g :: gs))
                 < depth (mkNode KDependentGenericType tx ix
                            (c0 :: mkNode k1 t1 i1 (g :: gs) :: cs))).
    { apply depth_children. simpl. auto. }
    assert (H2 : depth g < depth (mkNode k1 t1 i1 (g :: gs))).
    { apply depth_children. simpl. auto. }
    lia.
Qed.

Lemma grounded_skipDependentGenericTypes t :
  grounded (skipDependentGenericTypes t).
Proof. apply (grounded_skipDependentGenericTypes_bounded (depth t)). lia. Qed.

Lemma grounded_findSugar E n : grounded (findSugar E n).
Proof.
  induction n as [k t i cs IH] using Node_induction.
  assert (Hrest : forall n',
    grounded
      (if negb (getNumChildren n' =? 2) then Ok SugarNone
       else if negb (isKind n' KBoundGenericEnum) &&
               negb (isKind n' KBoundGenericStructure) then Ok SugarNone
       else
         bindR (getChild n' 0) (fun base =>
         bindR (getChild base 0) (fun unboundType =>
         bindR (getChild n' 1) (fun typeArgs =>
           let isSugar (name : string) (args : nat) : Res bool :=
             bindR (getChild unboundType 1) (fun ident =>
             bindR (isIdentifier ident name) (fun named =>
               if named && (getNumChildren typeArgs =? args)
               then bindR (getChild unboundType 0)
                          (fun module => isSwiftModule E module)
               else Ok false)) in
           if isKind n' KBoundGenericEnum then
             bindR (isSugar "Optional" 1) (fun isOptional =>
             if isOptional then Ok SugarOptional else
             bindR (isSugar "ImplicitlyUnwrappedOptional" 1) (fun isIUO =>
             if isIUO then Ok SugarImplicitlyUnwrappedOptional
             else Ok SugarNone))
           else
             bindR (isSugar "Array" 1) (fun isArray =>
             if isArray then Ok SugarArray else
             bindR (isSugar "Dictionary" 2) (fun isDictionary =>
             if isDictionary then Ok SugarDictionary
             else Ok SugarNone))))))).
  { intros n'. cbv zeta. grounded_cases. }
  destruct k; try apply Hrest.
  destruct cs as [| c [| c' cs]]; try apply Hrest.
  simpl. inversion IH; assumption.
Qed.

#[export] Hint Resolve grounded_needSpaceBeforeType
  grounded_skipDependentGenericTypes grounded_findSugar : grounded.

Lemma wp_lift {A} (r : Res A) Q st :
  grounded r -> (forall a, r = Ok a -> Q a st) -> wp (lift r) Q st.
Proof.
  unfold wp, lift, grounded. destruct r as [a | e]; auto.
  destruct e; congruence || auto.
Qed.

Lemma wp_fail {A} (e : Failure) (Q : A -> NodePrinter -> Prop) st :
  e <> StackExhausted -> wp (fail e) Q st.
Proof. unfold wp, fail. destruct e; congruence || auto. Qed.

Lemma wp_conseq {A} (m : M A) (P : A -> Prop) Q st :
  safe m P ->
  (forall a st', extends st st' -> P a -> Q a st') ->
  wp m Q st.
Proof.
  unfold safe, wp. intros H HQ. specialize (H st).
  destruct (m st) as [[a st'] | e]; [| exact H].
  destruct H; auto.
Qed.

Lemma safe_emit s : safe (emit s) (fun _ => True).
Proof.
  intros st. unfold wp, emit. split; [| exact I].
  split; simpl; auto. eauto.
Qed.

Lemma safe_setInvalid : safe setInvalid (fun _ => True).
Proof.
  intros st. unfold wp, setInvalid. split; [| exact I].
  split; simpl; auto. exists "". symmetry. apply append_empty_r.
Qed.

Lemma safe_setSpecializationPrefixPrinted :
  safe setSpecializationPrefixPrinted (fun _ => True).
Proof.
  intros st. unfold wp, setSpecializationPrefixPrinted. split; [| exact I].
  split; simpl; auto. exists "". symmetry. apply append_empty_r.
Qed.

Lemma safe_getSize : safe getSize (fun _ => True).
Proof. intros st. unfold wp, getSize. split; [apply extends_refl | exact I]. Qed.

Lemma safe_getSpecializationPrefixPrinted :
  safe getSpecializationPrefixPrinted (fun _ => True).
Proof.
  intros st. unfold wp, getSpecializationPrefixPrinted.
  split; [apply extends_refl | exact I].
Qed.

Lemma safe_assert E b : safe (assert E b) (fun _ => True).
Proof.
  intros st. unfold wp, assert.
  destruct (assertsEnabled E && negb b); simpl;
    [exact I | split; [apply extends_refl | exact I]].
Qed.

Lemma wp_block {A B} (P : A -> Prop) (m : M A) (f : A -> M B) Q st :
  safe m P ->
  (forall a st', extends st st' -> P a -> wp (f a) Q st') ->
  wp (bind m f) Q st.
Proof.
  intros Hm Hf. apply wp_bind. eapply wp_conseq; [exact Hm | exact Hf].
Qed.

Create HintDb safe.

#[export] Hint Resolve safe_emit safe_setInvalid
  safe_setSpecializationPrefixPrinted safe_getSize
  safe_getSpecializationPrefixPrinted safe_assert : safe.
Ltac depth_lia := cbn [pdepth fst snd] in *; lia.

#[export] Hint Extern 1 (pdepth (getChildIf ?n ?K) <= _) =>
  pose proof (getChildIf_pdepth n K); lia : safe.
#[export] Hint Extern 2 (_ <= _) => depth_lia : safe.
#[export] Hint Extern 2 (_ < _) => depth_lia : safe.
#[export] Hint Extern 3 (Forall _ (getChildren _)) =>
  apply children_depth; depth_lia : safe.
#[export] Hint Extern 3 (Forall _ (tl _)) => apply Forall_tl : safe.
#[export] Hint Extern 3 (Forall _ (firstn _ _)) => apply Forall_firstn : safe.

(** Turn what an accessor returned into a bound on its height. *)
Ltac note_depth H :=
  lazymatch type of H with
  | getChild _ _ = Ok _ => apply getChild_depth in H
  | getFirstChild _ = Ok _ => apply getChild_depth in H
  | getLastChild _ = Ok _ => apply getLastChild_depth in H
  | getChildBefore _ _ = Ok _ => apply getChildBefore_depth in H
  | getChildIf _ _ = Some _ => apply getChildIf_depth in H
  | skipDependentGenericTypes _ = Ok _ =>
      apply skipDependentGenericTypes_depth in H
  | _ => idtac
  end.

(** Keep one fact [extends st0 st] about the current state. *)
Ltac chain_extends :=
  match goal with
  | H0 : extends ?s0 ?s1, H1 : extends ?s1 ?s2 |- _ =>
      let H := fresh "Hext" in
      pose proof (extends_trans _ _ _ H0 H1) as H; clear H0 H1
  end.

Ltac wp_finish :=
  cbv beta;
  first
    [ split; [assumption | first [exact I | solve [depth_lia]
                                 | solve [repeat split; depth_lia]
                                 | solve [auto with safe]
                                 | solve [intros; discriminate] ] ]
    | match goal with
      | |- ?G => fail 1000 "the run ends with an open obligation:" G
      end ].

Ltac is_block m :=
  lazymatch m with
  | (if _ then _ else _) => idtac
  | (match _ with _ => _ end) => idtac
  end.

Ltac plain_type A :=
  lazymatch A with
  | unit => idtac
  | bool => idtac
  | nat => idtac
  | string => idtac
  | Z => idtac
  | N => idtac
  | ImplState => idtac
  | TypePrinting => idtac
  end.

(** One pass over a computation.  A branching computation whose result is
    plain data is verified on its own; at one whose result holds nodes,
    [on_block] decides. *)
Ltac wp_core on_block :=
  cbv beta iota zeta delta [when done];
  lazymatch goal with
  | |- wp (@bind ?A _ ?m _) _ ?st =>
      tryif is_block m then
        tryif plain_type A then
          (apply (wp_block (fun _ : A => True));
           [ let st' := fresh "st" in
             intros st'; pose proof (extends_refl st'); wp_core on_block
           | let a := fresh "a" in
             intros a ? ? _; chain_extends; wp_core on_block ])
        else on_block
      else (apply wp_bind; wp_core on_block)
  | |- wp (ret _) _ _ => apply wp_ret; wp_core on_block
  | |- wp (lift _) _ _ =>
      apply wp_lift;
      [ solve [auto with grounded]
      | let a := fresh "a" in
        let H := fresh "Ha" in
        intros a H; note_depth H; wp_core on_block ]
  | |- wp (fail _) _ _ => apply wp_fail; discriminate
  | |- wp (printer_unreachable _) _ _ => apply wp_fail; discriminate
  | |- wp (if ?b then _ else _) _ _ =>
      let Hb := fresh "Hb" in destruct b eqn:Hb; wp_core on_block
  | |- wp (match ?x with _ => _ end) _ _ =>
      let Hx := fresh "Hx" in
      destruct x eqn:Hx; note_depth Hx; wp_core on_block
  | |- wp ?m _ _ =>
      eapply wp_conseq;
      [ first [ solve [eauto with safe]
              | fail 1000 "no safety lemma applies to" m ]
      | let a := fresh "a" in
        intros a ? ? ?; chain_extends; wp_core on_block ]
  | |- _ => wp_finish
  end.

(** Follow both branches of such a computation into what comes after it. *)
Ltac wp_go := wp_core ltac:(idtac; apply wp_bind; wp_go).

(** Stop there, for an intermediate assertion. *)
Ltac wp_stop := wp_core ltac:(idtac).

Tactic Notation "wp_assert" constr(P) :=
  apply (wp_block P);
  [ let st' := fresh "st" in
    intros st'; pose proof (extends_refl st'); wp_go
  | let a := fresh "a" in
    intros a ? ? ?; chain_extends; wp_stop ].

Ltac safe_start :=
  let st := fresh "st" in
  intros st; pose proof (extends_refl st).

Section Safety.

Variable E : Externals.
Variable Options : DemangleOptions.
Variable print : Node -> bool -> M NodePointer.
Variable k : nat.
Hypothesis print_safe :
  forall c b, depth c <= k -> safe (print c b) (fun r => pdepth r <= depth c).

Lemma safe_printPointer p :
  pdepth p <= k -> safe (printPointer print p) (fun _ => True).
Proof. intros Hp. safe_start. unfold printPointer. wp_go. Qed.

Lemma safe_printChild Node i :
  depth Node <= S k -> safe (printChild print Node i) (fun _ => True).
Proof. intros Hd. safe_start. unfold printChild. wp_go. Qed.

Lemma safe_printChildrenRange cs sep :
  Forall (fun c => depth c <= k) cs ->
  safe (printChildrenRange print cs sep) (fun _ => True).
Proof.
  induction 1 as [| c cs Hc Hcs IH]; safe_start; simpl; wp_go.
Qed.

Hint Resolve safe_printPointer safe_printChild safe_printChildrenRange : safe.

Lemma safe_printChildren p sep :
  pdepth p <= S k -> safe (printChildren print p sep) (fun _ => True).
Proof. intros Hp. safe_start. unfold printChildren. wp_go. Qed.

Hint Resolve safe_printChildren : safe.

Lemma safe_printBoundGenericNoSugar Node :
  depth Node <= S k ->
  safe (printBoundGenericNoSugar print Node) (fun _ => True).
Proof. intros Hd. safe_start. unfold printBoundGenericNoSugar. wp_go. Qed.

Lemma safe_printOptionalIndex node :
  safe (printOptionalIndex E node) (fun _ => True).
Proof. safe_start. unfold printOptionalIndex. wp_go. Qed.

Lemma safe_printWithParens type :
  depth type <= k -> safe (printWithParens print type) (fun _ => True).
Proof. intros Hd. safe_start. unfold printWithParens. wp_go. Qed.

Hint Resolve safe_printBoundGenericNoSugar safe_printOptionalIndex
  safe_printWithParens : safe.

Lemma safe_printBoundGeneric Node :
  depth Node <= S k ->
  safe (printBoundGeneric E Options print Node) (fun _ => True).
Proof. intros Hd. safe_start. unfold printBoundGeneric. wp_go. Qed.

Hint Resolve safe_printBoundGeneric : safe.

Lemma safe_getLabelFor LabelList Index :
  safe (getLabelFor E LabelList Index) (fun _ => True).
Proof. safe_start. unfold getLabelFor. wp_go. Qed.

Hint Resolve safe_getLabelFor : safe.

Lemma safe_printParameterList LabelList hasLabels showTypes Params :
  Forall (fun c => depth c <= k) Params ->
  forall ParamIndex,
    safe (printParameterList E print LabelList hasLabels showTypes Params
                             ParamIndex)
         (fun _ => True).
Proof.
  induction 1 as [| c cs Hc Hcs IH]; intros ParamIndex; safe_start; simpl;
    wp_go.
Qed.

Hint Resolve safe_printParameterList : safe.

Lemma safe_printFunctionParameters LabelList ParameterType showTypes :
  depth ParameterType <= S k ->
  safe (printFunctionParameters E print LabelList ParameterType showTypes)
       (fun _ => True).
Proof. intros Hd. safe_start. unfold printFunctionParameters. wp_go. Qed.

Lemma safe_printConventionWithMangledCType node convention :
  depth node <= S k ->
  safe (printConventionWithMangledCType print node convention)
       (fun _ => True).
Proof.
  intros Hd. safe_start. unfold printConventionWithMangledCType. wp_go.
Qed.

Hint Resolve safe_printFunctionParameters
  safe_printConventionWithMangledCType : safe.

Lemma safe_printFunctionType LabelList node :
  depth node <= S k ->
  safe (printFunctionType E Options print LabelList node) (fun _ => True).
Proof. intros Hd. safe_start. unfold printFunctionType. wp_go. Qed.

Hint Resolve safe_printFunctionType : safe.

Lemma safe_transitionStep patternSubs curState :
  pdepth patternSubs <= S k ->
  safe (transitionStep print patternSubs curState) (fun _ => True).
Proof. intros Hd. safe_start. unfold transitionStep. wp_go. Qed.

Hint Resolve safe_transitionStep : safe.

Lemma safe_transitionLoop rounds patternSubs newState :
  pdepth patternSubs <= S k ->
  forall curState,
    safe (transitionLoop print rounds patternSubs curState newState)
         (fun _ => True).
Proof.
  intros Hd. induction rounds as [| rounds IH]; intros curState; safe_start;
    simpl; wp_go.
Qed.

Hint Resolve safe_transitionLoop : safe.

Lemma safe_transitionTo patternSubs curState newState :
  pdepth patternSubs <= S k ->
  safe (transitionTo E print patternSubs curState newState) (fun _ => True).
Proof. intros Hd. safe_start. unfold transitionTo. wp_go. Qed.

Hint Resolve safe_transitionTo : safe.

Lemma safe_printImplFunctionChildren cs :
  Forall (fun c => depth c <= k) cs ->
  forall patternSubs invocationSubs curState,
    pdepth patternSubs <= S k -> pdepth invocationSubs <= S k ->
    safe (printImplFunctionChildren E print cs patternSubs invocationSubs
                                    curState)
         (fun r => pdepth (fst (fst r)) <= S k /\ pdepth (snd (fst r)) <= S k).
Proof.
  induction 1 as [| c cs Hc Hcs IH]; intros pat inv cur Hpat Hinv; safe_start;
    simpl; wp_go.
Qed.

Hint Resolve safe_printImplFunctionChildren : safe.

Lemma safe_printImplFunctionType fn :
  depth fn <= S k -> safe (printImplFunctionType E print fn) (fun _ => True).
Proof. intros Hd. safe_start. unfold printImplFunctionType. wp_go. Qed.

Hint Resolve safe_printImplFunctionType : safe.

Lemma safe_printClosureArgumentTypes rounds Node :
  depth Node <= S k ->
  forall Idx,
    safe (printClosureArgumentTypes print rounds Node Idx) (fun _ => True).
Proof.
  intros Hd. induction rounds as [| rounds IH]; intros Idx; safe_start;
    simpl; wp_go.
Qed.

Hint Resolve safe_printClosureArgumentTypes : safe.

Lemma safe_printFunctionSigSpecializationParamsFrom rounds Node :
  depth Node <= S k ->
  forall Idx,
    safe (printFunctionSigSpecializationParamsFrom E print rounds Node Idx)
         (fun _ => True).
Proof.
  intros Hd. induction rounds as [| rounds IH]; intros Idx; safe_start;
    simpl; wp_go.
Qed.

Hint Resolve safe_printFunctionSigSpecializationParamsFrom : safe.

Lemma safe_printFunctionSigSpecializationParams Node :
  depth Node <= S k ->
  safe (printFunctionSigSpecializationParams E print Node) (fun _ => True).
Proof.
  intros Hd. unfold printFunctionSigSpecializationParams. auto with safe.
Qed.

Hint Resolve safe_printFunctionSigSpecializationParams : safe.

Lemma safe_printSpecializationChildren cs ParamPrefix :
  Forall (fun c => depth c <= k) cs ->
  forall Separator argNum,
    safe (printSpecializationChildren E print cs ParamPrefix Separator argNum)
         (fun _ => True).
Proof.
  induction 1 as [| c cs Hc Hcs IH]; intros Separator argNum; safe_start;
    simpl; wp_go.
Qed.

Hint Resolve safe_printSpecializationChildren : safe.

Lemma safe_printSpecializationPrefix node Description ParamPrefix :
  depth node <= S k ->
  safe (printSpecializationPrefix E Options print node Description ParamPrefix)
       (fun _ => True).
Proof. intros Hd. safe_start. unfold printSpecializationPrefix. wp_go. Qed.

Hint Resolve safe_printSpecializationPrefix : safe.

Lemma safe_printEntityType Entity type genericFunctionTypeList :
  depth Entity <= S k -> depth type <= k ->
  pdepth genericFunctionTypeList <= S k ->
  safe (printEntityType E Options print Entity type genericFunctionTypeList)
       (fun _ => True).
Proof.
  intros Hd Ht Hg. safe_start. unfold printEntityType. wp_go.
Qed.

Hint Resolve safe_printEntityType : safe.

Lemma safe_printEntity Entity asPrefixContext TypePr hasName ExtraName
    ExtraIndex OverwriteName :
  depth Entity <= S k ->
  safe (printEntity E Options print Entity asPrefixContext TypePr hasName
                    ExtraName ExtraIndex OverwriteName)
       (fun r => pdepth r <= depth Entity).
Proof.
  intros Hd. safe_start. unfold printEntity.
  wp_assert (fun r : NodePointer * Node =>
               pdepth (fst r) <= S k /\ depth (snd r) <= depth Entity).
  match goal with
  | Hshown : printContext _ _ ?Context = Ok _ |- _ =>
      wp_assert (fun r : NodePointer => pdepth r <= depth Context)
  end.
Qed.

Hint Resolve safe_printEntity : safe.

Lemma safe_printAbstractStorage Node asPrefixContent ExtraName :
  depth Node <= S k ->
  safe (printAbstractStorage E Options print Node asPrefixContent ExtraName)
       (fun r => pdepth r <= depth Node).
Proof.
  intros Hd. safe_start. unfold printAbstractStorage.
  destruct (getKind Node); try (apply wp_fail; discriminate);
    (eapply wp_conseq; [solve [eauto with safe] | intros; chain_extends; wp_finish]).
Qed.

Lemma safe_printSeparated sep cs :
  Forall (fun c => depth c <= k) cs ->
  forall isFirst, safe (printSeparated print sep isFirst cs) (fun _ => True).
Proof.
  induction 1 as [| c cs Hc Hcs IH]; intros isFirst; safe_start; simpl; wp_go.
Qed.

Lemma safe_printWithAnd cs :
  Forall (fun c => depth c <= k) cs ->
  forall i, safe (printWithAnd print i cs) (fun _ => True).
Proof.
  induction 1 as [| c cs Hc Hcs IH]; intros i; safe_start; simpl; wp_go.
Qed.

Lemma safe_printKeyPathChildren cs :
  Forall (fun c => depth c <= k) cs ->
  safe (printKeyPathChildren print cs) (fun _ => True).
Proof.
  induction 1 as [| c cs Hc Hcs IH]; safe_start; simpl; wp_go.
Qed.

Lemma safe_printBoxFields cs :
  Forall (fun c => depth c <= k) cs ->
  forall isFirst, safe (printBoxFields print isFirst cs) (fun _ => True).
Proof.
  induction 1 as [| c cs Hc Hcs IH]; intros isFirst; safe_start; simpl; wp_go.
Qed.

Lemma safe_printGenericParameters rounds depth count :
  forall index,
    safe (printGenericParameters Options rounds depth index count)
         (fun _ => True).
Proof.
  induction rounds as [| rounds IH]; intros index; safe_start; simpl; wp_go.
Qed.

Hint Resolve safe_printAbstractStorage safe_printSeparated safe_printWithAnd
  safe_printKeyPathChildren safe_printBoxFields safe_printGenericParameters
  : safe.

Lemma safe_printGenericParameterLists cs :
  Forall (fun c => depth c <= k) cs ->
  forall d,
    safe (printGenericParameterLists Options cs d)
         (fun rest => Forall (fun c => depth c <= k) rest).
Proof.
  induction 1 as [| c cs Hc Hcs IH]; intros d; safe_start; simpl; wp_go.
Qed.

Lemma safe_printPrefixed phrase Node i :
  depth Node <= S k ->
  safe (printPrefixed print phrase Node i) (fun r => pdepth r <= depth Node).
Proof. intros Hd. safe_start. unfold printPrefixed. wp_go. Qed.

Lemma safe_printNodeText Node : safe (printNodeText Node) (fun _ => True).
Proof. safe_start. unfold printNodeText. wp_go. Qed.

Lemma safe_printNodeIndex Node : safe (printNodeIndex Node) (fun _ => True).
Proof. safe_start. unfold printNodeIndex. wp_go. Qed.

Lemma safe_printDemangled Node : safe (printDemangled E Node) (fun _ => True).
Proof. safe_start. unfold printDemangled. wp_go. Qed.

Lemma safe_printParamKind Node :
  safe (printParamKind E Node) (fun r => pdepth r <= depth Node).
Proof. safe_start. unfold printParamKind. wp_go. Qed.

Hint Resolve safe_printGenericParameterLists safe_printPrefixed
  safe_printNodeText safe_printNodeIndex safe_printDemangled
  safe_printParamKind : safe.

(** The body of [print] is safe on a node one level higher than the nodes
    on which its recursive calls are. *)
Lemma safe_printNode Node asPrefixContext :
  depth Node <= S k ->
  safe (printNode E Options print Node asPrefixContext)
       (fun r => pdepth r <= depth Node).
Proof.
  intros Hd. safe_start. unfold printNode.
  destruct (getKind Node) eqn:Hkind; wp_go.
Qed.

End Safety.

(** ** The printer on a whole tree *)

(** With a stack as deep as the tree is high, [print] never runs out of
    stack, only extends the state, and returns a pointer into the tree it
    was given. *)
Theorem print_safe (E : Externals) (Options : DemangleOptions) :
  forall stack Node asPrefixContext,
    depth Node <= stack ->
    safe (print E Options stack Node asPrefixContext)
         (fun r => pdepth r <= depth Node).
Proof.
  induction stack as [| stack IH]; intros Node b Hd.
  - pose proof (depth_pos Node). lia.
  - simpl. apply safe_printNode with (k := stack); assumption.
Qed.

Lemma print_extends E Options stack Node b st r st' :
  depth Node <= stack ->
  print E Options stack Node b st = Ok (r, st') ->
  extends st st'.
Proof.
  intros Hd Hrun. pose proof (print_safe E Options stack Node b Hd st) as H.
  unfold wp in H. rewrite Hrun in H. tauto.
Qed.


(** ** The string-quoting routine *)

(** The escape of one byte, in the words of the specification: the six
    two-character escapes, [\xHH] with upper-case digits for every other byte
    below 0x20 or at or above 0x7F, and the byte itself otherwise. *)
Definition upperHexDigit (d : nat) : ascii :=
  nth d (list_ascii_of_string "0123456789ABCDEF") "0"%char.

Definition specEscape (C : ascii) : string :=
  let c := nat_of_ascii C in
  if c =? 92 then "\\"
  else if c =? 9 then "\t"
  else if c =? 10 then "\n"
  else if c =? 13 then "\r"
  else if c =? 34 then String "\" (String DQ "")
  else if c =? 0 then "\0"
  else if (c <? 32) || (127 <=? c)
  then String "\" (String "x" (String (upperHexDigit (c / 16))
                                 (String (upperHexDigit (c mod 16)) "")))
  else String C "".

Fixpoint specQuote (bytes : list ascii) : string :=
  match bytes with
  | [] => ""
  | C :: rest => specEscape C ++ specQuote rest
  end.

Lemma quoteChar_specEscape (C : ascii) : quoteChar C = specEscape C.
Proof.
  destruct C as [[] [] [] [] [] [] [] []]; vm_compute; reflexivity.
Qed.

Lemma quoteChars_specQuote (Value : string) :
  quoteChars Value = specQuote (list_ascii_of_string Value).
Proof.
  induction Value as [| C rest IH]; simpl; [reflexivity |].
  rewrite quoteChar_specEscape, IH. reflexivity.
Qed.

(** C4: the quoting routine is defined on every byte sequence; its output is
    the input between two double quotes with every byte replaced, in order
    and on its own, by its escape; and the three bytes tab, double quote,
    0x01 are rendered as a double quote, backslash t, backslash double quote,
    backslash x01 and a double quote. *)
Theorem QuotedString_spec :
  (forall Value : string,
     QuotedString Value =
     String DQ (specQuote (list_ascii_of_string Value) ++ String DQ ""))
  /\ QuotedString (String "009" (String DQ (String "001" ""))) =
     String DQ ("\t\" ++ String DQ ("\x01" ++ String DQ "")).
Proof.
  split; [| vm_compute; reflexivity].
  intros Value. unfold QuotedString. rewrite quoteChars_specQuote.
  reflexivity.
Qed.

(** ** The default generic-parameter namer *)

(** The number that a string of letters spells in base 26, least-significant
    letter first, with [A] for the digit 0. *)
Fixpoint base26Value (letters : string) : N :=
  match letters with
  | EmptyString => 0
  | String c rest => (N_of_ascii c - 65) + 26 * base26Value rest
  end%N.

Fixpoint allUpperCase (letters : string) : Prop :=
  match letters with
  | EmptyString => True
  | String c rest => (65 <= N_of_ascii c <= 90)%N /\ allUpperCase rest
  end.

Lemma N_of_ascii_letter (r : N) :
  (r < 26)%N -> N_of_ascii (ascii_of_N (65 + r)) = (65 + r)%N.
Proof. intros H. apply N_ascii_embedding. lia. Qed.

Lemma genericParameterLetters_step (index : N) :
  genericParameterLetters index =
  String (ascii_of_N (65 + index mod 26))
         (if N.eq_dec (index / 26) 0 then ""
          else genericParameterLetters (index / 26)).
Proof. apply genericParameterLetters_equation_1. Qed.

Lemma genericParameterLetters_spec (index : N) :
  let letters := genericParameterLetters index in
  allUpperCase letters /\
  base26Value letters = index /\
  (index < 26 ^ N.of_nat (String.length letters))%N /\
  (String.length letters = 1 \/
   (26 ^ N.of_nat (String.length letters - 1) <= index)%N).
Proof.
  induction index as [index IH] using (well_founded_induction N.lt_wf_0).
  rewrite genericParameterLetters_step. cbv zeta.
  assert (Hmod : (index mod 26 < 26)%N) by (apply N.mod_lt; lia).
  assert (Hdiv : index = (26 * (index / 26) + index mod 26)%N)
    by (apply N.div_mod; lia).
  destruct (N.eq_dec (index / 26) 0) as [Hz | Hnz].
  - cbn [allUpperCase base26Value String.length].
    rewrite N_of_ascii_letter by assumption.
    repeat split; lia.
  - assert (Hpos : (0 < index)%N).
    { destruct index; [contradiction Hnz; reflexivity | lia]. }
    assert (Hlt : (index / 26 < index)%N) by (apply N.div_lt; lia).
    destruct (IH _ Hlt) as (Hup & Hval & Hhi & Hlo).
    set (rest := genericParameterLetters (index / 26)) in *.
    cbn [allUpperCase base26Value String.length].
    rewrite N_of_ascii_letter by assumption.
    rewrite Hval.
    assert (Hlen : 0 < String.length rest).
    { destruct rest; simpl; [| lia].
      simpl in Hhi. lia. }
    replace (N.of_nat (S (String.length rest)))
      with (N.succ (N.of_nat (String.length rest))) by lia.
    rewrite N.pow_succ_r by lia.
    replace (S (String.length rest) - 1) with (String.length rest) by lia.
    assert (Hlo' : (26 ^ N.of_nat (String.length rest) <= 26 * (index / 26))%N).
    { destruct Hlo as [H1 | Hlo].
      - rewrite H1. change (26 ^ N.of_nat 1)%N with 26%N. clear - Hnz.
        generalize dependent (index / 26)%N. intros q Hq. lia.
      - replace (N.of_nat (String.length rest))
          with (N.succ (N.of_nat (String.length rest - 1))) by lia.
        rewrite N.pow_succ_r by lia.
        apply N.mul_le_mono_l. exact Hlo. }
    clear IH Hlo Hlen.
    generalize dependent (26 ^ N.of_nat (String.length rest))%N.
    intros X Hhi Hlo'.
    generalize dependent (index mod 26)%N. intros r Hmod Hdiv.
    generalize dependent (index / 26)%N. intros q Hnz Hlt Hval Hdiv Hhi Hlo'.
    split; [split; [lia | assumption] |].
    split; [lia |].
    split; [lia |].
    right. lia.
Qed.

(** C5: the name is the spelling of the index in base 26 with the letters
    [A] to [Z], least-significant letter first and with as many letters as
    the index has digits, followed by the depth in decimal exactly when the
    depth is not zero; an index below 26 gives the one letter ['A' + index],
    and the index 26 gives two letters, the first of which is [A]. *)
Theorem genericParameterName_spec (depth index : N) :
  exists letters : string,
    genericParameterName depth index =
      letters ++ (if (depth =? 0)%N then "" else decimal depth) /\
    allUpperCase letters /\
    base26Value letters = index /\
    (index < 26 ^ N.of_nat (String.length letters))%N /\
    (String.length letters = 1 \/
     (26 ^ N.of_nat (String.length letters - 1) <= index)%N) /\
    ((index < 26)%N -> letters = String (ascii_of_N (65 + index)) "") /\
    (index = 26%N -> letters = "AB").
Proof.
  exists (genericParameterLetters index).
  destruct (genericParameterLetters_spec index) as (Hup & Hval & Hhi & Hlo).
  split; [reflexivity |].
  do 4 (split; [assumption |]).
  split.
  - intros Hlt. rewrite genericParameterLetters_step.
    rewrite N.mod_small by assumption.
    rewrite N.div_small by assumption.
    reflexivity.
  - intros ->. reflexivity.
Qed.

(** ** Sample values

    An instance of the external parts, with the module names and keywords of
    the Swift headers and the enumerations numbered in the order of their
    declaration, and two option bundles, for the concrete runs below. *)

Definition swiftExternals : Externals := {|
  STDLIB_NAME := "Swift";
  MANGLING_MODULE_OBJC := "__C";
  LLDB_EXPRESSIONS_MODULE_NAME_PREFIX := "__lldb_expr_";
  keywordOf := fun r =>
    match r with
    | Weak => "weak"
    | Unowned => "unowned"
    | Unmanaged => "unowned(unsafe)"
    end;
  demangleSymbolAsString := fun _ => "";
  DirectnessValue := fun d =>
    match d with Direct => 0 | Indirect => 1 end%Z;
  ValueWitnessKindValue := fun k =>
    match k with
    | AllocateBuffer => 0
    | AssignWithCopy => 1
    | AssignWithTake => 2
    | DeallocateBuffer => 3
    | Destroy => 4
    | DestroyBuffer => 5
    | InitializeBufferWithCopyOfBuffer => 6
    | InitializeBufferWithCopy => 7
    | InitializeWithCopy => 8
    | InitializeBufferWithTake => 9
    | InitializeWithTake => 10
    | ProjectBuffer => 11
    | InitializeBufferWithTakeOfBuffer => 12
    | DestroyArray => 13
    | InitializeArrayWithCopy => 14
    | InitializeArrayWithTakeFrontToBack => 15
    | InitializeArrayWithTakeBackToFront => 16
    | StoreExtraInhabitant => 17
    | GetExtraInhabitantIndex => 18
    | GetEnumTag => 19
    | DestructiveProjectEnumData => 20
    | DestructiveInjectEnumTag => 21
    | GetEnumTagSinglePayload => 22
    | StoreEnumTagSinglePayload => 23
    end%Z;
  ParamKindValue := fun k =>
    match k with
    | ConstantPropFunction => 0
    | ConstantPropGlobal => 1
    | ConstantPropInteger => 2
    | ConstantPropFloat => 3
    | ConstantPropString => 4
    | ClosureProp => 5
    | BoxToValue => 6
    | BoxToStack => 7
    | Dead => 64
    | OwnedToGuaranteed => 128
    | SROA => 256
    | GuaranteedToOwned => 512
    | ExistentialToGeneric => 1024
    end%N;
  assertsEnabled := false
|}.

Definition defaultOptions : DemangleOptions := {|
  SynthesizeSugarOnTypes := true;
  QualifyEntities := true;
  DisplayExtensionContexts := true;
  DisplayUnmangledSuffix := true;
  DisplayModuleNames := true;
  DisplayGenericSpecializations := true;
  DisplayProtocolConformances := true;
  DisplayWhereClauses := true;
  DisplayEntityTypes := true;
  DisplayLocalNameContexts := true;
  ShortenPartialApply := false;
  ShortenThunk := false;
  ShortenValueWitness := false;
  ShowPrivateDiscriminators := true;
  ShowFunctionArgumentTypes := true;
  DisplayDebuggerGeneratedModule := true;
  DisplayStdlibModule := true;
  DisplayObjCModule := true;
  PrintForTypeName := false;
  HidingCurrentModule := "";
  GenericParameterName := genericParameterName
|}.

(** The same, with the short "specialized" marker. *)
Definition terseOptions : DemangleOptions := {|
  SynthesizeSugarOnTypes := true;
  QualifyEntities := true;
  DisplayExtensionContexts := true;
  DisplayUnmangledSuffix := true;
  DisplayModuleNames := true;
  DisplayGenericSpecializations := false;
  DisplayProtocolConformances := true;
  DisplayWhereClauses := true;
  DisplayEntityTypes := true;
  DisplayLocalNameContexts := true;
  ShortenPartialApply := false;
  ShortenThunk := false;
  ShortenValueWitness := false;
  ShowPrivateDiscriminators := true;
  ShowFunctionArgumentTypes := true;
  DisplayDebuggerGeneratedModule := true;
  DisplayStdlibModule := true;
  DisplayObjCModule := true;
  PrintForTypeName := false;
  HidingCurrentModule := "";
  GenericParameterName := genericParameterName
|}.

Definition textNode (k : Kind) (t : string) : Node := mkNode k (Some t) None [].
Definition indexNode (k : Kind) (i : N) : Node := mkNode k None (Some i) [].
Definition innerNode (k : Kind) (cs : list Node) : Node := mkNode k None None cs.

(** A nominal type [module.name], wrapped in a [Type] node. *)
Definition nominalType (k : Kind) (module name : string) : Node :=
  innerNode KType
    [innerNode k [textNode KModule module; textNode KIdentifier name]].

Definition swiftInt : Node := nominalType KStructure "Swift" "Int".
Definition swiftString : Node := nominalType KStructure "Swift" "String".

(** ** The type-simplicity classifier *)

(** C6: a protocol list is simple exactly when its first child has at most
    one member, a protocol list with AnyObject exactly when its nested type
    list is empty, and a protocol list with a class never is, so that it is
    printed between parentheses where a simple type is expected. *)
Theorem isSimpleType_protocol_lists (Node : Node) :
  (getKind Node = KProtocolList ->
   forall typeList,
     getChild Node 0 = Ok typeList ->
     isSimpleType Node = Ok (getNumChildren typeList <=? 1)) /\
  (getKind Node = KProtocolListWithAnyObject ->
   forall protocols typeList,
     getChild Node 0 = Ok protocols ->
     getChild protocols 0 = Ok typeList ->
     isSimpleType Node = Ok (getNumChildren typeList =? 0)) /\
  (getKind Node = KProtocolListWithClass ->
   isSimpleType Node = Ok false /\
   forall print st,
     printWithParens print Node st =
     bind (emit "(") (fun _ =>
     bind (print Node false) (fun _ => emit ")")) st).
Proof.
  unfold printWithParens, isSimpleType.
  split; [| split]; intros Hk; rewrite Hk.
  - intros typeList H0. simpl. rewrite H0. reflexivity.
  - intros protocols typeList H0 H1. simpl. rewrite H0. simpl.
    rewrite H1. reflexivity.
  - split; reflexivity.
Qed.

Definition anyProtocolList : Node :=
  innerNode KProtocolList [innerNode KTypeList []].
Definition twoProtocolList : Node :=
  innerNode KProtocolList
    [innerNode KTypeList [nominalType KProtocol "main" "P";
                          nominalType KProtocol "main" "Q"]].
Definition anyObjectList : Node :=
  innerNode KProtocolListWithAnyObject
    [innerNode KProtocolList [innerNode KTypeList []]].
Definition classProtocolList : Node :=
  innerNode KProtocolListWithClass
    [innerNode KProtocolList [innerNode KTypeList []];
     nominalType KClass "main" "C"].

Lemma isSimpleType_protocol_lists_witness :
  isSimpleType anyProtocolList = Ok true /\
  isSimpleType twoProtocolList = Ok false /\
  isSimpleType anyObjectList = Ok true /\
  isSimpleType classProtocolList = Ok false.
Proof.
  split; [| split; [| split]].
  - exact (proj1 (isSimpleType_protocol_lists anyProtocolList)
                 eq_refl _ eq_refl).
  - exact (proj1 (isSimpleType_protocol_lists twoProtocolList)
                 eq_refl _ eq_refl).
  - exact (proj1 (proj2 (isSimpleType_protocol_lists anyObjectList))
                 eq_refl _ _ eq_refl eq_refl).
  - exact (proj1 (proj2 (proj2 (isSimpleType_protocol_lists
                                  classProtocolList)) eq_refl)).
Defined.

(** ** The public entry point on a null pointer *)

(** A function type without children: [printFunctionType] gives up on it. *)
Definition brokenFunctionType : Node := innerNode KFunctionType [].

(** C10: for a null root the entry point returns the empty string, whatever
    the options are; and so it does for a tree on which the printer gave up,
    so that the empty string alone does not tell the two apart. *)
Theorem nodeToString_null (E : Externals) (options : DemangleOptions) :
  nodeToString E None options = Ok "" /\
  exists root st',
    print E options (depth root) root false newNodePrinter = Ok (None, st') /\
    isValid st' = false /\
    nodeToString E (Some root) options = Ok "".
Proof.
  split; [reflexivity |].
  exists brokenFunctionType, (mkNodePrinter "" false false).
  repeat split; reflexivity.
Qed.

(** ** Sugar for the standard containers *)

Section Sugar.

Variable E : Externals.
Variable Options : DemangleOptions.

Lemma print_unfold stack Node asPrefixContext :
  print E Options (S stack) Node asPrefixContext =
  printNode E Options (print E Options stack) Node asPrefixContext.
Proof. reflexivity. Qed.

Lemma isIdentifier_hasText ident desired :
  hasText ident = true ->
  exists named, isIdentifier ident desired = Ok named.
Proof.
  destruct ident as [k [t |] i cs]; [| discriminate]. intros _.
  unfold isIdentifier. destruct (isKind _ _); simpl; eauto.
Qed.

(** What [findSugar] finds on a bound generic enum or structure with two
    children, in terms of its four tests. *)
Lemma findSugar_two_children kind text index base typeArgs unboundType ident
      module swift :
  getChild base 0 = Ok unboundType ->
  getChild unboundType 1 = Ok ident ->
  getChild unboundType 0 = Ok module ->
  hasText ident = true ->
  isSwiftModule E module = Ok swift ->
  kind = KBoundGenericEnum \/ kind = KBoundGenericStructure ->
  let named name args :=
    match isIdentifier ident name with
    | Ok b => b && (getNumChildren typeArgs =? args) && swift
    | Stop _ => false
    end in
  findSugar E (mkNode kind text index [base; typeArgs]) =
  Ok (if Kind_eqb kind KBoundGenericEnum then
        if named "Optional" 1 then SugarOptional
        else if named "ImplicitlyUnwrappedOptional" 1
             then SugarImplicitlyUnwrappedOptional
             else SugarNone
      else
        if named "Array" 1 then SugarArray
        else if named "Dictionary" 2 then SugarDictionary
        else SugarNone).
Proof.
  intros Hbase Hident Hmodule Htext Hswift Hkind named.
  assert (Hsugar : forall name args,
    bindR (getChild unboundType 1) (fun ident0 =>
    bindR (isIdentifier ident0 name) (fun named0 =>
      if named0 && (getNumChildren typeArgs =? args)
      then bindR (getChild unboundType 0)
                 (fun module0 => isSwiftModule E module0)
      else Ok false)) = Ok (named name args)).
  { intros name args. subst named. rewrite Hident. simpl.
    destruct (isIdentifier_hasText ident name Htext) as [b Hb].
    rewrite Hb. simpl.
    destruct (b && (getNumChildren typeArgs =? args)); simpl.
    - rewrite Hmodule. simpl. exact Hswift.
    - reflexivity. }
  destruct Hkind as [-> | ->]; cbn -[isIdentifier isSwiftModule getChild];
    change (getChild (mkNode _ _ _ [base; typeArgs]) 0) with (Ok base);
    change (getChild (mkNode _ _ _ [base; typeArgs]) 1) with (Ok typeArgs);
    cbn [bindR]; rewrite Hbase; cbn [bindR];
    rewrite !Hsugar; cbn [bindR];
    repeat match goal with |- context [if ?b then _ else _] => destruct b end;
    reflexivity.
Qed.

Lemma isIdentifier_other ident a b :
  isIdentifier ident a = Ok true -> String.eqb a b = false ->
  isIdentifier ident b = Ok false.
Proof.
  unfold isIdentifier. destruct (isKind ident KIdentifier); [| discriminate].
  destruct (getText ident) as [t | e]; simpl; [| discriminate].
  intros [= Ha] Hab. apply String.eqb_eq in Ha. subst t. rewrite Hab.
  reflexivity.
Qed.

Local Open Scope printer_scope.

(** Two runs are the same when they are the same after every step. *)
Ltac run_cases :=
  unfold bind, lift, ret, done, when, emit; cbn beta iota;
  repeat match goal with
    | |- context [match ?m ?s with Ok _ => _ | Stop _ => _ end] =>
        destruct (m s) as [[? ?] | ?]; cbn beta iota
    | |- context [match ?r with Ok _ => _ | Stop _ => _ end] =>
        destruct r; cbn beta iota
    | |- context [if ?b then _ else _] => destruct b; cbn beta iota
    end;
  try reflexivity.

(** The run of a bound generic enum or structure with the two children (base,
    type arguments) when sugar is enabled, in each of the cases of
    [findSugar]: the run of what is printed in the place of the node. *)
Lemma printBoundGeneric_sugar_runs stack kind text index base typeArgs
    unboundType ident module asPrefixContext st :
  SynthesizeSugarOnTypes Options = true ->
  getChild base 0 = Ok unboundType ->
  getChild unboundType 1 = Ok ident ->
  getChild unboundType 0 = Ok module ->
  hasText ident = true ->
  let Node := mkNode kind text index [base; typeArgs] in
  let print' := print E Options stack in
  let run := print E Options (S stack) Node asPrefixContext st in
  (forall T,
     kind = KBoundGenericEnum ->
     isIdentifier ident "Optional" = Ok true ->
     getChildren typeArgs = [T] ->
     isSwiftModule E module = Ok true ->
     run = (printWithParens print' T ;; emit "?" ;; done) st) /\
  (forall T,
     kind = KBoundGenericEnum ->
     isIdentifier ident "ImplicitlyUnwrappedOptional" = Ok true ->
     getChildren typeArgs = [T] ->
     isSwiftModule E module = Ok true ->
     run = (printWithParens print' T ;; emit "!" ;; done) st) /\
  (forall T,
     kind = KBoundGenericStructure ->
     isIdentifier ident "Array" = Ok true ->
     getChildren typeArgs = [T] ->
     isSwiftModule E module = Ok true ->
     run = (emit "[" ;; print' T false ;; emit "]" ;; done) st) /\
  (forall K V,
     kind = KBoundGenericStructure ->
     isIdentifier ident "Dictionary" = Ok true ->
     getChildren typeArgs = [K; V] ->
     isSwiftModule E module = Ok true ->
     run = (emit "[" ;; print' K false ;; emit " : " ;; print' V false ;;
            emit "]" ;; done) st) /\
  (kind = KBoundGenericEnum \/ kind = KBoundGenericStructure ->
   isSwiftModule E module = Ok false ->
   run = (print' base false ;; emit "<" ;;
          printChildrenRange print' (getChildren typeArgs) (Some ", ") ;;
          emit ">" ;; done) st).
Proof.
  intros Hsugar Hbase Hident Hmodule Htext Node print' run.
  assert (Hrun : forall swift,
    isSwiftModule E module = Ok swift ->
    kind = KBoundGenericEnum \/ kind = KBoundGenericStructure ->
    run = ((s <-! findSugar E Node ;;
           match s with
           | SugarNone => printBoundGenericNoSugar print' Node
           | SugarOptional | SugarImplicitlyUnwrappedOptional =>
               args <-! getChild Node 1 ;;
               type <-! getChild args 0 ;;
               printWithParens print' type ;;
               emit (match s with SugarOptional => "?" | _ => "!" end)
           | SugarArray =>
               args <-! getChild Node 1 ;;
               type <-! getChild args 0 ;;
               emit "[" ;; print' type false ;; emit "]"
           | SugarDictionary =>
               args <-! getChild Node 1 ;;
               keyType <-! getChild args 0 ;;
               args' <-! getChild Node 1 ;;
               valueType <-! getChild args' 1 ;;
               emit "[" ;; print' keyType false ;; emit " : " ;;
               print' valueType false ;; emit "]"
           end) ;; done) st).
  { intros swift Hswift [Hk | Hk]; subst run; rewrite print_unfold;
      unfold printNode, Node; rewrite Hk; cbn [getKind];
      unfold printBoundGeneric; rewrite Hsugar;
      cbn [getNumChildren getChildren length Nat.ltb Nat.leb Nat.eqb negb orb
           andb];
      reflexivity. }
  assert (Hargs1 : forall T, getChildren typeArgs = [T] ->
            getChild typeArgs 0 = Ok T /\ getNumChildren typeArgs = 1).
  { intros T HT. unfold getChild, getNumChildren. rewrite HT. auto. }
  repeat split.
  - intros T Hk Hid HT Hswift. destruct (Hargs1 T HT) as [HT0 Hn].
    rewrite (Hrun true Hswift (or_introl Hk)). unfold Node.
    rewrite (findSugar_two_children kind text index base typeArgs _ _ _ _
               Hbase Hident Hmodule Htext Hswift (or_introl Hk)).
    rewrite Hk, Hid, Hn. unfold bind, lift. cbn -[printWithParens].
    rewrite HT0. run_cases.
  - intros T Hk Hid HT Hswift. destruct (Hargs1 T HT) as [HT0 Hn].
    rewrite (Hrun true Hswift (or_introl Hk)). unfold Node.
    rewrite (findSugar_two_children kind text index base typeArgs _ _ _ _
               Hbase Hident Hmodule Htext Hswift (or_introl Hk)).
    rewrite (isIdentifier_other ident _ "Optional" Hid eq_refl).
    rewrite Hk, Hid, Hn. unfold bind, lift. cbn -[printWithParens].
    rewrite HT0. run_cases.
  - intros T Hk Hid HT Hswift. destruct (Hargs1 T HT) as [HT0 Hn].
    rewrite (Hrun true Hswift (or_intror Hk)). unfold Node.
    rewrite (findSugar_two_children kind text index base typeArgs _ _ _ _
               Hbase Hident Hmodule Htext Hswift (or_intror Hk)).
    rewrite Hk, Hid, Hn. unfold bind, lift. cbn. rewrite HT0.
    run_cases.
  - intros K V Hk Hid HT Hswift.
    assert (HK : getChild typeArgs 0 = Ok K)
      by (unfold getChild; rewrite HT; reflexivity).
    assert (HV : getChild typeArgs 1 = Ok V)
      by (unfold getChild; rewrite HT; reflexivity).
    assert (Hn : getNumChildren typeArgs = 2)
      by (unfold getNumChildren; rewrite HT; reflexivity).
    rewrite (Hrun true Hswift (or_intror Hk)). unfold Node.
    rewrite (findSugar_two_children kind text index base typeArgs _ _ _ _
               Hbase Hident Hmodule Htext Hswift (or_intror Hk)).
    rewrite (isIdentifier_other ident _ "Array" Hid eq_refl).
    rewrite Hk, Hid, Hn. unfold bind, lift. cbn. rewrite HK, HV.
    run_cases.
  - intros Hk Hswift.
    rewrite (Hrun false Hswift Hk). unfold Node.
    rewrite (findSugar_two_children kind text index base typeArgs _ _ _ _
               Hbase Hident Hmodule Htext Hswift Hk).
    assert (Hnone : forall a b c d : bool,
              (if a then if b && c && false then SugarOptional
                    else if d && c && false
                         then SugarImplicitlyUnwrappedOptional else SugarNone
               else SugarNone) = SugarNone)
      by (intros [] [] [] []; reflexivity).
    destruct (isIdentifier_hasText ident "Optional" Htext) as [b1 ->].
    destruct (isIdentifier_hasText ident "ImplicitlyUnwrappedOptional" Htext)
      as [b2 ->].
    destruct (isIdentifier_hasText ident "Array" Htext) as [b3 ->].
    destruct (isIdentifier_hasText ident "Dictionary" Htext) as [b4 ->].
    rewrite !andb_false_r.
    destruct (Kind_eqb kind KBoundGenericEnum);
      cbn [lift bind]; unfold printBoundGenericNoSugar, printChild,
        printChildren; cbn [getNumChildren getChildren length Nat.ltb Nat.leb
                             getChild nth_error lift bind];
      run_cases.
Qed.

End Sugar.

Definition optionalInt : Node :=
  innerNode KBoundGenericEnum
    [nominalType KEnum "Swift" "Optional"; innerNode KTypeList [swiftInt]].
Definition unwrappedInt : Node :=
  innerNode KBoundGenericEnum
    [nominalType KEnum "Swift" "ImplicitlyUnwrappedOptional";
     innerNode KTypeList [swiftInt]].
Definition arrayOfString : Node :=
  innerNode KBoundGenericStructure
    [nominalType KStructure "Swift" "Array"; innerNode KTypeList [swiftString]].
Definition dictionaryOfStringInt : Node :=
  innerNode KBoundGenericStructure
    [nominalType KStructure "Swift" "Dictionary";
     innerNode KTypeList [swiftString; swiftInt]].
(** An [Array] that is not the one of the standard library. *)
Definition otherArrayOfString : Node :=
  innerNode KBoundGenericStructure
    [nominalType KStructure "main" "Array"; innerNode KTypeList [swiftString]].

Definition printed (out : string) : Res (NodePointer * NodePrinter) :=
  Ok (None, mkNodePrinter out false true).

(** The function type [(Swift.Int) -> ()]. *)
Definition intToVoid : Node :=
  innerNode KFunctionType
    [innerNode KArgumentTuple
       [innerNode KType
          [innerNode KTuple [innerNode KTupleElement [swiftInt]]]];
     innerNode KReturnType [innerNode KType [innerNode KTuple []]]].

(** [Swift.Optional] with the type argument [T]. *)
Definition optionalOf (T : Node) : Node :=
  innerNode KBoundGenericEnum
    [nominalType KEnum "Swift" "Optional"; innerNode KTypeList [T]].

(** C1: the sugar printer hands the type argument to [printWithParens] as it
    stands in the type list.  There it is under a [Type] node, which the
    classifier takes to be simple whatever is below it: the optional of a
    function type, which is not simple, is printed without parentheses.  The
    metatype case looks through the [Type] node before it calls
    [printWithParens], and prints them; and so does the sugar printer for
    the same function type without its [Type] node. *)
Theorem optional_function_type_unparenthesized :
  isSimpleType intToVoid = Ok false /\
  isSimpleType (innerNode KType [intToVoid]) = Ok true /\
  nodeToString swiftExternals
    (Some (optionalOf (innerNode KType [intToVoid]))) defaultOptions =
  Ok "(Swift.Int) -> ()?" /\
  nodeToString swiftExternals
    (Some (innerNode KMetatype [innerNode KType [intToVoid]])) defaultOptions =
  Ok "((Swift.Int) -> ()).Type" /\
  nodeToString swiftExternals (Some (optionalOf intToVoid)) defaultOptions =
  Ok "((Swift.Int) -> ())?".
Proof. repeat split; vm_compute; reflexivity. Qed.

(** ** The one-shot marker of specializations *)



Section Specializations.

Variable E : Externals.
Variable Options : DemangleOptions.
Hypothesis terse : DisplayGenericSpecializations Options = false.

Local Open Scope printer_scope.





End Specializations.

Definition twiceSpecialized : Node :=
  innerNode KGlobal
    [innerNode KGenericSpecialization [];
     innerNode KFunctionSignatureSpecialization [];
     textNode KIdentifier "f"].


(** ** The validity flag and the top-level call *)

(** The state with the validity flag cleared. *)
Definition invalidated (st : NodePrinter) : NodePrinter :=
  mkNodePrinter (Printer st) (SpecializationPrefixPrinted st) false.

(** The string that a run of [printRoot] returns. *)
Definition rendered (r : Res (string * NodePrinter)) : Res string :=
  match r with
  | Ok (s, _) => Ok s
  | Stop e => Stop e
  end.

Section TopLevel.

Variable E : Externals.
Variable Options : DemangleOptions.

Local Open Scope printer_scope.

Lemma printRoot_unfold stack root p :
  printRoot E Options stack root p =
  match print E Options stack root false
              (mkNodePrinter (Printer p) (SpecializationPrefixPrinted p) true)
  with
  | Ok (_, st') =>
      if isValid st'
      then Ok (Printer st',
               mkNodePrinter "" (SpecializationPrefixPrinted st') (isValid st'))
      else Ok ("", st')
  | Stop e => Stop e
  end.
Proof.
  unfold printRoot, bind, setValid, getIsValid, takePrinter, ret.
  destruct (print E Options stack root false _) as [[r st'] | e];
    [| reflexivity].
  cbn. destruct (isValid st') eqn:Hv; rewrite ?Hv; reflexivity.
Qed.

Lemma nodeToString_unfold root :
  nodeToString E (Some root) Options =
  match print E Options (depth root) root false newNodePrinter with
  | Ok (_, st') => Ok (if isValid st' then Printer st' else "")
  | Stop e => Stop e
  end.
Proof.
  unfold nodeToString. rewrite printRoot_unfold.
  change (mkNodePrinter (Printer newNodePrinter)
            (SpecializationPrefixPrinted newNodePrinter) true)
    with newNodePrinter.
  destruct (print E Options (depth root) root false newNodePrinter)
    as [[r st'] | e]; [| reflexivity].
  destruct (isValid st'); reflexivity.
Qed.


(** C8, as the code has it: at its start [printRoot] sets the validity flag,
    and nothing else; it takes the buffer and the one-shot flag as it finds
    them.  They are empty and unset at every call of the entry point
    [nodeToString] because that constructs a new printer for each call. *)
Theorem printRoot_resets_validity_only :
  (forall stack root p,
     printRoot E Options stack root p =
     match print E Options stack root false
                 (mkNodePrinter (Printer p) (SpecializationPrefixPrinted p)
                                true)
     with
     | Ok (_, st') =>
         if isValid st'
         then Ok (Printer st',
                  mkNodePrinter "" (SpecializationPrefixPrinted st')
                                (isValid st'))
         else Ok ("", st')
     | Stop e => Stop e
     end)
  /\
  (forall root,
     nodeToString E (Some root) Options =
     rendered (printRoot E Options (depth root) root
                         (mkNodePrinter "" false true))).
Proof.
  split; [exact printRoot_unfold |].
  intros root. unfold nodeToString, rendered, newNodePrinter.
  destruct (printRoot E Options (depth root) root _) as [[s p] | e];
    reflexivity.
Qed.

End TopLevel.

(** A tree on which the printer gives up after it has printed ["x"]. *)
Definition brokenAfterX : Node :=
  innerNode KGlobal [textNode KIdentifier "x"; brokenFunctionType].




(** A printer that an earlier top-level print has left behind: the one on
    [brokenAfterX], which returned the empty string. *)
Definition usedPrinter : NodePrinter := mkNodePrinter "x" false false.

(** C8 fails as it is stated: a second [printRoot] on the same printer finds
    the buffer that the first one left, and its result depends on it; and it
    finds the one-shot flag set when the first one has set it. *)
Lemma printRoot_reuse_counterexample :
  printRoot swiftExternals defaultOptions 2 brokenAfterX newNodePrinter
    = Ok ("", usedPrinter) /\
  rendered (printRoot swiftExternals defaultOptions 1
                      (textNode KIdentifier "y") usedPrinter) = Ok "xy" /\
  rendered (printRoot swiftExternals defaultOptions 1
                      (textNode KIdentifier "y") newNodePrinter) = Ok "y" /\
  printRoot swiftExternals terseOptions 1
            (innerNode KGenericSpecialization []) newNodePrinter
    = Ok ("specialized ", mkNodePrinter "" true true) /\
  rendered (printRoot swiftExternals terseOptions 2 twiceSpecialized
                      (mkNodePrinter "" true true)) = Ok "f" /\
  rendered (printRoot swiftExternals terseOptions 2 twiceSpecialized
                      newNodePrinter) = Ok "specialized f".
Proof. repeat split; vm_compute; reflexivity. Qed.

(** ** The context of an entity with a multi-word name *)

(** The state after [Printer << s]. *)
Definition appended (st : NodePrinter) (s : string) : NodePrinter :=
  mkNodePrinter (Printer st ++ s) (SpecializationPrefixPrinted st) (isValid st).

(** [ensures m st Q]: if the run of [m] from [st] comes to its end, its
    result and final state satisfy [Q]. *)
Definition ensures {A} (m : M A) (st : NodePrinter)
    (Q : A -> NodePrinter -> Prop) : Prop :=
  forall a st', m st = Ok (a, st') -> Q a st'.

Lemma ensures_bind {A B} (m : M A) (f : A -> M B) st Q :
  ensures m st (fun a st1 => ensures (f a) st1 Q) -> ensures (bind m f) st Q.
Proof.
  unfold ensures, bind. intros H b st' Hrun.
  destruct (m st) as [[a st1] | e] eqn:Hm; [| discriminate].
  eapply H; [reflexivity | exact Hrun].
Qed.

Lemma ensures_ret {A} (a : A) st (Q : A -> NodePrinter -> Prop) :
  Q a st -> ensures (ret a) st Q.
Proof. unfold ensures, ret. intros H a' st' [= <- <-]. exact H. Qed.

Lemma ensures_lift {A} (r : Res A) st (Q : A -> NodePrinter -> Prop) :
  (forall a, r = Ok a -> Q a st) -> ensures (lift r) st Q.
Proof.
  unfold ensures, lift. intros H a st'. destruct r as [a0 | e];
    [| discriminate].
  intros [= <- <-]. apply H. reflexivity.
Qed.

Lemma ensures_emit s st (Q : unit -> NodePrinter -> Prop) :
  Q tt (appended st s) -> ensures (emit s) st Q.
Proof. unfold ensures, emit. intros H a st' [= <- <-]. exact H. Qed.

Lemma ensures_assert E b st (Q : unit -> NodePrinter -> Prop) :
  Q tt st -> ensures (assert E b) st Q.
Proof.
  unfold ensures, assert. intros H a st'.
  destruct (assertsEnabled E && negb b); [discriminate |].
  intros [= <- <-]. exact H.
Qed.

Lemma ensures_safe {A} (m : M A) (P : A -> Prop) st
    (Q : A -> NodePrinter -> Prop) :
  safe m P ->
  (forall a st', extends st st' -> P a -> Q a st') ->
  ensures m st Q.
Proof.
  unfold ensures, safe, wp. intros Hm HQ a st' Hrun.
  specialize (Hm st). rewrite Hrun in Hm. destruct Hm. auto.
Qed.

Lemma contains_not_empty c s : contains c s = true -> empty s = false.
Proof. destruct s; [discriminate | reflexivity]. Qed.

Lemma extends_appended st s : extends st (appended st s).
Proof. split; simpl; eauto. Qed.

Section EntityContext.

Variable E : Externals.
Variable Options : DemangleOptions.
Variable stack : nat.

Local Open Scope printer_scope.

Let print' := print E Options stack.

Lemma print'_safe :
  forall c b, depth c <= stack -> safe (print' c b) (fun r => pdepth r <= depth c).
Proof. intros c b Hd. apply print_safe. exact Hd. Qed.

Hint Resolve safe_emit safe_setInvalid safe_assert safe_getSize
  safe_printChild safe_printEntityType safe_printFunctionType : safe.
Hint Extern 2 (_ <= _) => depth_lia : safe.
Hint Extern 2 (_ < _) => depth_lia : safe.

(** C7, as the code has it: an entity that is printed with an extra name that
    contains a space never has its context before its name.  Printed as the
    prefix context of another entity, it prints nothing and hands itself back
    to its caller, which prints it after the other entity.  Printed on its
    own, what it prints starts with the extra name; and when its context is
    one that [printContext] shows, which takes entity qualification to be
    enabled and the context not to be a module that the options hide, the
    entity has its type if one is asked for, and it has no local name or
    local-name contexts are displayed, what it prints ends with " of " for
    an initializer-like entity and " in " for any other one, followed by the
    context printed outside of prefix mode. *)
Theorem printEntity_multi_word_name Entity TypePr hasName ExtraName ExtraIndex
    OverwriteName st :
  contains " " ExtraName = true ->
  isKind Entity KBoundGenericFunction = false ->
  depth Entity <= S stack ->
  let run asPrefixContext :=
    printEntity E Options print' Entity asPrefixContext TypePr hasName
                ExtraName ExtraIndex OverwriteName st in
  let LocalName :=
    hasName && match getChild Entity 1 with
               | Ok n => isKind n KLocalDeclName
               | Stop _ => false
               end in
  (forall r st', run true = Ok (r, st') -> r = Some Entity /\ st' = st) /\
  (forall r st',
     run false = Ok (r, st') ->
     (exists out, Printer st' = Printer st ++ ExtraName ++ out) /\
     forall Context,
       getChild Entity 0 = Ok Context ->
       printContext E Options Context = Ok true ->
       TypePr = NoType \/ getChildIf Entity KType <> None ->
       LocalName = false \/ DisplayLocalNameContexts Options = true ->
       r = None /\
       exists st1 r',
         extends (appended st ExtraName) st1 /\
         print' Context false
                (appended st1 (if isInitializerLike Entity then " of "
                               else " in ")) = Ok (r', st')).
Proof.
  intros Hmulti Hkind Hd run LocalName.
  pose proof print'_safe as Hpr.
  assert (Hlocal : forall s (Q : bool -> NodePrinter -> Prop),
            Q LocalName s ->
            ensures (if hasName
                     then n <-! getChild Entity 1 ;;
                          ret (isKind n KLocalDeclName)
                     else ret false) s Q).
  { intros s Q HQ. subst LocalName. destruct hasName.
    - apply ensures_bind, ensures_lift. intros n Hn. apply ensures_ret.
      rewrite Hn in HQ. exact HQ.
    - apply ensures_ret. exact HQ. }
  assert (Hsame : forall b : bool, (if b then true else true) = true)
    by (intros []; reflexivity).
  split.
  - change (ensures (printEntity E Options print' Entity true TypePr hasName
                                 ExtraName ExtraIndex OverwriteName) st
                    (fun r st' => r = Some Entity /\ st' = st)).
    unfold printEntity. rewrite Hkind.
    apply ensures_bind, ensures_ret. cbv beta iota.
    apply ensures_bind, Hlocal. rewrite Hmulti, Hsame.
    rewrite orb_true_r. cbn [andb].
    apply ensures_ret. split; reflexivity.
  - change (ensures (printEntity E Options print' Entity false TypePr hasName
                                 ExtraName ExtraIndex OverwriteName) st
              (fun r st' =>
                 (exists out, Printer st' = Printer st ++ ExtraName ++ out) /\
                 forall Context,
                   getChild Entity 0 = Ok Context ->
                   printContext E Options Context = Ok true ->
                   TypePr = NoType \/ getChildIf Entity KType <> None ->
                   LocalName = false \/
                   DisplayLocalNameContexts Options = true ->
                   r = None /\
                   exists st1 r',
                     extends (appended st ExtraName) st1 /\
                     print' Context false
                       (appended st1 (if isInitializerLike Entity
                                      then " of " else " in "))
                     = Ok (r', st'))).
    unfold printEntity. rewrite Hkind.
    apply ensures_bind, ensures_ret. cbv beta iota.
    apply ensures_bind, Hlocal. rewrite Hmulti, Hsame.
    cbn [andb].
    apply ensures_bind, ensures_lift. intros Context HContext.
    apply ensures_bind, ensures_lift. intros shown Hshown.
    apply ensures_bind.
    assert (Hpost : forall (Q : NodePointer -> NodePrinter -> Prop),
              Q (if shown then Some Context else None) st ->
              ensures (if shown then ret (Some Context) else ret None) st Q).
    { intros Q HQ. destruct shown; apply ensures_ret; exact HQ. }
    apply Hpost. clear Hpost.
    rewrite (contains_not_empty _ _ Hmulti). cbn [negb andb].
    match goal with
    | |- ensures (bind _ (fun _ => bind _ (fun _ => bind ?block ?rest))) _ ?Q =>
        set (typeBlock := block); set (final := rest); set (goal := Q)
    end.
    assert (Hout : forall s, extends (appended st ExtraName) s ->
              exists out, Printer s = Printer st ++ ExtraName ++ out).
    { intros s [[out Hs] _ _]. exists out. rewrite Hs. simpl.
      apply append_assoc. }
    assert (Htype : safe typeBlock
              (fun typed => typed = false ->
                 TypePrinting_eqb TypePr NoType = false /\
                 getChildIf Entity KType = None)).
    { subst typeBlock.
      destruct (TypePrinting_eqb TypePr NoType) eqn:HT; cbn [negb].
      - intros s. split; [apply extends_refl | discriminate].
      - destruct (getChildIf Entity KType) as [type |] eqn:Hty.
        + apply getChildIf_depth in Hty.
          safe_start. wp_go.
        + intros s. unfold wp, bind, assert, setInvalid, ret, fail.
          destruct (assertsEnabled E && negb false); [exact I |].
          split; [| auto].
          split; simpl; auto. exists "". symmetry. apply append_empty_r. }
    assert (Htail : forall s, extends (appended st ExtraName) s ->
              ensures (bind typeBlock final) s goal).
    { intros s Hs. apply ensures_bind.
      eapply ensures_safe; [exact Htype |].
      intros typed s1 Hs1 Htyped. pose proof (extends_trans _ _ _ Hs Hs1) as H1.
      subst final goal. cbv beta.
      destruct typed; cbn [negb].
      - destruct shown.
        + destruct (negb LocalName || DisplayLocalNameContexts Options)
            eqn:Hcond.
          * apply ensures_bind, ensures_emit, ensures_bind.
            intros r' s2 Hrun. apply ensures_ret.
            assert (Hdc : depth Context <= stack)
              by (apply getChild_depth in HContext; lia).
            pose proof (print_extends _ _ _ _ _ _ _ _ Hdc Hrun) as H2.
            split.
            -- apply Hout.
               exact (extends_trans _ _ _ H1
                        (extends_trans _ _ _ (extends_appended _ _) H2)).
            -- intros Context0 HC0 _ _ _.
               assert (Context0 = Context) by congruence. subst Context0.
               split; [reflexivity |]. exists s1, r'. split; assumption.
          * apply ensures_ret. split; [apply Hout; exact H1 |].
            intros Context0 _ _ _ [Hl | Hl]; rewrite Hl in Hcond;
              [discriminate |].
            rewrite orb_true_r in Hcond. discriminate.
        + apply ensures_ret. split; [apply Hout; exact H1 |].
          intros Context0 HC0 Hshown0 _ _.
          assert (Context0 = Context) by congruence. subst Context0.
          congruence.
      - apply ensures_ret. split; [apply Hout; exact H1 |].
        intros Context0 _ _ [HT | HT] _; destruct (Htyped eq_refl) as [H3 H4].
        + subst TypePr. discriminate.
        + contradiction. }
    clearbody typeBlock final goal.
    destruct (hasName || negb (empty OverwriteName)).
    + apply ensures_bind, ensures_bind, ensures_assert.
      apply ensures_bind, ensures_bind, ensures_emit.
      apply ensures_bind, ensures_emit, ensures_ret.
      eapply ensures_safe with (P := fun _ : string => True).
      { safe_start. wp_go. }
      intros ExtraName0 s1 Hs1 _. apply ensures_bind.
      eapply ensures_safe with (P := fun _ : unit => True).
      { safe_start. wp_go. }
      intros _ s2 Hs2 _. apply Htail.
      exact (extends_trans _ _ _ (extends_appended _ _)
               (extends_trans _ _ _ Hs1 Hs2)).
    + apply ensures_bind, ensures_ret.
      rewrite (contains_not_empty _ _ Hmulti). cbn [negb].
      apply ensures_bind, ensures_bind, ensures_emit.
      eapply ensures_safe with (P := fun _ : unit => True).
      { safe_start. wp_go. }
      intros _ s1 Hs1 _. apply Htail. exact Hs1.
Qed.

End EntityContext.

(** The first closure in [main.S], with no type to show. *)
Definition structS : Node :=
  innerNode KStructure [textNode KModule "main"; textNode KIdentifier "S"].
Definition closureInS : Node :=
  innerNode KExplicitClosure [structS; indexNode KNumber 0].

(** The initial value of a variable of [main.S]. *)
Definition initializerInS : Node := innerNode KInitializer [structS].

Lemma printEntity_multi_word_name_witness :
  ((Some closureInS = Some closureInS /\ newNodePrinter = newNodePrinter) /\
   (exists out,
      Printer (mkNodePrinter "closure #1 in main.S" false true) =
      Printer newNodePrinter ++ "closure #" ++ out) /\
   (@None Node = None /\
    exists st1 r',
      extends (appended newNodePrinter "closure #") st1 /\
      print swiftExternals defaultOptions 2 structS false
            (appended st1 " in ")
      = Ok (r', mkNodePrinter "closure #1 in main.S" false true))) /\
  (@None Node = None /\
   exists st1 r',
     extends (appended newNodePrinter "variable initialization expression")
             st1 /\
     print swiftExternals defaultOptions 2 structS false
           (appended st1 " of ")
     = Ok (r',
           mkNodePrinter "variable initialization expression of main.S"
                         false true)).
Proof.
  split.
  - pose proof (printEntity_multi_word_name swiftExternals defaultOptions 2
                  closureInS NoType false "closure #" 1 "" newNodePrinter
                  eq_refl eq_refl ltac:(cbv; lia)) as [Hprefix Hsuffix].
    split; [exact (Hprefix _ _ eq_refl) |].
    destruct (Hsuffix None (mkNodePrinter "closure #1 in main.S" false true)
                eq_refl) as [Hname Hcontext].
    split; [exact Hname |].
    exact (Hcontext structS eq_refl eq_refl (or_introl eq_refl)
                    (or_introl eq_refl)).
  - pose proof (printEntity_multi_word_name swiftExternals defaultOptions 2
                  initializerInS NoType false
                  "variable initialization expression" (-1) ""
                  newNodePrinter eq_refl eq_refl ltac:(cbv; lia))
      as [_ Hsuffix].
    destruct (Hsuffix None
                (mkNodePrinter "variable initialization expression of main.S"
                               false true) eq_refl) as [_ Hcontext].
    exact (Hcontext structS eq_refl eq_refl (or_introl eq_refl)
                    (or_introl eq_refl)).
Defined.

(** The options that hide the module [main]; entities are qualified. *)
Definition hidingMainOptions : DemangleOptions := {|
  SynthesizeSugarOnTypes := true;
  QualifyEntities := true;
  DisplayExtensionContexts := true;
  DisplayUnmangledSuffix := true;
  DisplayModuleNames := true;
  DisplayGenericSpecializations := true;
  DisplayProtocolConformances := true;
  DisplayWhereClauses := true;
  DisplayEntityTypes := true;
  DisplayLocalNameContexts := true;
  ShortenPartialApply := false;
  ShortenThunk := false;
  ShortenValueWitness := false;
  ShowPrivateDiscriminators := true;
  ShowFunctionArgumentTypes := true;
  DisplayDebuggerGeneratedModule := true;
  DisplayStdlibModule := true;
  DisplayObjCModule := true;
  PrintForTypeName := false;
  HidingCurrentModule := "main";
  GenericParameterName := genericParameterName
|}.

(** The function type [() -> ()]. *)
Definition voidToVoid : Node :=
  innerNode KFunctionType
    [innerNode KArgumentTuple [innerNode KType [innerNode KTuple []]];
     innerNode KReturnType [innerNode KType [innerNode KTuple []]]].

(** The first closure of the module [main], of type [() -> ()]. *)
Definition closureInMain : Node :=
  innerNode KExplicitClosure
    [textNode KModule "main"; indexNode KNumber 0;
     innerNode KType [voidToVoid]].

(** C7 fails as it is stated: with entity qualification enabled, the context
    of an entity with a multi-word name is not always printed after it.  A
    context that is a module that the options hide is one that
    [printContext] declines, and it is printed nowhere; the same holds of
    an initializer.  With the module not hidden, the context follows. *)
Lemma hidden_context_counterexample :
  QualifyEntities hidingMainOptions = true /\
  contains " " "closure #" = true /\
  printContext swiftExternals hidingMainOptions (textNode KModule "main")
    = Ok false /\
  nodeToString swiftExternals (Some closureInMain) hidingMainOptions
    = Ok "closure #1 () -> ()" /\
  nodeToString swiftExternals (Some closureInMain) defaultOptions
    = Ok "closure #1 () -> () in main" /\
  nodeToString swiftExternals
    (Some (innerNode KInitializer [textNode KModule "main"]))
    hidingMainOptions
    = Ok "variable initialization expression".
Proof. repeat split; vm_compute; reflexivity. Qed.

(** * What a traversal depends on

    The printer reads its own state in three places only: the one-shot flag
    in [printSpecializationPrefix], when generic specializations are not
    displayed, and the size of the buffer, twice, in [printEntity], which
    compares two sizes with each other.  So a change of the state that these
    reads do not see goes through a whole traversal unchanged. *)

(** A run with [T] applied to the state that it ends in. *)
Definition mapState {A} (T : NodePrinter -> NodePrinter)
    (r : Res (A * NodePrinter)) : Res (A * NodePrinter) :=
  match r with
  | Ok (a, st) => Ok (a, T st)
  | Stop e => Stop e
  end.

(** [m] does after the change [T] of the state what it does without it. *)
Definition commutes {A} (T : NodePrinter -> NodePrinter) (m : M A) : Prop :=
  forall st, m (T st) = mapState T (m st).

Lemma commutes_ret {A} T (a : A) : commutes T (ret a).
Proof. intros st. reflexivity. Qed.

Lemma commutes_bind {A B} T (m : M A) (f : A -> M B) :
  commutes T m -> (forall a, commutes T (f a)) -> commutes T (bind m f).
Proof.
  intros Hm Hf st. unfold bind. rewrite Hm.
  destruct (m st) as [[a st'] | e]; [apply Hf | reflexivity].
Qed.

Lemma commutes_lift {A} T (r : Res A) : commutes T (lift r).
Proof. intros st. unfold lift. destruct r; reflexivity. Qed.

Lemma commutes_fail {A} T (e : Failure) : commutes T (@fail A e).
Proof. intros st. reflexivity. Qed.

Lemma commutes_assert T E b : commutes T (assert E b).
Proof.
  unfold assert. destruct (assertsEnabled E && negb b);
    [apply commutes_fail | apply commutes_ret].
Qed.

Lemma eqb_shift (c a b : nat) : (c + a =? c + b) = (a =? b).
Proof.
  destruct (Nat.eqb_spec a b) as [-> | Hne].
  - apply Nat.eqb_refl.
  - apply Nat.eqb_neq. lia.
Qed.

Create HintDb commute.

#[export] Hint Resolve commutes_assert commutes_ret commutes_lift
  commutes_fail : commute.

(** One pass over a computation, by its structure. *)
Ltac co_go :=
  cbv beta iota zeta delta [when done];
  lazymatch goal with
  | |- commutes _ (bind _ _) =>
      apply commutes_bind; [co_go | intros ?; co_go]
  | |- commutes _ (ret _) => apply commutes_ret
  | |- commutes _ (lift _) => apply commutes_lift
  | |- commutes _ (fail _) => apply commutes_fail
  | |- commutes _ (printer_unreachable _) => apply commutes_fail
  | |- commutes _ (if ?b then _ else _) => destruct b; co_go
  | |- commutes _ (match ?x with _ => _ end) => destruct x; co_go
  | |- commutes _ ?m =>
      first [ solve [eauto with commute]
            | fail 1000 "nothing is known about" m ]
  end.

Section Commutation.

Variable E : Externals.
Variable Options : DemangleOptions.

(** The change of the state, and what is asked of it. *)
Variable T : NodePrinter -> NodePrinter.

Hypothesis T_emit : forall s, commutes T (emit s).
Hypothesis T_setInvalid : commutes T setInvalid.
Hypothesis T_size :
  exists c, forall st,
    String.length (Printer (T st)) = c + String.length (Printer st).
Hypothesis T_flag :
  DisplayGenericSpecializations Options = false ->
  commutes T getSpecializationPrefixPrinted /\
  commutes T setSpecializationPrefixPrinted.

Variable print : Node -> bool -> M NodePointer.
Hypothesis print_commutes : forall n b, commutes T (print n b).

Local Open Scope printer_scope.

Hint Resolve T_emit T_setInvalid print_commutes : commute.

(** The two places of [printEntity] that look at the size of the buffer. *)
Lemma commutes_sized {A B} (m : M A) (k : nat -> nat -> A -> M B) :
  commutes T m ->
  (forall pos size a, commutes T (k pos size a)) ->
  (forall c pos size a, k (c + pos) (c + size) a = k pos size a) ->
  commutes T (pos <- getSize ;; a <- m ;; size <- getSize ;; k pos size a).
Proof.
  intros Hm Hk Hshift st. destruct T_size as [c Hc].
  unfold bind, getSize. rewrite Hc, Hm.
  destruct (m st) as [[a st'] | e]; [| reflexivity].
  cbn. rewrite Hc, Hshift. apply Hk.
Qed.

Lemma commutes_printPointer p : commutes T (printPointer print p).
Proof. unfold printPointer. co_go. Qed.

Lemma commutes_printChild Node i : commutes T (printChild print Node i).
Proof. unfold printChild. co_go. Qed.

Hint Resolve commutes_printPointer commutes_printChild : commute.

Lemma commutes_printChildrenRange cs sep :
  commutes T (printChildrenRange print cs sep).
Proof. induction cs as [| c rest IH]; cbn [printChildrenRange]; co_go. Qed.

Hint Resolve commutes_printChildrenRange : commute.

Lemma commutes_printChildren p sep : commutes T (printChildren print p sep).
Proof. unfold printChildren. co_go. Qed.

Hint Resolve commutes_printChildren : commute.

Lemma commutes_printBoundGenericNoSugar Node :
  commutes T (printBoundGenericNoSugar print Node).
Proof. unfold printBoundGenericNoSugar. co_go. Qed.

Lemma commutes_printOptionalIndex node :
  commutes T (printOptionalIndex E node).
Proof. unfold printOptionalIndex. co_go. Qed.

Lemma commutes_printWithParens type : commutes T (printWithParens print type).
Proof. unfold printWithParens. co_go. Qed.

Hint Resolve commutes_printBoundGenericNoSugar commutes_printOptionalIndex
  commutes_printWithParens : commute.

Lemma commutes_printBoundGeneric Node :
  commutes T (printBoundGeneric E Options print Node).
Proof. unfold printBoundGeneric. co_go. Qed.

Lemma commutes_getLabelFor LabelList Index :
  commutes T (getLabelFor E LabelList Index).
Proof. unfold getLabelFor. co_go. Qed.

Hint Resolve commutes_printBoundGeneric commutes_getLabelFor : commute.

Lemma commutes_printParameterList LabelList hasLabels showTypes Params :
  forall ParamIndex,
    commutes T (printParameterList E print LabelList hasLabels showTypes
                                   Params ParamIndex).
Proof.
  induction Params as [| Param rest IH]; intros ParamIndex;
    cbn [printParameterList]; co_go.
Qed.

Hint Resolve commutes_printParameterList : commute.

Lemma commutes_printFunctionParameters LabelList ParameterType showTypes :
  commutes T (printFunctionParameters E print LabelList ParameterType
                                      showTypes).
Proof. unfold printFunctionParameters. co_go. Qed.

Lemma commutes_printConventionWithMangledCType node convention :
  commutes T (printConventionWithMangledCType print node convention).
Proof. unfold printConventionWithMangledCType. co_go. Qed.

Hint Resolve commutes_printFunctionParameters
  commutes_printConventionWithMangledCType : commute.

Lemma commutes_printFunctionType LabelList node :
  commutes T (printFunctionType E Options print LabelList node).
Proof. unfold printFunctionType. co_go. Qed.

Lemma commutes_transitionStep patternSubs curState :
  commutes T (transitionStep print patternSubs curState).
Proof. unfold transitionStep. co_go. Qed.

Hint Resolve commutes_printFunctionType commutes_transitionStep : commute.

Lemma commutes_transitionLoop rounds patternSubs newState :
  forall curState,
    commutes T (transitionLoop print rounds patternSubs curState newState).
Proof.
  induction rounds as [| rounds IH]; intros curState;
    cbn [transitionLoop]; co_go.
Qed.

Hint Resolve commutes_transitionLoop : commute.

Lemma commutes_transitionTo patternSubs curState newState :
  commutes T (transitionTo E print patternSubs curState newState).
Proof. unfold transitionTo. co_go. Qed.

Hint Resolve commutes_transitionTo : commute.

Lemma commutes_printImplFunctionChildren cs :
  forall patternSubs invocationSubs curState,
    commutes T (printImplFunctionChildren E print cs patternSubs
                                          invocationSubs curState).
Proof.
  induction cs as [| child rest IH]; intros patternSubs invocationSubs
    curState; cbn [printImplFunctionChildren]; co_go.
Qed.

Hint Resolve commutes_printImplFunctionChildren : commute.

Lemma commutes_printImplFunctionType fn :
  commutes T (printImplFunctionType E print fn).
Proof.
  unfold printImplFunctionType.
  apply commutes_bind; [co_go |]. intros [[patternSubs invocationSubs] s].
  co_go.
Qed.

Lemma commutes_printClosureArgumentTypes rounds Node :
  forall Idx, commutes T (printClosureArgumentTypes print rounds Node Idx).
Proof.
  induction rounds as [| rounds IH]; intros Idx;
    cbn [printClosureArgumentTypes]; co_go.
Qed.

Hint Resolve commutes_printImplFunctionType
  commutes_printClosureArgumentTypes : commute.

Lemma commutes_printFunctionSigSpecializationParamsFrom rounds Node :
  forall Idx,
    commutes T (printFunctionSigSpecializationParamsFrom E print rounds Node
                                                         Idx).
Proof.
  induction rounds as [| rounds IH]; intros Idx;
    cbn [printFunctionSigSpecializationParamsFrom]; co_go.
Qed.

Hint Resolve commutes_printFunctionSigSpecializationParamsFrom : commute.

Lemma commutes_printFunctionSigSpecializationParams Node :
  commutes T (printFunctionSigSpecializationParams E print Node).
Proof. unfold printFunctionSigSpecializationParams. co_go. Qed.

Hint Resolve commutes_printFunctionSigSpecializationParams : commute.

Lemma commutes_printSpecializationChildren cs ParamPrefix :
  forall Separator argNum,
    commutes T (printSpecializationChildren E print cs ParamPrefix Separator
                                            argNum).
Proof.
  induction cs as [| child rest IH]; intros Separator argNum;
    cbn [printSpecializationChildren]; co_go.
Qed.

Hint Resolve commutes_printSpecializationChildren : commute.

Lemma commutes_printSpecializationPrefix node Description ParamPrefix :
  commutes T (printSpecializationPrefix E Options print node Description
                                        ParamPrefix).
Proof.
  unfold printSpecializationPrefix.
  destruct (DisplayGenericSpecializations Options) eqn:Hdisplay; cbn [negb].
  - co_go.
  - destruct (T_flag eq_refl) as [Hget Hset]. co_go.
Qed.

Lemma commutes_printEntityType Entity type genericFunctionTypeList :
  commutes T (printEntityType E Options print Entity type
                              genericFunctionTypeList).
Proof. unfold printEntityType. co_go. Qed.

Hint Resolve commutes_printSpecializationPrefix commutes_printEntityType
  : commute.

Lemma commutes_printEntity Entity asPrefixContext TypePr hasName ExtraName
    ExtraIndex OverwriteName :
  commutes T (printEntity E Options print Entity asPrefixContext TypePr
                          hasName ExtraName ExtraIndex OverwriteName).
Proof.
  unfold printEntity.
  apply commutes_bind; [co_go |]. intros [genericFunctionTypeList Entity'].
  cbv beta iota zeta.
  apply commutes_bind; [co_go |]. intros LocalName.
  match goal with
  | |- commutes _ (if ?b then _ else _) => destruct b; [co_go |]
  end.
  apply commutes_bind; [co_go |]. intros Context.
  apply commutes_bind; [co_go |]. intros shown.
  apply commutes_bind.
  { destruct shown; [| co_go].
    match goal with
    | |- commutes _ (if ?b then _ else _) => destruct b; [co_go |]
    end.
    apply (commutes_sized (print Context true)
             (fun pos size a =>
                when (negb (size =? pos)) (emit ".") ;; ret a)).
    - co_go.
    - intros pos size a. co_go.
    - intros c pos size a. rewrite eqb_shift. reflexivity. }
  intros PostfixContext.
  apply commutes_bind.
  { match goal with
    | |- commutes _ (if ?b then _ else _) => destruct b; [| co_go]
    end.
    apply commutes_bind; [co_go |]. intros _.
    apply commutes_bind; [co_go |]. intros ExtraName'.
    match goal with
    | |- commutes _ (bind getSize (fun pos => bind ?m _)) =>
        apply (commutes_sized m
                 (fun pos size a =>
                    when (negb (size =? pos) && negb (empty ExtraName'))
                         (emit ".") ;;
                    ret ExtraName'))
    end.
    - co_go.
    - intros pos size a. co_go.
    - intros c pos size a. rewrite eqb_shift. reflexivity. }
  intros ExtraName''.
  co_go.
Qed.

Hint Resolve commutes_printEntity : commute.

Lemma commutes_printAbstractStorage Node asPrefixContent ExtraName :
  commutes T (printAbstractStorage E Options print Node asPrefixContent
                                   ExtraName).
Proof. unfold printAbstractStorage. co_go. Qed.

Lemma commutes_printSeparated sep cs :
  forall isFirst, commutes T (printSeparated print sep isFirst cs).
Proof.
  induction cs as [| c rest IH]; intros isFirst; cbn [printSeparated]; co_go.
Qed.

Lemma commutes_printWithAnd cs :
  forall i, commutes T (printWithAnd print i cs).
Proof. induction cs as [| c rest IH]; intros i; cbn [printWithAnd]; co_go. Qed.

Lemma commutes_printKeyPathChildren cs :
  commutes T (printKeyPathChildren print cs).
Proof. induction cs as [| c rest IH]; cbn [printKeyPathChildren]; co_go. Qed.

Lemma commutes_printBoxFields cs :
  forall isFirst, commutes T (printBoxFields print isFirst cs).
Proof.
  induction cs as [| c rest IH]; intros isFirst; cbn [printBoxFields]; co_go.
Qed.

Lemma commutes_printGenericParameters rounds depth count :
  forall index,
    commutes T (printGenericParameters Options rounds depth index count).
Proof.
  induction rounds as [| rounds IH]; intros index;
    cbn [printGenericParameters]; co_go.
Qed.

Hint Resolve commutes_printAbstractStorage commutes_printSeparated
  commutes_printWithAnd commutes_printKeyPathChildren commutes_printBoxFields
  commutes_printGenericParameters : commute.

Lemma commutes_printGenericParameterLists cs :
  forall depth, commutes T (printGenericParameterLists Options cs depth).
Proof.
  induction cs as [| c rest IH]; intros depth;
    cbn [printGenericParameterLists]; co_go.
Qed.

Lemma commutes_printPrefixed phrase Node i :
  commutes T (printPrefixed print phrase Node i).
Proof. unfold printPrefixed. co_go. Qed.

Lemma commutes_printNodeText Node : commutes T (printNodeText Node).
Proof. unfold printNodeText. co_go. Qed.

Lemma commutes_printNodeIndex Node : commutes T (printNodeIndex Node).
Proof. unfold printNodeIndex. co_go. Qed.

Lemma commutes_printDemangled Node : commutes T (printDemangled E Node).
Proof. unfold printDemangled. co_go. Qed.

Lemma commutes_printParamKind Node : commutes T (printParamKind E Node).
Proof. unfold printParamKind. co_go. Qed.

Hint Resolve commutes_printGenericParameterLists commutes_printPrefixed
  commutes_printNodeText commutes_printNodeIndex commutes_printDemangled
  commutes_printParamKind : commute.

Lemma commutes_printNode Node asPrefixContext :
  commutes T (printNode E Options print Node asPrefixContext).
Proof. unfold printNode. destruct (getKind Node); co_go. Qed.

End Commutation.

(** The whole traversal goes through a change of the state that the three
    reads do not see. *)
Lemma print_commutes E Options T :
  (forall s, commutes T (emit s)) ->
  commutes T setInvalid ->
  (exists c, forall st,
      String.length (Printer (T st)) = c + String.length (Printer st)) ->
  (DisplayGenericSpecializations Options = false ->
   commutes T getSpecializationPrefixPrinted /\
   commutes T setSpecializationPrefixPrinted) ->
  forall stack Node asPrefixContext,
    commutes T (print E Options stack Node asPrefixContext).
Proof.
  intros Hemit Hinvalid Hsize Hflag.
  induction stack as [| stack IH]; intros Node asPrefixContext.
  - apply commutes_fail.
  - apply commutes_printNode; assumption.
Qed.

(** The state with [p] put in front of the buffer. *)
Definition prefixed (p : string) (st : NodePrinter) : NodePrinter :=
  mkNodePrinter (p ++ Printer st) (SpecializationPrefixPrinted st)
                (isValid st).

(** The state with the one-shot flag replaced by [f]. *)
Definition withFlag (f : bool) (st : NodePrinter) : NodePrinter :=
  mkNodePrinter (Printer st) f (isValid st).

Lemma length_append (a b : string) :
  String.length (a ++ b) = String.length a + String.length b.
Proof. induction a as [| c a IH]; cbn; [| rewrite IH]; reflexivity. Qed.

Lemma prefixed_commutes E Options p stack Node asPrefixContext :
  commutes (prefixed p) (print E Options stack Node asPrefixContext).
Proof.
  apply print_commutes.
  - intros s st. unfold emit, prefixed, mapState. cbn.
    rewrite append_assoc. reflexivity.
  - intros st. reflexivity.
  - exists (String.length p). intros st. apply length_append.
  - intros _. split; intros st; reflexivity.
Qed.

(** X1: what a traversal appends to the buffer, what it returns and the flags
    that it leaves do not depend on what the buffer holds when it starts: with
    [p] in front of the buffer at the start, the run is the same, with [p] in
    front of the buffer at the end.  In particular a traversal only ever
    appends: the buffer at its end is the buffer at its start followed by what
    the same traversal prints into an empty buffer. *)
Theorem print_independent_of_buffer E Options stack Node asPrefixContext :
  (forall p st,
     print E Options stack Node asPrefixContext (prefixed p st) =
     mapState (prefixed p) (print E Options stack Node asPrefixContext st)) /\
  (forall st,
     print E Options stack Node asPrefixContext st =
     mapState (prefixed (Printer st))
       (print E Options stack Node asPrefixContext
          (mkNodePrinter "" (SpecializationPrefixPrinted st) (isValid st)))).
Proof.
  split.
  - intros p st. apply prefixed_commutes.
  - intros st. rewrite <- prefixed_commutes. f_equal.
    destruct st as [buf f v]. unfold prefixed. cbn.
    rewrite append_empty_r. reflexivity.
Qed.

(** X2: a traversal never reads the validity flag: started with the flag
    cleared, it prints and returns what it does with the flag set, so that
    after a soft failure the rest of the tree is still printed as it would
    have been, and only the flag tells at the end. *)
Theorem print_never_reads_validity E Options stack Node asPrefixContext st :
  print E Options stack Node asPrefixContext (invalidated st) =
  mapState invalidated (print E Options stack Node asPrefixContext st).
Proof.
  revert st. apply print_commutes.
  - intros s st. reflexivity.
  - intros st. reflexivity.
  - exists 0. intros st. reflexivity.
  - intros _. split; intros st; reflexivity.
Qed.

(** X3: when generic specializations are displayed, the one-shot flag is
    neither read nor written: a traversal leaves it as it finds it, and prints
    the same whatever it is. *)
Theorem print_verbose_ignores_flag E Options stack Node asPrefixContext f st :
  DisplayGenericSpecializations Options = true ->
  print E Options stack Node asPrefixContext (withFlag f st) =
  mapState (withFlag f) (print E Options stack Node asPrefixContext st).
Proof.
  intros Hdisplay. revert st. apply print_commutes.
  - intros s st. reflexivity.
  - intros st. reflexivity.
  - exists 0. intros st. reflexivity.
  - intros Hterse. rewrite Hdisplay in Hterse. discriminate.
Qed.

Lemma print_verbose_ignores_flag_witness :
  print swiftExternals defaultOptions 3 twiceSpecialized false
        (withFlag true newNodePrinter) =
  mapState (withFlag true)
    (print swiftExternals defaultOptions 3 twiceSpecialized false
           newNodePrinter).
Proof.
  apply print_verbose_ignores_flag. reflexivity.
Defined.

(** * More on the string-quoting routine *)

(** The value of a hexadecimal digit as [Hexdigit] writes it. *)
Definition hexValue (c : ascii) : N :=
  let n := N_of_ascii c in
  if (n <? 58)%N then (n - 48)%N else (n - 55)%N.

(** Reading back the first escape of a quoted string: the byte that it
    stands for, and what follows it. *)
Definition readEscape (s : string) : option (ascii * string) :=
  match s with
  | String "\" (String "\" rest) => Some ("\"%char, rest)
  | String "\" (String "t" rest) => Some ("009"%char, rest)
  | String "\" (String "n" rest) => Some ("010"%char, rest)
  | String "\" (String "r" rest) => Some ("013"%char, rest)
  | String "\" (String "0" rest) => Some ("000"%char, rest)
  | String "\" (String "x" (String h (String l rest))) =>
      Some (ascii_of_N (16 * hexValue h + hexValue l), rest)
  | String "\" (String c rest) =>
      if Ascii.eqb c DQ then Some (DQ, rest) else None
  | String c rest => Some (c, rest)
  | EmptyString => None
  end.

Lemma readEscape_quoteChar (C : ascii) (rest : string) :
  readEscape (quoteChar C ++ rest) = Some (C, rest).
Proof.
  destruct C as [[] [] [] [] [] [] [] []]; vm_compute; reflexivity.
Qed.

Lemma quoteChar_not_quote (C : ascii) (rest : string) :
  quoteChar C ++ rest <> str DQ.
Proof.
  destruct C as [[] [] [] [] [] [] [] []]; vm_compute; discriminate.
Qed.

Lemma quoteChars_closed_inj (a b : string) :
  quoteChars a ++ str DQ = quoteChars b ++ str DQ -> a = b.
Proof.
  revert b. induction a as [| c a IH]; intros [| d b] H; cbn in H.
  - reflexivity.
  - exfalso. rewrite append_assoc in H. symmetry in H.
    exact (quoteChar_not_quote _ _ H).
  - exfalso. rewrite append_assoc in H. exact (quoteChar_not_quote _ _ H).
  - rewrite !append_assoc in H.
    apply (f_equal readEscape) in H. rewrite !readEscape_quoteChar in H.
    injection H as -> H. f_equal. apply IH. exact H.
Qed.

(** X4: quoting loses nothing: two byte sequences that differ are quoted
    differently. *)
Theorem QuotedString_injective (a b : string) :
  a <> b -> QuotedString a <> QuotedString b.
Proof.
  intros Hne H. apply Hne. unfold QuotedString in H.
  cbn in H. injection H as H. apply quoteChars_closed_inj. exact H.
Qed.

Lemma QuotedString_injective_witness :
  QuotedString (String "009" "") <> QuotedString "\t".
Proof. apply QuotedString_injective. discriminate. Defined.

(** A printable ASCII character: 0x20 to 0x7E. *)
Definition isPrintable (c : ascii) : bool :=
  let n := N_of_ascii c in ((32 <=? n) && (n <? 127))%N.

Fixpoint allPrintable (s : string) : bool :=
  match s with
  | EmptyString => true
  | String c rest => isPrintable c && allPrintable rest
  end.

Lemma allPrintable_append (a b : string) :
  allPrintable (a ++ b) = allPrintable a && allPrintable b.
Proof.
  induction a as [| c a IH]; cbn; [reflexivity |].
  rewrite IH, andb_assoc. reflexivity.
Qed.

Lemma quoteChar_printable (C : ascii) :
  allPrintable (quoteChar C) = true /\
  1 <= String.length (quoteChar C) <= 4.
Proof.
  destruct C as [[] [] [] [] [] [] [] []]; vm_compute; repeat split;
    repeat constructor.
Qed.

Lemma quoteChars_printable (Value : string) :
  allPrintable (quoteChars Value) = true /\
  String.length Value <= String.length (quoteChars Value)
    <= 4 * String.length Value.
Proof.
  induction Value as [| C rest [IHp IHl]]; cbn [quoteChars String.length].
  - split; [reflexivity | lia].
  - destruct (quoteChar_printable C) as [Hp Hl].
    rewrite allPrintable_append, length_append, Hp, IHp.
    split; [reflexivity | lia].
Qed.

(** X5: whatever the bytes are, the quoted string is made of printable ASCII
    characters only, and takes between one and four characters for every byte,
    and two for the quotes. *)
Theorem QuotedString_printable (Value : string) :
  allPrintable (QuotedString Value) = true /\
  String.length Value + 2 <= String.length (QuotedString Value)
    <= 4 * String.length Value + 2.
Proof.
  destruct (quoteChars_printable Value) as [Hp Hl].
  unfold QuotedString.
  rewrite !allPrintable_append, !length_append, Hp.
  split; [reflexivity |]. cbn [str String.length]. lia.
Qed.

(** * More on the default generic-parameter namer *)


Fixpoint allDigits (s : string) : Prop :=
  match s with
  | EmptyString => True
  | String c rest => (48 <= N_of_ascii c <= 57)%N /\ allDigits rest
  end.

Lemma string_of_uint_digits (d : Decimal.uint) :
  allDigits (NilEmpty.string_of_uint d).
Proof.
  induction d; cbn; try exact I; (split; [cbv; split; discriminate |]);
    assumption.
Qed.

Lemma to_uint_nonnil (n : N) : N.to_uint n <> Decimal.Nil.
Proof.
  intros H. pose proof (f_equal N.of_uint H) as H0.
  rewrite DecimalN.Unsigned.of_to in H0. cbn in H0.
  subst n. discriminate H.
Qed.

Lemma decimal_digits (n : N) : allDigits (decimal n) /\ decimal n <> "".
Proof.
  unfold decimal, NilZero.string_of_uint.
  pose proof (to_uint_nonnil n) as Hn.
  pose proof (string_of_uint_digits (N.to_uint n)) as Hd.
  destruct (N.to_uint n); try contradiction; split; try exact Hd;
    discriminate.
Qed.

Lemma decimal_inj (a b : N) : decimal a = decimal b -> a = b.
Proof.
  unfold decimal. intros H.
  apply (f_equal NilZero.uint_of_string) in H.
  rewrite !NilZero.usu in H by apply to_uint_nonnil.
  injection H as H. apply (f_equal N.of_uint) in H.
  rewrite !DecimalN.Unsigned.of_to in H. exact H.
Qed.

(** Letters followed by digits split in one way only. *)
Lemma letters_digits_split (l1 l2 s1 s2 : string) :
  allUpperCase l1 -> allUpperCase l2 -> allDigits s1 -> allDigits s2 ->
  l1 ++ s1 = l2 ++ s2 -> l1 = l2 /\ s1 = s2.
Proof.
  revert l2. induction l1 as [| c l1 IH]; intros [| d l2] Hl1 Hl2 Hs1 Hs2 H;
    cbn in *.
  - split; [reflexivity | exact H].
  - exfalso. subst s1. cbn in Hs1. lia.
  - exfalso. subst s2. cbn in Hs2. lia.
  - injection H as -> H.
    destruct (IH l2 (proj2 Hl1) (proj2 Hl2) Hs1 Hs2 H) as [-> ->].
    split; reflexivity.
Qed.

Lemma genericParameterName_inj (depth1 index1 depth2 index2 : N) :
  genericParameterName depth1 index1 = genericParameterName depth2 index2 ->
  depth1 = depth2 /\ index1 = index2.
Proof.
  unfold genericParameterName. intros H.
  destruct (genericParameterLetters_spec index1) as (Hup1 & Hval1 & _).
  destruct (genericParameterLetters_spec index2) as (Hup2 & Hval2 & _).
  assert (Hsuffix : forall d : N,
            allDigits (if (d =? 0)%N then "" else decimal d)).
  { intros d. destruct (d =? 0)%N; [exact I | apply decimal_digits]. }
  destruct (letters_digits_split _ _ _ _ Hup1 Hup2
              (Hsuffix depth1) (Hsuffix depth2) H) as [Hl Hs].
  split.
  - destruct (N.eqb_spec depth1 0) as [-> | H1];
      destruct (N.eqb_spec depth2 0) as [-> | H2].
    + reflexivity.
    + exfalso. symmetry in Hs. exact (proj2 (decimal_digits depth2) Hs).
    + exfalso. exact (proj2 (decimal_digits depth1) Hs).
    + apply decimal_inj. exact Hs.
  - rewrite <- Hval1, <- Hval2, Hl. reflexivity.
Qed.

(** X6: the default namer gives different names to different parameters:
    parameters that differ in their depth or in their index have different
    names, whatever the two numbers are. *)
Theorem genericParameterName_injective (depth1 index1 depth2 index2 : N) :
  depth1 <> depth2 \/ index1 <> index2 ->
  genericParameterName depth1 index1 <> genericParameterName depth2 index2.
Proof.
  intros Hne H. destruct (genericParameterName_inj _ _ _ _ H) as [Hd Hi].
  destruct Hne as [Hne | Hne]; contradiction.
Qed.

Lemma genericParameterName_injective_witness :
  genericParameterName 0 27 <> genericParameterName 1 1.
Proof.
  apply genericParameterName_injective. left. discriminate.
Defined.

(** * How the output of a node is put together from that of its children *)

(** [prints E Options stack n out]: whatever has been printed before, the
    node [n] appends [out] to it and leaves the two flags as they are. *)
Definition prints (E : Externals) (Options : DemangleOptions) (stack : nat)
    (n : Node) (out : string) : Prop :=
  forall st, exists r,
    print E Options stack n false st = Ok (r, appended st out).

Lemma appended_empty st : appended st "" = st.
Proof.
  destruct st. unfold appended. cbn. rewrite append_empty_r. reflexivity.
Qed.

Lemma appended_appended st a b :
  appended (appended st a) b = appended st (a ++ b).
Proof. unfold appended. cbn. rewrite append_assoc. reflexivity. Qed.

Lemma emit_appended s st : emit s st = Ok (tt, appended st s).
Proof. reflexivity. Qed.

(** The separator of [printChildren], which may be null. *)
Definition separator (sep : option string) : string :=
  match sep with
  | Some s => s
  | None => ""
  end.

Section Composition.

Variable E : Externals.
Variable Options : DemangleOptions.
Variable stack : nat.

Local Open Scope printer_scope.

Lemma printChildrenRange_prints sep cs outs :
  Forall2 (prints E Options stack) cs outs ->
  forall st,
    printChildrenRange (print E Options stack) cs sep st =
    Ok (tt, appended st (String.concat (separator sep) outs)).
Proof.
  induction 1 as [| c out cs' outs' Hc Hrest IH]; intros st.
  - cbn. rewrite appended_empty. reflexivity.
  - cbn [printChildrenRange]. unfold bind at 1.
    destruct (Hc st) as [r ->].
    destruct Hrest as [| c2 out2 cs2 outs2 Hc2 Hrest2].
    + destruct sep; cbn; rewrite ?append_empty_r; reflexivity.
    + destruct sep as [s |]; unfold bind at 1.
      * rewrite emit_appended, IH, !appended_appended. reflexivity.
      * cbn [ret]. rewrite IH, appended_appended. reflexivity.
Qed.

Lemma printChild_prints Node i c out :
  getChild Node i = Ok c -> prints E Options stack c out ->
  forall st,
    printChild (print E Options stack) Node i st = Ok (tt, appended st out).
Proof.
  intros Hc Hout st. unfold printChild, bind, lift. rewrite Hc.
  destruct (Hout st) as [r ->]. reflexivity.
Qed.

(** The kinds whose output is a fixed opening, the children one after the
    other with a fixed separator between them, and a fixed closing. *)
Definition childrenLayout (k : Kind) : option (string * string * string) :=
  match k with
  | KTuple => Some ("(", ", ", ")")
  | KTypeList | KGlobal | KAnyProtocolConformanceList => Some ("", "", "")
  | KAssocTypePath => Some ("", ".", "")
  | KImplErrorResult => Some ("@error ", " ", "")
  | KImplYield => Some ("@yields ", " ", "")
  | KOpaqueReturnTypeOf => Some ("<<opaque return type of ", "", ">>")
  | KAssociatedTypeGenericParamRef =>
      Some ("generic parameter reference for associated type ", "", "")
  | KDependentAssociatedConformance =>
      Some ("dependent associated conformance ", "", "")
  | KProtocolConformanceRefInTypeModule =>
      Some ("protocol conformance ref (type's module) ", "", "")
  | KProtocolConformanceRefInProtocolModule =>
      Some ("protocol conformance ref (protocol's module) ", "", "")
  | KProtocolConformanceRefInOtherModule =>
      Some ("protocol conformance ref (retroactive) ", "", "")
  | _ => None
  end.

(** X7: a tuple is its elements between parentheses, with a comma and a space
    between two of them and none after the last; a type list and a global are
    their children one after the other; and so on for the other kinds that
    only print their children. *)
Theorem children_in_order kind text index cs outs opening sep closing :
  childrenLayout kind = Some (opening, sep, closing) ->
  Forall2 (prints E Options stack) cs outs ->
  forall st,
    print E Options (S stack) (mkNode kind text index cs) false st =
    Ok (None, appended st (opening ++ String.concat sep outs ++ closing)).
Proof.
  intros Hlayout H st.
  destruct kind; try discriminate Hlayout;
    injection Hlayout as <- <- <-;
    cbn [print printNode getKind printChildren getChildren];
    unfold bind, done, ret;
    rewrite ?emit_appended, (printChildrenRange_prints _ _ _ H),
      ?emit_appended, ?appended_appended, ?append_empty_r;
    reflexivity.
Qed.

(** X8: a protocol composition is its members joined by [" & "]: after the
    superclass if there is one, before [AnyObject] if it is one of them, and
    [Any] if there is nothing at all. *)
Theorem protocol_lists_joined (text : option string) (index : option N)
    (text' : option string) (index' : option N) (members : list Node)
    (outs : list string) (more : list Node) :
  Forall2 (prints E Options stack) members outs ->
  let type_list := mkNode KTypeList text' index' members in
  (forall st,
     print E Options (S stack)
           (mkNode KProtocolList text index (type_list :: more)) false st =
     Ok (None, appended st (match members with
                            | [] => "Any"
                            | _ :: _ => String.concat " & " outs
                            end))) /\
  (forall protocols superclass outS st,
     getChildren protocols = [type_list] ->
     prints E Options stack superclass outS ->
     print E Options (S stack)
           (mkNode KProtocolListWithClass text index
                   (protocols :: superclass :: more)) false st =
     Ok (None, appended st (outS ++ " & " ++ String.concat " & " outs))) /\
  (forall protocols st,
     getChildren protocols = [type_list] ->
     print E Options (S stack)
           (mkNode KProtocolListWithAnyObject text index (protocols :: more))
           false st =
     Ok (None,
         appended st
           ((match members with
             | [] => ""
             | _ :: _ => String.concat " & " outs ++ " & "
             end) ++
            (if QualifyEntities Options && DisplayStdlibModule Options
             then STDLIB_NAME E ++ "." else "") ++
            "AnyObject"))).
Proof.
  intros H type_list.
  pose proof (printChildrenRange_prints (Some " & ") _ _ H) as Hjoin.
  cbn [separator] in Hjoin.
  split; [| split].
  - intros st. cbn [print printNode getKind]. unfold bind, lift, done, ret.
    cbn [getChild getChildren nth_error type_list getNumChildren].
    destruct H as [| c out cs' outs' Hc Hrest].
    + reflexivity.
    + cbn [length Nat.eqb printChildren getChildren].
      rewrite Hjoin. reflexivity.
  - intros protocols superclass outS st Hp HS.
    cbn [print printNode getKind]. unfold bind, lift, done, ret.
    cbn [getNumChildren getChildren length Nat.ltb Nat.leb getChild
         nth_error].
    destruct (HS st) as [r ->]. rewrite emit_appended.
    unfold getNumChildren, getChild. rewrite Hp.
    cbn [length Nat.ltb Nat.leb nth_error printChildren getChildren
         type_list].
    rewrite Hjoin, !appended_appended. reflexivity.
  - intros protocols st Hp.
    cbn [print printNode getKind]. unfold bind, lift, done, ret.
    cbn [getNumChildren getChildren length Nat.ltb Nat.leb getChild
         nth_error].
    unfold getNumChildren, getChild. rewrite Hp.
    cbn [length Nat.ltb Nat.leb nth_error printChildren getChildren
         type_list].
    destruct H as [| c out cs' outs' Hc Hrest].
    + cbn [length Nat.ltb Nat.leb].
      destruct (QualifyEntities Options && DisplayStdlibModule Options);
        rewrite !emit_appended, ?appended_appended, ?append_assoc;
        reflexivity.
    + cbn [length Nat.ltb Nat.leb]. rewrite Hjoin.
      destruct (QualifyEntities Options && DisplayStdlibModule Options);
        rewrite !emit_appended, ?appended_appended, ?append_assoc;
        reflexivity.
Qed.

(** The kinds that [print] hands to [printBoundGeneric]. *)
Definition isBoundGenericKind (k : Kind) : bool :=
  match k with
  | KBoundGenericClass | KBoundGenericStructure | KBoundGenericEnum
  | KBoundGenericProtocol | KBoundGenericOtherNominalType
  | KBoundGenericTypeAlias => true
  | _ => false
  end.

(** X9: a bound generic type with fewer than two children prints nothing at
    all.  One with more than two, a bound generic class, and any one when
    sugar is not synthesized, is the base followed by the type arguments
    between angle brackets, with a comma and a space between two of them. *)
Theorem bound_generic_without_sugar kind text index :
  isBoundGenericKind kind = true ->
  (forall cs st,
     length cs < 2 ->
     print E Options (S stack) (mkNode kind text index cs) false st =
     Ok (None, st)) /\
  (forall base typelist more outB outs st,
     SynthesizeSugarOnTypes Options = false \/ kind = KBoundGenericClass \/
     more <> [] ->
     prints E Options stack base outB ->
     Forall2 (prints E Options stack) (getChildren typelist) outs ->
     print E Options (S stack)
           (mkNode kind text index (base :: typelist :: more)) false st =
     Ok (None,
         appended st (outB ++ "<" ++ String.concat ", " outs ++ ">"))).
Proof.
  intros Hkind. split.
  - intros cs st Hlen.
    assert (Hlt : (getNumChildren (mkNode kind text index cs) <? 2) = true)
      by (apply Nat.ltb_lt; exact Hlen).
    destruct kind; try discriminate Hkind;
      cbn [print printNode getKind]; unfold printBoundGeneric;
      rewrite Hlt; reflexivity.
  - intros base typelist more outB outs st Hwhy HB Hargs.
    set (n := mkNode kind text index (base :: typelist :: more)).
    assert (HnoSugar : printBoundGenericNoSugar (print E Options stack) n st
                       = Ok (tt, appended st (outB ++ "<" ++
                                   String.concat ", " outs ++ ">"))).
    { unfold printBoundGenericNoSugar, n. cbn [getNumChildren getChildren
        length Nat.ltb Nat.leb]. unfold bind at 1. cbn [lift getChild
        getChildren nth_error]. unfold bind at 1.
      rewrite (printChild_prints
                 (mkNode kind text index (base :: typelist :: more)) 0 base
                 outB eq_refl HB).
      unfold bind. rewrite emit_appended. cbn [printChildren].
      rewrite (printChildrenRange_prints (Some ", ") _ _ Hargs).
      rewrite emit_appended, !appended_appended. reflexivity. }
    assert (Hrun : printBoundGeneric E Options (print E Options stack) n st
                   = Ok (tt, appended st (outB ++ "<" ++
                               String.concat ", " outs ++ ">"))).
    { unfold printBoundGeneric.
      change (getNumChildren n) with (S (S (length more))).
      cbn [Nat.ltb Nat.leb].
      destruct more as [| m more'].
      - cbn [length Nat.eqb negb].
        destruct Hwhy as [Hoff | [Hclass | Hmore]].
        + rewrite Hoff. exact HnoSugar.
        + replace (isKind n KBoundGenericClass) with true
            by (unfold isKind, n; rewrite Hclass; reflexivity).
          rewrite orb_true_r. exact HnoSugar.
        + contradiction Hmore. reflexivity.
      - exact HnoSugar. }
    destruct kind; try discriminate Hkind;
      cbn [print]; unfold printNode;
      match goal with
      | |- context [getKind n] =>
          let k := eval cbv in (getKind n) in change (getKind n) with k
      end;
      cbv beta iota; unfold bind; rewrite Hrun; reflexivity.
Qed.

End Composition.

(** A node that prints [out] into an empty buffer prints it into any. *)
Lemma prints_of_empty E Options stack n out :
  (forall f v, exists r,
      print E Options stack n false (mkNodePrinter "" f v) =
      Ok (r, mkNodePrinter out f v)) ->
  prints E Options stack n out.
Proof.
  intros H [buf f v]. destruct (H f v) as [r Hr]. exists r.
  pose proof (prefixed_commutes E Options buf stack n false
                (mkNodePrinter "" f v)) as Hc.
  unfold prefixed in Hc at 1. cbn [Printer SpecializationPrefixPrinted
    isValid] in Hc. rewrite append_empty_r, Hr in Hc. exact Hc.
Qed.

Lemma swiftInt_prints stack :
  prints swiftExternals defaultOptions (3 + stack) swiftInt "Swift.Int".
Proof.
  apply prints_of_empty. intros f v. exists None.
  destruct f, v; reflexivity.
Qed.

Lemma swiftString_prints stack :
  prints swiftExternals defaultOptions (3 + stack) swiftString "Swift.String".
Proof.
  apply prints_of_empty. intros f v. exists None.
  destruct f, v; reflexivity.
Qed.

Lemma children_in_order_witness :
  print swiftExternals defaultOptions 4
        (innerNode KTuple [swiftInt; swiftString]) false newNodePrinter =
  Ok (None, mkNodePrinter "(Swift.Int, Swift.String)" false true).
Proof.
  exact (children_in_order swiftExternals defaultOptions 3 KTuple None None
           [swiftInt; swiftString] ["Swift.Int"; "Swift.String"]
           "(" ", " ")" eq_refl
           (Forall2_cons _ _ (swiftInt_prints 0)
              (Forall2_cons _ _ (swiftString_prints 0) (Forall2_nil _)))
           newNodePrinter).
Defined.

Lemma protocol_lists_joined_witness :
  print swiftExternals defaultOptions 4
        (innerNode KProtocolList
           [innerNode KTypeList [swiftInt; swiftString]]) false
        newNodePrinter =
  Ok (None, mkNodePrinter "Swift.Int & Swift.String" false true) /\
  print swiftExternals defaultOptions 4
        (innerNode KProtocolListWithAnyObject
           [innerNode KProtocolList
              [innerNode KTypeList [swiftInt; swiftString]]]) false
        newNodePrinter =
  Ok (None,
      mkNodePrinter "Swift.Int & Swift.String & Swift.AnyObject" false true).
Proof.
  pose proof (protocol_lists_joined swiftExternals defaultOptions 3 None None
                None None [swiftInt; swiftString]
                ["Swift.Int"; "Swift.String"] []
                (Forall2_cons _ _ (swiftInt_prints 0)
                   (Forall2_cons _ _ (swiftString_prints 0) (Forall2_nil _))))
    as (Hlist & _ & Hany).
  split.
  - exact (Hlist newNodePrinter).
  - exact (Hany (innerNode KProtocolList
                   [innerNode KTypeList [swiftInt; swiftString]])
                newNodePrinter eq_refl).
Defined.

Lemma bound_generic_without_sugar_witness :
  print swiftExternals defaultOptions 4
        (innerNode KBoundGenericClass
           [swiftInt; innerNode KTypeList [swiftString; swiftInt]]) false
        newNodePrinter =
  Ok (None,
      mkNodePrinter "Swift.Int<Swift.String, Swift.Int>" false true).
Proof.
  exact (proj2 (bound_generic_without_sugar swiftExternals defaultOptions 3
                  KBoundGenericClass None None eq_refl)
           swiftInt (innerNode KTypeList [swiftString; swiftInt]) []
           "Swift.Int" ["Swift.String"; "Swift.Int"] newNodePrinter
           (or_intror (or_introl eq_refl)) (swiftInt_prints 0)
           (Forall2_cons _ _ (swiftString_prints 0)
              (Forall2_cons _ _ (swiftInt_prints 0) (Forall2_nil _)))).
Defined.

(** * Function types and their parameters *)

Lemma assert_true E : assert E true = ret tt.
Proof. unfold assert. cbn [negb]. rewrite andb_false_r. reflexivity. Qed.

Lemma concat_empty_cons (x : string) (l : list string) :
  String.concat "" (x :: l) = x ++ String.concat "" l.
Proof. destruct l; cbn; [rewrite append_empty_r |]; reflexivity. Qed.

(** ** Following a run step by step *)

Lemma run_bind_assoc {A B C} (m : M A) (f : A -> M B) (g : B -> M C) st :
  bind (bind m f) g st = bind m (fun a => bind (f a) g) st.
Proof. unfold bind. destruct (m st) as [[a st'] | e]; reflexivity. Qed.

Lemma run_ret {A B} (a : A) (f : A -> M B) st : bind (ret a) f st = f a st.
Proof. reflexivity. Qed.

Lemma run_emit {B} s (f : unit -> M B) st :
  bind (emit s) f st = f tt (appended st s).
Proof. reflexivity. Qed.

Lemma run_lift {A B} (a : A) (f : A -> M B) st :
  bind (lift (Ok a)) f st = f a st.
Proof. reflexivity. Qed.

Lemma run_assert {B} E (f : unit -> M B) st :
  bind (assert E true) f st = f tt st.
Proof. rewrite assert_true. reflexivity. Qed.

Lemma run_to {A B} (m : M A) (f : A -> M B) st a st' :
  m st = Ok (a, st') -> bind m f st = f a st'.
Proof. intros H. unfold bind. rewrite H. reflexivity. Qed.

Lemma run_stop {A B} (m : M A) (f : A -> M B) st e :
  m st = Stop e -> bind m f st = Stop e.
Proof. intros H. unfold bind. rewrite H. reflexivity. Qed.

(** Make a closed condition [true] or [false]. *)
Ltac decide_condition b :=
  let b' := eval cbv in b in
  lazymatch b' with
  | true => change b with true
  | false => change b with false
  end.

(** One step of the run at the head of the goal. *)
Ltac run_step :=
  lazymatch goal with
  | |- bind (bind _ _) _ _ = _ => refine (eq_trans (run_bind_assoc _ _ _ _) _)
  | |- bind (ret _) _ _ = _ => refine (eq_trans (run_ret _ _ _) _)
  | |- bind done _ _ = _ => refine (eq_trans (run_ret _ _ _) _)
  | |- bind (emit _) _ _ = _ => refine (eq_trans (run_emit _ _ _) _)
  | |- bind (lift (Ok _)) _ _ = _ => refine (eq_trans (run_lift _ _ _) _)
  | |- bind (assert _ true) _ _ = _ =>
      refine (eq_trans (run_assert _ _ _) _)
  | |- bind (when true _) _ _ = _ => unfold when at 1
  | |- bind (when false _) _ _ = _ => unfold when at 1
  | |- bind (print _ _ _ ?c false) _ ?st = _ =>
      match goal with
      | H : prints _ _ _ c _ |- _ =>
          let r := fresh "r" in
          let Hr := fresh "Hr" in
          destruct (H st) as [r Hr];
          refine (eq_trans (run_to _ _ _ _ _ Hr) _); clear Hr
      end
  | |- bind (if ?b then _ else _) _ _ = _ => decide_condition b
  | |- bind (match ?b with true => _ | false => _ end) _ _ = _ =>
      decide_condition b
  | |- (if ?b then _ else _) _ = _ => decide_condition b
  | |- bind (assert _ ?b) _ _ = _ => decide_condition b
  | |- bind (when ?b _) _ _ = _ => decide_condition b
  | |- bind (lift ?r) _ _ = _ =>
      let r' := eval cbn in r in
      lazymatch r' with
      | Ok _ => change r with r'
      end
  | |- ret _ _ = _ => unfold ret
  | |- done _ = _ => unfold done, ret
  | |- emit _ _ = _ => rewrite emit_appended
  end;
  cbv beta iota.

Ltac run :=
  repeat run_step;
  rewrite ?appended_appended, ?appended_empty, ?append_assoc.

Section FunctionTypes.

Variable E : Externals.
Variable Options : DemangleOptions.
Variable stack : nat.

Local Open Scope printer_scope.

Lemma printParameterList_prints params outs :
  Forall (fun p => isKind p KTupleElement = true) params ->
  Forall2 (prints E Options stack) params outs ->
  forall ParamIndex st,
    printParameterList E (print E Options stack) None false true params
                       ParamIndex st =
    Ok (tt, appended st (String.concat ", " outs)).
Proof.
  intros Hkinds H. induction H as [| p out ps outs' Hp Hrest IH];
    intros ParamIndex st.
  - cbn. rewrite appended_empty. reflexivity.
  - cbn [printParameterList]. inversion Hkinds as [| ? ? Hk Hks]; subst.
    rewrite Hk. cbn [andb negb]. run.
    destruct Hrest as [| p2 out2 ps2 outs2 Hp2 Hrest2].
    + reflexivity.
    + run. rewrite (IH Hks), appended_appended, ?append_assoc.
      reflexivity.
Qed.

(** The kinds of function types that have no C type among their children,
    and the attribute that is printed in front of each. *)
Definition functionTypeAttribute (k : Kind) : option string :=
  match k with
  | KFunctionType | KUncurriedFunctionType | KNoEscapeFunctionType => Some ""
  | KAutoClosureType | KEscapingAutoClosureType => Some "@autoclosure "
  | KThinFunctionType => Some "@convention(thin) "
  | KDifferentiableFunctionType => Some "@differentiable "
  | KEscapingDifferentiableFunctionType => Some "@escaping @differentiable "
  | KLinearFunctionType => Some "@differentiable(linear) "
  | KEscapingLinearFunctionType => Some "@escaping @differentiable(linear) "
  | _ => None
  end.

(** X10: a function type is its attribute, its parameters between parentheses,
    [async] and [throws] in this order whichever way the tree has them, and
    its result: the tree has the [throws] annotation before the [async] one,
    and both before the parameters. *)
Theorem function_type_shape kind attribute text index (throws async : bool)
    params outs result outR :
  functionTypeAttribute kind = Some attribute ->
  ShowFunctionArgumentTypes Options = true ->
  Forall (fun p => isKind p KTupleElement = true) params ->
  Forall2 (prints E Options stack) params outs ->
  prints E Options stack result outR ->
  let annotations :=
    ((if throws then [innerNode KThrowsAnnotation []] else []) ++
     (if async then [innerNode KAsyncAnnotation []] else []))%list in
  let parameters :=
    innerNode KArgumentTuple [innerNode KType [innerNode KTuple params]] in
  forall st,
    print E Options (S stack)
          (mkNode kind text index
                  (annotations ++ [parameters; result])%list) false st =
    Ok (None,
        appended st (attribute ++
                     "(" ++ String.concat ", " outs ++ ")" ++
                     (if async then " async" else "") ++
                     (if throws then " throws" else "") ++ outR)).
Proof.
  intros Hkind Hshow Hkinds Hparams Hresult annotations parameters st.
  assert (Hlist : forall st',
            printFunctionParameters E (print E Options stack) None parameters
                                    true st' =
            Ok (tt, appended st' ("(" ++ String.concat ", " outs ++ ")"))).
  { intros st'. unfold printFunctionParameters, parameters, getFirstChild.
    run.
    refine (eq_trans (run_to _ _ _ _ _
                        (printParameterList_prints _ _ Hkinds Hparams _ _))
                     _).
    run. reflexivity. }
  destruct kind; try discriminate Hkind; injection Hkind as <-;
    cbn [print printNode getKind]; unfold printFunctionType;
    rewrite Hshow; fold parameters;
    destruct throws, async; cbn [annotations app negb getKind]; run;
    refine (eq_trans (run_to _ _ _ _ _ (Hlist _)) _); run;
    unfold printChild; run; rewrite ?append_assoc; reflexivity.
Qed.

End FunctionTypes.

(** A label: an identifier, or the marker of a parameter without one. *)
Definition labelNode (l : option string) : Node :=
  match l with
  | Some s => mkNode KIdentifier (Some s) None []
  | None => mkNode KFirstElementMarker None None []
  end.

Definition labelText (l : option string) : string :=
  match l with
  | Some s => s
  | None => "_"
  end.

Lemma nth_error_skipn {A} (l : list A) (i : nat) :
  nth_error l i = hd_error (skipn i l).
Proof.
  revert l. induction i as [| i IH]; intros [| x l]; cbn; auto.
Qed.

Lemma skipn_S_tl {A} (l : list A) (i : nat) :
  skipn (S i) l = tl (skipn i l).
Proof.
  revert l. induction i as [| i IH]; intros [| x l]; try reflexivity.
  cbn [skipn] in *. apply IH.
Qed.

Section Labels.

Variable E : Externals.
Variable print : Node -> bool -> M NodePointer.

Local Open Scope printer_scope.

Lemma getLabelFor_labels text index labels ParamIndex st :
  getLabelFor E (Some (mkNode KLabelList text index (map labelNode labels)))
              ParamIndex st =
  match hd_error (skipn ParamIndex labels) with
  | Some l => Ok (labelText l, st)
  | None => Stop InvalidAccess
  end.
Proof.
  unfold getLabelFor, getChild. cbn [getChildren].
  rewrite nth_error_skipn, skipn_map.
  destruct (skipn ParamIndex labels) as [| [s |] rest]; cbn [map hd_error];
    [reflexivity | |]; run; reflexivity.
Qed.

Lemma printParameterList_labels text index labels params :
  Forall (fun p => isKind p KTupleElement = true) params ->
  forall ParamIndex st,
    printParameterList E print
      (Some (mkNode KLabelList text index (map labelNode labels)))
      true false params ParamIndex st =
    if length params <=? length (skipn ParamIndex labels)
    then Ok (tt,
             appended st
               (String.concat ""
                  (map (fun l => labelText l ++ ":")
                       (firstn (length params) (skipn ParamIndex labels)))))
    else Stop InvalidAccess.
Proof.
  induction 1 as [| p ps Hk Hks IH]; intros ParamIndex st.
  - cbn. rewrite appended_empty. reflexivity.
  - cbn [printParameterList length]. rewrite Hk. run.
    pose proof (getLabelFor_labels text index labels ParamIndex st) as Hlabel.
    specialize (IH (S ParamIndex)). rewrite skipn_S_tl in IH.
    destruct (skipn ParamIndex labels) as [| l rest];
      cbn [hd_error tl length Nat.leb firstn map] in *.
    + exact (run_stop _ _ _ _ Hlabel).
    + refine (eq_trans (run_to _ _ _ _ _ Hlabel) _). cbn [andb negb]. run.
      rewrite concat_empty_cons.
      destruct ps as [| p2 ps2]; [cbn; run; reflexivity |].
      run. rewrite IH. cbn [length].
      destruct (S (length ps2) <=? length rest);
        [rewrite appended_appended, ?append_assoc |]; reflexivity.
Qed.

(** X11: without the types, the parameters of a function are printed as their
    labels, each followed by a colon and nothing between them, with [_] for a
    parameter without a label; and a list of labels that is shorter than the
    list of parameters is read beyond its end. *)
Theorem printFunctionParameters_labels text index labels params st :
  labels <> [] ->
  Forall (fun p => isKind p KTupleElement = true) params ->
  printFunctionParameters E print
    (Some (mkNode KLabelList text index (map labelNode labels)))
    (innerNode KArgumentTuple [innerNode KType [innerNode KTuple params]])
    false st =
  if length params <=? length labels
  then Ok (tt,
           appended st
             ("(" ++
              String.concat ""
                (map (fun l => labelText l ++ ":")
                     (firstn (length params) labels)) ++
              ")"))
  else Stop InvalidAccess.
Proof.
  intros Hlabels Hkinds. unfold printFunctionParameters, getFirstChild.
  assert (Hhas : (0 <? getNumChildren
                         (mkNode KLabelList text index
                                 (map labelNode labels))) = true).
  { destruct labels; [contradiction Hlabels; reflexivity | reflexivity]. }
  rewrite Hhas. run.
  pose proof (printParameterList_labels text index labels params Hkinds 0
                (appended st "(")) as Hlist.
  cbn [skipn] in Hlist.
  destruct (length params <=? length labels).
  - refine (eq_trans (run_to _ _ _ _ _ Hlist) _). run. reflexivity.
  - exact (run_stop _ _ _ _ Hlist).
Qed.

End Labels.

(** A parameter of a function type: a tuple element with its type. *)
Definition parameterOf (type : Node) : Node :=
  innerNode KTupleElement [innerNode KType [type]].

Lemma parameter_swiftInt_prints :
  prints swiftExternals defaultOptions 5 (parameterOf swiftInt) "Swift.Int".
Proof.
  apply prints_of_empty. intros f v. exists None.
  destruct f, v; reflexivity.
Qed.

Lemma result_swiftString_prints :
  prints swiftExternals defaultOptions 5
         (innerNode KReturnType [innerNode KType [swiftString]])
         " -> Swift.String".
Proof.
  apply prints_of_empty. intros f v. exists None.
  destruct f, v; reflexivity.
Qed.

Lemma function_type_shape_witness :
  print swiftExternals defaultOptions 6
        (innerNode KFunctionType
           [innerNode KThrowsAnnotation []; innerNode KAsyncAnnotation [];
            innerNode KArgumentTuple
              [innerNode KType
                 [innerNode KTuple
                    [parameterOf swiftInt; parameterOf swiftInt]]];
            innerNode KReturnType [innerNode KType [swiftString]]])
        false newNodePrinter =
  Ok (None,
      mkNodePrinter "(Swift.Int, Swift.Int) async throws -> Swift.String"
                    false true).
Proof.
  exact (function_type_shape swiftExternals defaultOptions 5 KFunctionType
           "" None None true true [parameterOf swiftInt; parameterOf swiftInt]
           ["Swift.Int"; "Swift.Int"]
           (innerNode KReturnType [innerNode KType [swiftString]])
           " -> Swift.String" eq_refl eq_refl
           ltac:(repeat constructor)
           (Forall2_cons _ _ parameter_swiftInt_prints
              (Forall2_cons _ _ parameter_swiftInt_prints (Forall2_nil _)))
           result_swiftString_prints newNodePrinter).
Defined.

Lemma printFunctionParameters_labels_witness :
  printFunctionParameters swiftExternals
    (print swiftExternals defaultOptions 0)
    (Some (innerNode KLabelList
             [textNode KIdentifier "a"; innerNode KFirstElementMarker [];
              textNode KIdentifier "c"]))
    (innerNode KArgumentTuple
       [innerNode KType
          [innerNode KTuple [parameterOf swiftInt; parameterOf swiftInt]]])
    false newNodePrinter =
  Ok (tt, mkNodePrinter "(a:_:)" false true).
Proof.
  exact (printFunctionParameters_labels swiftExternals
           (print swiftExternals defaultOptions 0) None None
           [Some "a"; None; Some "c"]
           [parameterOf swiftInt; parameterOf swiftInt] newNodePrinter
           ltac:(discriminate)
           ltac:(repeat constructor)).
Defined.

(** * Generic signatures *)

(** The parameters of one depth of a generic signature as they are printed:
    the names of the first 128 of them, and an ellipsis for the rest. *)
Definition genericParameterNames (Options : DemangleOptions)
    (depth count : N) : string :=
  String.concat ", "
    (map (fun i => GenericParameterName Options depth (N.of_nat i))
         (seq 0 (N.to_nat (N.min count 128)))) ++
  (if (128 <? count)%N then ", ..." else "").

(** The parameter lists of the depths 0, 1, ... of a generic signature; a
    count is read as an [unsigned]. *)
Fixpoint genericParameterLists (Options : DemangleOptions) (depth : N)
    (counts : list N) : list string :=
  match counts with
  | [] => []
  | count :: rest =>
      genericParameterNames Options depth (to_unsigned count) ::
      genericParameterLists Options (depth + 1) rest
  end.

Lemma concat_separated (sep x : string) (l : list string) :
  String.concat sep (x :: l) =
  x ++ String.concat "" (map (fun y => sep ++ y) l).
Proof.
  revert x. induction l as [| y l IH]; intros x.
  - cbn. rewrite append_empty_r. reflexivity.
  - cbn [map]. rewrite concat_empty_cons.
    change (String.concat sep (x :: y :: l))
      with (x ++ sep ++ String.concat sep (y :: l)).
    rewrite IH, append_assoc. reflexivity.
Qed.

Section GenericSignatures.

Variable E : Externals.
Variable Options : DemangleOptions.

Local Open Scope printer_scope.

(** What the loop appends from the parameter [i] on. *)
Definition parametersFrom (depth count : N) (i n : nat) : string :=
  String.concat ""
    (map (fun j => (if j =? 0 then "" else ", ") ++
                   GenericParameterName Options depth (N.of_nat j))
         (seq i n)) ++
  (if (128 <? count)%N then ", ..." else "").

Lemma printGenericParameters_from depth count n :
  forall i rounds st,
    i + n = N.to_nat (N.min count 128) ->
    129 - i <= rounds ->
    printGenericParameters Options rounds depth (N.of_nat i) count st =
    Ok (tt, appended st (parametersFrom depth count i n)).
Proof.
  unfold parametersFrom.
  induction n as [| n IH]; intros i rounds st Hi Hrounds.
  - destruct rounds as [| rounds]; [lia |].
    cbn [printGenericParameters seq map String.concat].
    destruct (N.ltb_spec 128 count) as [Hbig | Hsmall].
    + assert (Hi' : i = 128) by lia. subst i.
      replace (N.of_nat 128 <? count)%N with true
        by (symmetry; apply N.ltb_lt; lia).
      run. reflexivity.
    + replace (N.of_nat i <? count)%N with false
        by (symmetry; apply N.ltb_ge; lia).
      run. reflexivity.
  - destruct rounds as [| rounds]; [lia |].
    cbn [printGenericParameters seq map].
    replace (N.of_nat i <? count)%N with true
      by (symmetry; apply N.ltb_lt; lia).
    replace (128 <=? N.of_nat i)%N with false
      by (symmetry; apply N.leb_gt; lia).
    replace (N.of_nat i + 1)%N with (N.of_nat (S i)) by lia.
    replace (N.of_nat i =? 0)%N with (i =? 0)
      by (destruct i; reflexivity).
    rewrite concat_empty_cons.
    destruct (i =? 0); cbn [negb]; run;
      rewrite (IH (S i) rounds) by lia;
      rewrite appended_appended, ?append_assoc; reflexivity.
Qed.

Lemma parametersFrom_names depth count :
  parametersFrom depth count 0 (N.to_nat (N.min count 128)) =
  genericParameterNames Options depth count.
Proof.
  unfold parametersFrom, genericParameterNames. f_equal.
  destruct (N.to_nat (N.min count 128)) as [| n]; [reflexivity |].
  cbn [seq map]. rewrite concat_empty_cons, concat_separated.
  cbn [Nat.eqb]. f_equal. f_equal.
  rewrite <- !seq_shift, !map_map. apply map_ext. reflexivity.
Qed.

Lemma printGenericParameterLists_counts counts :
  forall depth st,
    printGenericParameterLists Options
      (map (indexNode KDependentGenericParamCount) counts) depth st =
    Ok ([],
        appended st
          (String.concat ""
             (match genericParameterLists Options depth counts with
              | [] => []
              | first :: others =>
                  ((if (depth =? 0)%N then "" else "><") ++ first) ::
                  map (fun s => "><" ++ s) others
              end))).
Proof.
  induction counts as [| count rest IH]; intros depth st.
  - cbn. rewrite appended_empty. reflexivity.
  - cbn [map printGenericParameterLists genericParameterLists].
    change (isKind (indexNode KDependentGenericParamCount count)
                   KDependentGenericParamCount) with true.
    cbv iota. cbn [indexNode getIndex].
    assert (Hlist : forall st',
              printGenericParameters Options 129 depth 0
                                     (to_unsigned count) st' =
              Ok (tt, appended st'
                        (genericParameterNames Options depth
                                               (to_unsigned count)))).
    { intros st'. rewrite <- parametersFrom_names.
      apply (printGenericParameters_from depth (to_unsigned count) _ 0 129);
        lia. }
    rewrite concat_empty_cons.
    destruct (depth =? 0)%N eqn:Hdepth; cbn [negb]; run;
      refine (eq_trans (run_to _ _ _ _ _ (Hlist _)) _);
      rewrite IH; cbn [genericParameterLists];
      replace (depth + 1 =? 0)%N with false
        by (symmetry; apply N.eqb_neq; lia);
      rewrite !appended_appended, ?append_assoc;
      destruct (genericParameterLists Options (depth + 1) rest);
      cbn [map]; rewrite ?concat_empty_cons; reflexivity.
Qed.

(** X12: a generic signature without requirements is the parameter lists of
    its depths between angle brackets, with [><] between two depths; at every
    depth the names that the namer gives to the parameters 0, 1, ... are
    separated by a comma and a space, and no more than 128 of them are
    printed: an ellipsis stands for all the others. *)
Theorem generic_signature_parameters stack (pseudo : bool) text index counts
    asPrefixContext st :
  print E Options (S stack)
        (mkNode (if pseudo then KDependentPseudogenericSignature
                 else KDependentGenericSignature)
                text index
                (map (indexNode KDependentGenericParamCount) counts))
        asPrefixContext st =
  Ok (None,
      appended st
        ("<" ++ String.concat "><" (genericParameterLists Options 0 counts)
             ++ ">")).
Proof.
  assert (Hjoin : forall l,
            String.concat ""
              (match l with
               | [] => []
               | first :: others =>
                   ("" ++ first) :: map (fun s => "><" ++ s) others
               end) = String.concat "><" l).
  { intros [| first others]; [reflexivity |].
    rewrite concat_empty_cons, concat_separated. reflexivity. }
  destruct pseudo; cbn [print printNode getKind getChildren]; run;
    refine (eq_trans (run_to _ _ _ _ _
                        (printGenericParameterLists_counts counts 0 _)) _);
    cbn [N.eqb]; rewrite Hjoin; run; reflexivity.
Qed.

End GenericSignatures.

(** * Lowered function types *)

(** What the loop of [printImplFunctionType] takes a child for. *)
Inductive ImplChild :=
  | ImplInput | ImplOutput | ImplPattern | ImplInvocation | ImplAttribute.

Definition implChild (k : Kind) : ImplChild :=
  match k with
  | KImplParameter => ImplInput
  | KImplResult | KImplYield | KImplErrorResult => ImplOutput
  | KImplPatternSubstitutions => ImplPattern
  | KImplInvocationSubstitutions => ImplInvocation
  | _ => ImplAttribute
  end.

Lemma ensures_conseq {A} (m : M A) st (P Q : A -> NodePrinter -> Prop) :
  ensures m st P -> (forall a st', P a st' -> Q a st') -> ensures m st Q.
Proof. unfold ensures. eauto. Qed.

Lemma ensures_then {A B} (m : M A) (f : A -> M B) st Q :
  (forall a st1, ensures (f a) st1 Q) -> ensures (bind m f) st Q.
Proof.
  intros H. apply ensures_bind. intros a st1 _. apply H.
Qed.

Lemma ensures_fail {A} (e : Failure) st (Q : A -> NodePrinter -> Prop) :
  ensures (fail e) st Q.
Proof. intros a st' H. discriminate H. Qed.

Lemma ensures_assoc {A B C} (m : M A) (f : A -> M B) (g : B -> M C) st Q :
  ensures (bind m (fun a => bind (f a) g)) st Q ->
  ensures (bind (bind m f) g) st Q.
Proof.
  unfold ensures. intros H c st'. rewrite run_bind_assoc. apply H.
Qed.

Lemma ensures_ret_bind {A B} (a : A) (f : A -> M B) st Q :
  ensures (f a) st Q -> ensures (bind (ret a) f) st Q.
Proof. intros H. exact H. Qed.

Lemma ensures_fail_bind {A B} (e : Failure) (f : A -> M B) st Q :
  ensures (bind (fail e) f) st Q.
Proof. intros a st' H. discriminate H. Qed.

Lemma ensures_stops {A} (m : M A) st :
  ensures m st (fun _ _ => False) -> exists e, m st = Stop e.
Proof.
  unfold ensures. intros H. destruct (m st) as [[a st'] | e] eqn:Hm.
  - destruct (H a st' eq_refl).
  - exists e. reflexivity.
Qed.

Section ImplFunctionTypes.

Variable E : Externals.
Variable print : Node -> bool -> M NodePointer.

Local Open Scope printer_scope.

Lemma printImplFunctionChildren_step child rest patternSubs invocationSubs
    curState :
  printImplFunctionChildren E print (child :: rest) patternSubs
                            invocationSubs curState =
  match implChild (getKind child) with
  | ImplInput =>
      when (ImplState_eqb curState Inputs) (emit ", ") ;;
      curState <- transitionTo E print patternSubs curState Inputs ;;
      print child false ;;
      printImplFunctionChildren E print rest patternSubs invocationSubs
                                curState
  | ImplOutput =>
      when (ImplState_eqb curState Results) (emit ", ") ;;
      curState <- transitionTo E print patternSubs curState Results ;;
      print child false ;;
      printImplFunctionChildren E print rest patternSubs invocationSubs
                                curState
  | ImplPattern =>
      printImplFunctionChildren E print rest (Some child) invocationSubs
                                curState
  | ImplInvocation =>
      printImplFunctionChildren E print rest patternSubs (Some child)
                                curState
  | ImplAttribute =>
      assert E (ImplState_eqb curState Attrs) ;;
      print child false ;;
      emit " " ;;
      printImplFunctionChildren E print rest patternSubs invocationSubs
                                curState
  end.
Proof.
  cbn [printImplFunctionChildren]. unfold isKind.
  destruct (getKind child); reflexivity.
Qed.

(** [transitionTo] only ever goes forward: when it returns, the state is
    the one that was asked for, and it was not behind the current one. *)
Lemma transitionTo_forward patternSubs curState newState st :
  ensures (transitionTo E print patternSubs curState newState) st
          (fun s _ => s = newState /\ ImplState_leb curState newState = true).
Proof.
  unfold transitionTo. apply ensures_then. intros _ st1.
  destruct curState, newState;
    cbn [transitionLoop ImplState_eqb transitionStep];
    unfold printer_unreachable;
    repeat first
      [ apply ensures_ret; split; reflexivity
      | apply ensures_fail
      | apply ensures_assoc
      | apply ensures_ret_bind
      | apply ensures_fail_bind
      | apply ensures_then; intros ? ? ];
    cbn [transitionLoop ImplState_eqb transitionStep].
Qed.

Lemma after_results cs :
  Exists (fun c => implChild (getKind c) = ImplInput) cs ->
  forall patternSubs invocationSubs st,
    ensures (printImplFunctionChildren E print cs patternSubs invocationSubs
                                       Results) st
            (fun _ _ => False).
Proof.
  induction cs as [| c rest IH]; intros Hex patternSubs invocationSubs st.
  - inversion Hex.
  - rewrite printImplFunctionChildren_step.
    destruct (implChild (getKind c)) eqn:Hc.
    + apply ensures_then. intros _ st1.
      apply ensures_bind.
      eapply ensures_conseq; [apply transitionTo_forward |].
      intros s st2 [_ Hle]. discriminate Hle.
    + assert (Hrest : Exists (fun c => implChild (getKind c) = ImplInput)
                             rest).
      { inversion Hex as [? ? Hhere | ? ? Hlater]; subst;
          [congruence | exact Hlater]. }
      apply ensures_then. intros _ st1.
      apply ensures_bind.
      eapply ensures_conseq; [apply transitionTo_forward |].
      intros s st2 [-> _]. apply ensures_then. intros _ st3.
      apply IH. exact Hrest.
    + apply IH. inversion Hex; subst; [congruence | assumption].
    + apply IH. inversion Hex; subst; [congruence | assumption].
    + apply ensures_then. intros _ st1. apply ensures_then. intros _ st2.
      apply ensures_then. intros _ st3.
      apply IH. inversion Hex; subst; [congruence | assumption].
Qed.

Lemma result_before_parameter pre r tail :
  implChild (getKind r) = ImplOutput ->
  Exists (fun c => implChild (getKind c) = ImplInput) tail ->
  forall patternSubs invocationSubs curState st,
    ensures (printImplFunctionChildren E print (pre ++ r :: tail)%list
                                       patternSubs invocationSubs curState)
            st (fun _ _ => False).
Proof.
  intros Hr Htail.
  induction pre as [| c pre IH]; intros patternSubs invocationSubs curState
    st; cbn [app]; rewrite printImplFunctionChildren_step.
  - rewrite Hr. apply ensures_then. intros _ st1.
    apply ensures_bind.
    eapply ensures_conseq; [apply transitionTo_forward |].
    intros s st2 [-> _]. apply ensures_then. intros _ st3.
    apply after_results. exact Htail.
  - destruct (implChild (getKind c));
      repeat (apply ensures_then; intros ? ?); apply IH.
Qed.

(** X13: in a lowered function type the parameters come before the results: on
    a tree that has a parameter after a result, yield or error result, the
    printer does not come to an end. *)
Theorem printImplFunctionType_order fn pre r mid p post st :
  getChildren fn = (pre ++ r :: mid ++ p :: post)%list ->
  implChild (getKind r) = ImplOutput ->
  implChild (getKind p) = ImplInput ->
  exists e, printImplFunctionType E print fn st = Stop e.
Proof.
  intros Hfn Hr Hp. apply ensures_stops.
  unfold printImplFunctionType. apply ensures_bind. rewrite Hfn.
  eapply ensures_conseq.
  - apply (result_before_parameter pre r (mid ++ p :: post) Hr).
    apply Exists_app. right. constructor. exact Hp.
  - intros a st' [].
Qed.

End ImplFunctionTypes.

(** What [transitionTo] prints on its way, without pattern substitutions. *)
Definition transitionText (curState newState : ImplState) : string :=
  match curState, newState with
  | Attrs, Inputs => "("
  | Attrs, Results => "() -> ("
  | Inputs, Results => ") -> ("
  | _, _ => ""
  end.

Section ImplFunctionTypeShape.

Variable E : Externals.
Variable Options : DemangleOptions.
Variable stack : nat.

Local Open Scope printer_scope.

Let print' := print E Options stack.

Lemma transitionTo_text curState newState st :
  ImplState_leb curState newState = true ->
  transitionTo E print' None curState newState st =
  Ok (newState, appended st (transitionText curState newState)).
Proof.
  intros Hle. unfold transitionTo. rewrite Hle.
  destruct curState, newState; try discriminate Hle;
    cbn [transitionText];
    repeat first
      [ run_step
      | progress cbn [transitionLoop ImplState_eqb transitionStep] ];
    rewrite ?appended_appended, ?appended_empty; reflexivity.
Qed.

Lemma attributes_then attrs outs tail :
  Forall (fun a => implChild (getKind a) = ImplAttribute) attrs ->
  Forall2 (prints E Options stack) attrs outs ->
  forall st,
    printImplFunctionChildren E print' (attrs ++ tail)%list None None Attrs
                              st =
    printImplFunctionChildren E print' tail None None Attrs
      (appended st (String.concat "" (map (fun a => a ++ " ") outs))).
Proof.
  intros Hkinds H. induction H as [| a out attrs' outs' Ha Hrest IH];
    intros st.
  - cbn. rewrite appended_empty. reflexivity.
  - inversion Hkinds as [| ? ? Hk Hks]; subst.
    cbn [app map]. rewrite printImplFunctionChildren_step, Hk.
    cbn [ImplState_eqb]. unfold print'. run. fold print'.
    rewrite (IH Hks), appended_appended, concat_empty_cons, ?append_assoc.
    reflexivity.
Qed.

Lemma more_parameters_then params outs tail :
  Forall (fun a => implChild (getKind a) = ImplInput) params ->
  Forall2 (prints E Options stack) params outs ->
  forall st,
    printImplFunctionChildren E print' (params ++ tail)%list None None
                              Inputs st =
    printImplFunctionChildren E print' tail None None Inputs
      (appended st (String.concat "" (map (fun a => ", " ++ a) outs))).
Proof.
  intros Hkinds H. induction H as [| a out params' outs' Ha Hrest IH];
    intros st.
  - cbn. rewrite appended_empty. reflexivity.
  - inversion Hkinds as [| ? ? Hk Hks]; subst.
    cbn [app map]. rewrite printImplFunctionChildren_step, Hk.
    cbn [ImplState_eqb]. run.
    refine (eq_trans (run_to _ _ _ _ _
                        (transitionTo_text Inputs Inputs _ eq_refl)) _).
    unfold print'. run. fold print'.
    rewrite (IH Hks), !appended_appended, concat_empty_cons, ?append_assoc.
    reflexivity.
Qed.

Lemma more_results results outs :
  Forall (fun a => implChild (getKind a) = ImplOutput) results ->
  Forall2 (prints E Options stack) results outs ->
  forall st,
    printImplFunctionChildren E print' results None None Results st =
    Ok ((None, None, Results),
        appended st (String.concat "" (map (fun a => ", " ++ a) outs))).
Proof.
  intros Hkinds H. induction H as [| a out results' outs' Ha Hrest IH];
    intros st.
  - cbn. rewrite appended_empty. reflexivity.
  - inversion Hkinds as [| ? ? Hk Hks]; subst.
    cbn [map]. rewrite printImplFunctionChildren_step, Hk.
    cbn [ImplState_eqb]. run.
    refine (eq_trans (run_to _ _ _ _ _
                        (transitionTo_text Results Results _ eq_refl)) _).
    unfold print'. run. fold print'.
    rewrite (IH Hks), !appended_appended, concat_empty_cons, ?append_assoc.
    reflexivity.
Qed.

(** From the attributes or the parameters on: the results, and the end. *)
Lemma results_and_end curState results outs st :
  curState <> Results ->
  Forall (fun a => implChild (getKind a) = ImplOutput) results ->
  Forall2 (prints E Options stack) results outs ->
  (r <- printImplFunctionChildren E print' results None None curState ;;
   let '(patternSubs, invocationSubs, curState) := r in
   transitionTo E print' patternSubs curState Results ;;
   emit ")" ;;
   match patternSubs with
   | Some subs =>
       emit " for <" ;;
       c <-! getChild subs 1 ;;
       printChildren print' (Some c) None ;;
       emit ">"
   | None => ret tt
   end ;;
   match invocationSubs with
   | Some subs =>
       emit " for <" ;;
       c <-! getChild subs 0 ;;
       printChildren print' (Some c) None ;;
       emit ">"
   | None => ret tt
   end) st =
  Ok (tt,
      appended st (transitionText curState Results ++
                   String.concat ", " outs ++ ")")).
Proof.
  intros Hcur Hkinds H.
  assert (Hle : ImplState_leb curState Results = true)
    by (destruct curState; reflexivity).
  destruct H as [| r out results' outs' Hr Hrest].
  - cbn [printImplFunctionChildren]. run.
    refine (eq_trans (run_to _ _ _ _ _
                        (transitionTo_text curState Results _ Hle)) _).
    run. reflexivity.
  - inversion Hkinds as [| ? ? Hk Hks]; subst.
    rewrite printImplFunctionChildren_step, Hk.
    replace (ImplState_eqb curState Results) with false
      by (destruct curState; try reflexivity; contradiction Hcur;
          reflexivity).
    run.
    refine (eq_trans (run_to _ _ _ _ _
                        (transitionTo_text curState Results _ Hle)) _).
    unfold print'. run. fold print'.
    refine (eq_trans (run_to _ _ _ _ _ (more_results _ _ Hks Hrest _)) _).
    cbv beta iota.
    refine (eq_trans (run_to _ _ _ _ _
                        (transitionTo_text Results Results _ eq_refl)) _).
    run. rewrite concat_separated, ?append_assoc. reflexivity.
Qed.

Lemma parameters_then params outs tail :
  Forall (fun a => implChild (getKind a) = ImplInput) params ->
  Forall2 (prints E Options stack) params outs ->
  forall st,
    printImplFunctionChildren E print' (params ++ tail)%list None None Attrs
                              st =
    printImplFunctionChildren E print' tail None None
      (match params with [] => Attrs | _ :: _ => Inputs end)
      (appended st (match outs with
                    | [] => ""
                    | _ :: _ => "(" ++ String.concat ", " outs
                    end)).
Proof.
  intros Hkinds H st. destruct H as [| p out params' outs' Hp Hrest].
  - cbn [app]. rewrite appended_empty. reflexivity.
  - inversion Hkinds as [| ? ? Hk Hks]; subst.
    cbn [app]. rewrite printImplFunctionChildren_step, Hk.
    cbn [ImplState_eqb]. run.
    refine (eq_trans (run_to _ _ _ _ _
                        (transitionTo_text Attrs Inputs _ eq_refl)) _).
    unfold print'. run. fold print'.
    rewrite (more_parameters_then _ _ _ Hks Hrest).
    rewrite !appended_appended, concat_separated, ?append_assoc.
    reflexivity.
Qed.

Lemma printImplFunctionType_shape text index attrs params results
    attrOuts paramOuts resultOuts :
  Forall (fun a => implChild (getKind a) = ImplAttribute) attrs ->
  Forall (fun a => implChild (getKind a) = ImplInput) params ->
  Forall (fun a => implChild (getKind a) = ImplOutput) results ->
  Forall2 (prints E Options stack) attrs attrOuts ->
  Forall2 (prints E Options stack) params paramOuts ->
  Forall2 (prints E Options stack) results resultOuts ->
  forall st,
    printImplFunctionType E print'
      (mkNode KImplFunctionType text index (attrs ++ params ++ results)%list)
      st =
    Ok (tt,
        appended st
          (String.concat "" (map (fun a => a ++ " ") attrOuts) ++
           "(" ++ String.concat ", " paramOuts ++ ") -> (" ++
           String.concat ", " resultOuts ++ ")")).
Proof.
  intros Hattrs Hparams Hresults HA HP HR st.
  unfold printImplFunctionType. cbn [getChildren].
  unfold bind at 1.
  rewrite (attributes_then _ _ _ Hattrs HA),
    (parameters_then _ _ _ Hparams HP).
  assert (Hcur : match params with [] => Attrs | _ :: _ => Inputs end
                 <> Results) by (destruct params; discriminate).
  pose proof (results_and_end _ results resultOuts
                (appended
                   (appended st
                      (String.concat "" (map (fun a => a ++ " ") attrOuts)))
                   (match paramOuts with
                    | [] => ""
                    | _ :: _ => "(" ++ String.concat ", " paramOuts
                    end))
                Hcur Hresults HR) as Hend.
  unfold bind at 1 in Hend. rewrite Hend.
  destruct HP; cbn [transitionText];
    rewrite !appended_appended, ?append_assoc; reflexivity.
Qed.

(** X14: a lowered function type is its attributes, each followed by a space,
    its parameters between parentheses, an arrow, and its results, yields and
    error result between parentheses, with a comma and a space between two
    parameters and between two results; the parentheses are there also when
    there is nothing between them. *)
Theorem impl_function_type_shape text index attrs params results
    attrOuts paramOuts resultOuts :
  Forall (fun a => implChild (getKind a) = ImplAttribute) attrs ->
  Forall (fun a => implChild (getKind a) = ImplInput) params ->
  Forall (fun a => implChild (getKind a) = ImplOutput) results ->
  Forall2 (prints E Options stack) attrs attrOuts ->
  Forall2 (prints E Options stack) params paramOuts ->
  Forall2 (prints E Options stack) results resultOuts ->
  forall st,
    print E Options (S stack)
          (mkNode KImplFunctionType text index
                  (attrs ++ params ++ results)%list) false st =
    Ok (None,
        appended st
          (String.concat "" (map (fun a => a ++ " ") attrOuts) ++
           "(" ++ String.concat ", " paramOuts ++ ") -> (" ++
           String.concat ", " resultOuts ++ ")")).
Proof.
  intros Hattrs Hparams Hresults HA HP HR st.
  cbn [print printNode getKind]. fold print'.
  refine (eq_trans (run_to _ _ _ _ _
                      (printImplFunctionType_shape text index _ _ _ _ _ _
                         Hattrs Hparams Hresults HA HP HR st)) _).
  reflexivity.
Qed.

End ImplFunctionTypeShape.

Lemma printImplFunctionType_order_witness :
  exists e,
    printImplFunctionType swiftExternals
      (print swiftExternals defaultOptions 5)
      (innerNode KImplFunctionType
         [innerNode KImplResult
            [textNode KImplConvention "@owned"; innerNode KType [swiftInt]];
          innerNode KImplParameter
            [textNode KImplConvention "@guaranteed";
             innerNode KType [swiftInt]]])
      newNodePrinter = Stop e.
Proof.
  apply (printImplFunctionType_order swiftExternals
           (print swiftExternals defaultOptions 5)
           (innerNode KImplFunctionType
              [innerNode KImplResult
                 [textNode KImplConvention "@owned";
                  innerNode KType [swiftInt]];
               innerNode KImplParameter
                 [textNode KImplConvention "@guaranteed";
                  innerNode KType [swiftInt]]])
           []
           (innerNode KImplResult
              [textNode KImplConvention "@owned"; innerNode KType [swiftInt]])
           []
           (innerNode KImplParameter
              [textNode KImplConvention "@guaranteed";
               innerNode KType [swiftInt]])
           [] newNodePrinter); reflexivity.
Defined.

Lemma impl_function_type_shape_witness :
  print swiftExternals defaultOptions 6
        (innerNode KImplFunctionType
           [textNode KImplConvention "@callee_guaranteed";
            innerNode KImplParameter
              [textNode KImplConvention "@guaranteed";
               innerNode KType [swiftInt]];
            innerNode KImplResult
              [textNode KImplConvention "@owned";
               innerNode KType [swiftString]]])
        false newNodePrinter =
  Ok (None,
      mkNodePrinter
        "@callee_guaranteed (@guaranteed Swift.Int) -> (@owned Swift.String)"
        false true).
Proof.
  refine (impl_function_type_shape swiftExternals defaultOptions 5 None None
            [textNode KImplConvention "@callee_guaranteed"]
            [innerNode KImplParameter
               [textNode KImplConvention "@guaranteed";
                innerNode KType [swiftInt]]]
            [innerNode KImplResult
               [textNode KImplConvention "@owned";
                innerNode KType [swiftString]]]
            ["@callee_guaranteed"] ["@guaranteed Swift.Int"]
            ["@owned Swift.String"]
            ltac:(repeat constructor) ltac:(repeat constructor)
            ltac:(repeat constructor) _ _ _ newNodePrinter);
    (constructor; [| constructor]);
    apply prints_of_empty; intros f v; exists None; destruct f, v;
    reflexivity.
Defined.

(** * Entities and their contexts *)

Lemma run_getSize {B} (f : nat -> M B) st :
  bind getSize f st = f (String.length (Printer st)) st.
Proof. reflexivity. Qed.

Lemma length_appended_eqb st s :
  (String.length (Printer (appended st s)) =? String.length (Printer st)) =
  empty s.
Proof.
  cbn [appended Printer]. rewrite length_append.
  destruct s as [| c s]; cbn [String.length empty].
  - rewrite Nat.add_0_r. apply Nat.eqb_refl.
  - apply Nat.eqb_neq. lia.
Qed.

(** The kinds of the nominal types, which [print] hands to [printEntity]
    with a name and without a type. *)
Definition isNominalTypeKind (k : Kind) : bool :=
  match k with
  | KClass | KStructure | KEnum | KProtocol | KTypeAlias
  | KOtherNominalType => true
  | _ => false
  end.

(** Kinds of entities that are always printed with their type. *)
Definition isTypedEntityKind (k : Kind) : bool :=
  match k with
  | KFunction | KVariable | KSubscript | KConstructor => true
  | _ => false
  end.

(** Whether a module of this name is shown as a context. *)
Definition moduleShown (E : Externals) (Options : DemangleOptions)
    (name : string) : bool :=
  QualifyEntities Options &&
  (if String.eqb name (STDLIB_NAME E) then DisplayStdlibModule Options
   else if String.eqb name (MANGLING_MODULE_OBJC E)
   then DisplayObjCModule Options
   else if String.eqb name (HidingCurrentModule Options) then false
   else if startswith name (LLDB_EXPRESSIONS_MODULE_NAME_PREFIX E)
   then DisplayDebuggerGeneratedModule Options
   else true).

Lemma ret_appended {A} (a : A) st : ret a st = Ok (a, st).
Proof. reflexivity. Qed.

(** Decide the tests on the kind of a node whose kind is known. *)
Ltac decide_kinds :=
  match goal with
  | |- context [isKind (mkNode ?k ?t ?i ?c) ?k'] =>
      let b := eval cbv in (Kind_eqb k k') in
      lazymatch b with
      | true => change (isKind (mkNode k t i c) k') with true
      | false => change (isKind (mkNode k t i c) k') with false
      end
  | |- context [getChildIf ?n ?k] =>
      let r := eval cbv in (getChildIf n k) in
      lazymatch r with
      | None => change (getChildIf n k) with (@None Node)
      | Some ?c => change (getChildIf n k) with (Some c)
      end
  end.

(** A run of [printEntity]: the steps, and the conditions on the way. *)
Ltac entity_run :=
  repeat first
    [ run_step
    | decide_kinds
    | lazymatch goal with
      | |- bind getSize _ _ = _ =>
          refine (eq_trans (run_getSize _ _) _); cbv beta
      | |- (let '(_, _) := _ in _) _ = _ => cbv beta iota zeta
      | |- bind (print ?E ?O ?s ?c ?b) _ ?st = _ =>
          match goal with
          | H : forall st', print E O s c b st' = _ |- _ =>
              refine (eq_trans (run_to _ _ _ _ _ (H st)) _); cbv beta
          end
      end
    | rewrite length_appended_eqb
    | rewrite andb_false_r
    | rewrite andb_true_r
    | progress cbn [andb orb negb empty when TypePrinting_eqb contains
                    Z.ltb Z.leb Z.compare getChild getFirstChild getChildren
                    nth_error Ascii.eqb Bool.eqb] ].

Section Entities.

Variable E : Externals.
Variable Options : DemangleOptions.
Variable stack : nat.

Local Open Scope printer_scope.

Lemma printContext_module name index children :
  printContext E Options (mkNode KModule (Some name) index children) =
  Ok (moduleShown E Options name).
Proof.
  unfold printContext, moduleShown.
  destruct (QualifyEntities Options); [| reflexivity].
  cbn [negb isKind getKind getText bindR andb].
  change (Kind_eqb KModule KModule) with true. cbv iota.
  destruct (String.eqb name (STDLIB_NAME E)); [reflexivity |].
  destruct (String.eqb name (MANGLING_MODULE_OBJC E)); [reflexivity |].
  destruct (String.eqb name (HidingCurrentModule Options)); [reflexivity |].
  destruct (startswith name (LLDB_EXPRESSIONS_MODULE_NAME_PREFIX E));
    reflexivity.
Qed.

(** X15: a nominal type in a module is the name of the module, a dot and the
    name of the type, or the name of the type alone: when entities are not
    qualified, when the module is one that the options hide (the standard
    library, the Objective-C module, the current module, a module of the
    debugger), when module names are not displayed, and when the name of the
    module is empty. *)
Theorem nominal_type_in_module kind text index module name mi mc ni nc
    asPrefixContext st :
  isNominalTypeKind kind = true ->
  print E Options (S (S stack))
        (mkNode kind text index
                [mkNode KModule (Some module) mi mc;
                 mkNode KIdentifier (Some name) ni nc])
        asPrefixContext st =
  Ok (None,
      appended st
        ((if moduleShown E Options module && DisplayModuleNames Options &&
             negb (empty module)
          then module ++ "." else "") ++ name)).
Proof.
  intros Hkind.
  assert (Hname : forall st',
            print E Options (S stack) (mkNode KIdentifier (Some name) ni nc)
                  false st' = Ok (None, appended st' name)).
  { intros st'. reflexivity. }
  assert (Hmodule : forall st',
            print E Options (S stack) (mkNode KModule (Some module) mi mc)
                  true st' =
            Ok (None,
                appended st' (if DisplayModuleNames Options then module
                              else ""))).
  { intros st'. cbn [print printNode getKind].
    destruct (DisplayModuleNames Options); [reflexivity |].
    run. reflexivity. }
  assert (Hrun :
    printEntity E Options (print E Options (S stack))
      (mkNode kind text index
              [mkNode KModule (Some module) mi mc;
               mkNode KIdentifier (Some name) ni nc])
      asPrefixContext NoType true "" (-1) "" st =
    Ok (None,
        appended st
          ((if moduleShown E Options module && DisplayModuleNames Options &&
               negb (empty module)
            then module ++ "." else "") ++ name))).
  { unfold printEntity.
    replace (isKind (mkNode kind text index
                       [mkNode KModule (Some module) mi mc;
                        mkNode KIdentifier (Some name) ni nc])
                    KBoundGenericFunction) with false
      by (destruct kind; try discriminate Hkind; reflexivity).
    entity_run. rewrite printContext_module. entity_run.
    destruct (moduleShown E Options module); cbn [andb]; entity_run.
    - destruct (DisplayModuleNames Options); cbn [andb]; entity_run.
      + destruct module; entity_run;
          rewrite ?appended_appended, ?appended_empty, ?append_assoc;
          reflexivity.
      + rewrite ?appended_appended, ?appended_empty. reflexivity.
    - reflexivity. }
  destruct kind; try discriminate Hkind; exact Hrun.
Qed.

Lemma printEntity_declines_prefix kind text index context name more
    TypePr hasName ExtraName ExtraIndex OverwriteName print st :
  Kind_eqb kind KBoundGenericFunction = false ->
  TypePrinting_eqb TypePr NoType = false ->
  printEntity E Options print
    (mkNode kind text index (context :: name :: more)) true TypePr hasName
    ExtraName ExtraIndex OverwriteName st =
  Ok (Some (mkNode kind text index (context :: name :: more)), st).
Proof.
  intros Hkind HT. unfold printEntity, isKind. cbn [getKind].
  rewrite Hkind, HT. destruct hasName; entity_run; reflexivity.
Qed.

(** X16: an entity that is printed with its type, such as a function or a
    variable, is never printed in front of the name of what it contains: asked
    to, it prints nothing and hands itself back.  So a nominal type that is
    declared in one is its name, [" in "], and the entity. *)
Theorem type_in_typed_entity kind text index ctxKind ctext cindex ctxContext
    ctxName ctxMore name ni nc out :
  isNominalTypeKind kind = true ->
  isTypedEntityKind ctxKind = true ->
  QualifyEntities Options = true ->
  let context :=
    mkNode ctxKind ctext cindex (ctxContext :: ctxName :: ctxMore) in
  let type :=
    mkNode kind text index [context; mkNode KIdentifier (Some name) ni nc] in
  prints E Options (S stack) context out ->
  forall st,
    print E Options (S stack) context true st = Ok (Some context, st) /\
    print E Options (S (S stack)) type false st =
      Ok (None, appended st (name ++ " in " ++ out)) /\
    print E Options (S (S stack)) type true st =
      Ok (Some context, appended st name).
Proof.
  intros Hkind Hctx Hqualify context type Hout st.
  assert (Hdeclines : forall st',
            print E Options (S stack) context true st' =
            Ok (Some context, st')).
  { intros st'. unfold context.
    destruct ctxKind; try discriminate Hctx; cbn [print printNode getKind];
      apply printEntity_declines_prefix; reflexivity. }
  assert (Hname : forall st',
            print E Options (S stack) (mkNode KIdentifier (Some name) ni nc)
                  false st' = Ok (None, appended st' name)).
  { intros st'. reflexivity. }
  assert (Hshown : printContext E Options context = Ok true).
  { unfold printContext. rewrite Hqualify. cbn [negb].
    replace (isKind context KModule) with false
      by (unfold context; destruct ctxKind; try discriminate Hctx;
          reflexivity).
    reflexivity. }
  assert (Hrun : forall asPrefixContext,
    printEntity E Options (print E Options (S stack)) type asPrefixContext
                NoType true "" (-1) "" st =
    if asPrefixContext then Ok (Some context, appended st name)
    else Ok (None, appended st (name ++ " in " ++ out))).
  { intros asPrefixContext. unfold printEntity.
    replace (isKind type KBoundGenericFunction) with false
      by (unfold type; destruct kind; try discriminate Hkind; reflexivity).
    entity_run.
    replace (isInitializerLike type) with false
      by (unfold type; destruct kind; try discriminate Hkind; reflexivity).
    replace (getChildIf type KPrivateDeclName) with (@None Node)
      by (unfold type, context; destruct ctxKind; try discriminate Hctx;
          reflexivity).
    unfold type. entity_run. rewrite Hshown. entity_run.
    rewrite Nat.eqb_refl. entity_run.
    destruct asPrefixContext; entity_run;
      rewrite ?appended_appended, ?append_assoc; reflexivity. }
  split; [apply Hdeclines |].
  split; [rewrite <- (Hrun false) | rewrite <- (Hrun true)];
    unfold type; destruct kind; try discriminate Hkind; reflexivity.
Qed.

Lemma ensures_assert_false st (Q : unit -> NodePrinter -> Prop) :
  (assertsEnabled E = false -> Q tt st) -> ensures (assert E false) st Q.
Proof.
  unfold ensures, assert. cbn [negb]. rewrite andb_true_r.
  intros H a st'. destruct (assertsEnabled E); [discriminate |].
  intros [= <- <-]. apply H. reflexivity.
Qed.

Lemma ensures_setInvalid st (Q : unit -> NodePrinter -> Prop) :
  Q tt (invalidated st) -> ensures setInvalid st Q.
Proof. unfold ensures, setInvalid. intros H a st' [= <- <-]. exact H. Qed.

Lemma printEntity_without_type print Entity TypePr hasName ExtraName
    ExtraIndex OverwriteName st :
  isKind Entity KBoundGenericFunction = false ->
  TypePrinting_eqb TypePr NoType = false ->
  getChildIf Entity KType = None ->
  ensures (printEntity E Options print Entity false TypePr hasName ExtraName
                       ExtraIndex OverwriteName) st
          (fun r st' =>
             r = None /\ isValid st' = false /\ assertsEnabled E = false).
Proof.
  intros Hkind HT Htype. unfold printEntity. rewrite Hkind.
  apply ensures_ret_bind. cbv beta iota. rewrite HT, Htype.
  apply ensures_then. intros LocalName st1. cbn [andb].
  apply ensures_then. intros Context st2.
  apply ensures_then. intros shown st3.
  apply ensures_then. intros PostfixContext st4.
  apply ensures_then. intros ExtraName' st5.
  apply ensures_then. intros _ st6.
  cbn [negb]. apply ensures_assoc.
  apply ensures_bind, ensures_assert_false. intros Hasserts. cbv beta.
  apply ensures_assoc.
  apply ensures_bind, ensures_setInvalid. cbv beta.
  apply ensures_ret_bind. cbn [negb]. apply ensures_ret.
  repeat split. exact Hasserts.
Qed.

End Entities.

(** X17: a function, variable, subscript or constructor without a type among
    its children is malformed: the top-level call returns nothing but the
    empty string for it, and that only when asserts are compiled out. *)
Theorem entity_without_type E Options n s :
  isTypedEntityKind (getKind n) = true ->
  getChildIf n KType = None ->
  nodeToString E (Some n) Options = Ok s ->
  s = "" /\ assertsEnabled E = false.
Proof.
  intros Hkind Htype. rewrite nodeToString_unfold.
  pose proof (depth_pos n) as Hpos.
  destruct (depth n) as [| stack]; [lia |].
  assert (Hrun : ensures (print E Options (S stack) n false) newNodePrinter
                   (fun r st' =>
                      r = None /\ isValid st' = false /\
                      assertsEnabled E = false)).
  { cbn [print]. unfold printNode.
    destruct (getKind n) eqn:Hk; try discriminate Hkind;
      apply printEntity_without_type;
      solve [ unfold isKind; rewrite Hk; reflexivity
            | reflexivity | assumption ]. }
  destruct (print E Options (S stack) n false newNodePrinter)
    as [[r st'] | e] eqn:Hprint; [| discriminate].
  destruct (Hrun r st' Hprint) as (_ & Hvalid & Hasserts).
  rewrite Hvalid. intros [= <-]. split; [reflexivity | exact Hasserts].
Qed.

Lemma nominal_type_in_module_witness :
  print swiftExternals defaultOptions 2
        (innerNode KStructure
           [textNode KModule "Swift"; textNode KIdentifier "Int"])
        false newNodePrinter =
  Ok (None, mkNodePrinter "Swift.Int" false true).
Proof.
  exact (nominal_type_in_module swiftExternals defaultOptions 0 KStructure
           None None "Swift" "Int" None [] None [] false newNodePrinter
           eq_refl).
Defined.

(** A function without a type, with a structure in it. *)
Definition untypedFunction : Node :=
  innerNode KFunction [textNode KModule "main"; textNode KIdentifier "f"].

Lemma entity_without_type_witness :
  "" = "" /\ assertsEnabled swiftExternals = false.
Proof.
  apply (entity_without_type swiftExternals defaultOptions untypedFunction
           ""); reflexivity.
Defined.

(** The function [main.f() -> ()]. *)
Definition functionF : Node :=
  innerNode KFunction
    [textNode KModule "main"; textNode KIdentifier "f";
     innerNode KType
       [innerNode KFunctionType
          [innerNode KArgumentTuple [innerNode KType [innerNode KTuple []]];
           innerNode KReturnType [innerNode KType [innerNode KTuple []]]]]].

Lemma functionF_prints :
  prints swiftExternals defaultOptions 7 functionF "main.f() -> ()".
Proof.
  apply prints_of_empty. intros f v. exists None.
  destruct f, v; reflexivity.
Qed.

Lemma type_in_typed_entity_witness :
  print swiftExternals defaultOptions 7 functionF true newNodePrinter =
    Ok (Some functionF, newNodePrinter) /\
  print swiftExternals defaultOptions 8
        (innerNode KStructure [functionF; textNode KIdentifier "S"]) false
        newNodePrinter =
    Ok (None, mkNodePrinter "S in main.f() -> ()" false true).
Proof.
  pose proof (type_in_typed_entity swiftExternals defaultOptions 6
                KStructure None None KFunction None None
                (textNode KModule "main") (textNode KIdentifier "f")
                [innerNode KType
                   [innerNode KFunctionType
                      [innerNode KArgumentTuple
                         [innerNode KType [innerNode KTuple []]];
                       innerNode KReturnType
                         [innerNode KType [innerNode KTuple []]]]]]
                "S" None [] "main.f() -> ()" eq_refl eq_refl eq_refl
                functionF_prints newNodePrinter) as (Hprefix & Htype & _).
  split; [exact Hprefix | exact Htype].
Defined.

(** * The kind of a function signature specialization parameter *)

(** The names of the options that are set in [raw], in the order in which
    they are tested. *)
Definition optionSetNames (E : Externals) (raw : N) : list string :=
  ((if hasParamFlag E raw ExistentialToGeneric
    then ["Existential To Protocol Constrained Generic"] else []) ++
   (if hasParamFlag E raw Dead then ["Dead"] else []) ++
   (if hasParamFlag E raw OwnedToGuaranteed
    then ["Owned To Guaranteed"] else []) ++
   (if hasParamFlag E raw GuaranteedToOwned
    then ["Guaranteed To Owned"] else []) ++
   (if hasParamFlag E raw SROA then ["Exploded"] else []))%list.

(** The kinds that are options, to be combined with each other. *)
Definition optionSetKinds : list FunctionSigSpecializationParamKind :=
  [ExistentialToGeneric; Dead; OwnedToGuaranteed; GuaranteedToOwned; SROA].

Lemma land_low (raw v : N) :
  (v < two32)%N -> N.land raw v = N.land (raw mod two32) v.
Proof.
  intros Hv. change two32 with (2 ^ 32)%N in *.
  apply N.bits_inj. intros i. rewrite !N.land_spec.
  destruct (N.ltb_spec i 32) as [Hlow | Hhigh].
  - rewrite N.mod_pow2_bits_low by exact Hlow. reflexivity.
  - replace (N.testbit v i) with false; [rewrite !andb_false_r; reflexivity |].
    symmetry. rewrite <- (N.mod_small v (2 ^ 32)) by exact Hv.
    apply N.mod_pow2_bits_high. exact Hhigh.
Qed.

Lemma option_is_flag E raw k :
  ParamKindValue E k <> 0%N -> (ParamKindValue E k < two32)%N ->
  hasParamFlag E raw k = false -> isParamKind E (to_unsigned raw) k = false.
Proof.
  intros Hnz Hlow Hflag. unfold hasParamFlag in Hflag.
  unfold isParamKind, to_unsigned.
  destruct (N.eqb_spec (raw mod two32) (ParamKindValue E k)) as [Heq | Hne];
    [| reflexivity].
  exfalso. rewrite (land_low _ _ Hlow), Heq, N.land_diag in Hflag.
  apply negb_false_iff, N.eqb_eq in Hflag. contradiction.
Qed.

(** [returns m st Q]: the run of [m] from [st] comes to its end, with a
    result and in a state that satisfy [Q]. *)
Definition returns {A} (m : M A) (st : NodePrinter)
    (Q : A -> NodePrinter -> Prop) : Prop :=
  match m st with
  | Ok (a, st') => Q a st'
  | Stop _ => False
  end.

Lemma returns_bind {A B} (m : M A) (f : A -> M B) st Q :
  returns m st (fun a st' => returns (f a) st' Q) -> returns (bind m f) st Q.
Proof.
  unfold returns, bind. destruct (m st) as [[a st'] | e]; auto.
Qed.

Lemma returns_ret {A} (a : A) st (Q : A -> NodePrinter -> Prop) :
  Q a st -> returns (ret a) st Q.
Proof. auto. Qed.

Lemma returns_emit s st (Q : unit -> NodePrinter -> Prop) :
  Q tt (appended st s) -> returns (emit s) st Q.
Proof. auto. Qed.

(** The state is [st0] with something appended. *)
Definition grown (st0 st : NodePrinter) : Prop :=
  exists out, st = appended st0 out.

Lemma grown_refl st : grown st st.
Proof. exists "". symmetry. apply appended_empty. Qed.

Lemma grown_appended st0 st s : grown st0 st -> grown st0 (appended st s).
Proof.
  intros [out ->]. exists (out ++ s). apply appended_appended.
Qed.

Ltac returns_go :=
  repeat
    (cbv beta iota;
     lazymatch goal with
     | |- returns (bind _ _) _ _ => apply returns_bind
     | |- returns (ret _) _ _ => apply returns_ret
     | |- returns done _ _ => apply returns_ret
     | |- returns (emit _) _ _ => apply returns_emit
     | |- returns (when _ _) _ _ => unfold when at 1
     end);
  try solve [split; [reflexivity | repeat apply grown_appended;
                                   apply grown_refl]].

(** X18: a parameter kind with options set is printed as the names of these
    options, joined by [" and "], in a fixed order.  Without any, it is one of
    eight fixed phrases, or nothing: provided the options are numbered with
    non-zero 32-bit numbers, the case that aborts for an option that "should
    have been handled earlier" is never reached. *)
Theorem printParamKind_option_sets E kind text raw children st :
  let Node := mkNode kind text (Some raw) children in
  (optionSetNames E raw <> [] ->
   printParamKind E Node st =
   Ok (None, appended st (String.concat " and " (optionSetNames E raw)))) /\
  (Forall (fun k => ParamKindValue E k <> 0%N /\
                    (ParamKindValue E k < two32)%N) optionSetKinds ->
   exists out, printParamKind E Node st = Ok (None, appended st out)).
Proof.
  intros Node. split.
  - unfold optionSetNames, printParamKind, Node. cbn [getIndex].
    intros Hnames. run_step.
    destruct (hasParamFlag E raw ExistentialToGeneric),
             (hasParamFlag E raw Dead),
             (hasParamFlag E raw OwnedToGuaranteed),
             (hasParamFlag E raw GuaranteedToOwned),
             (hasParamFlag E raw SROA);
      try (contradiction Hnames; reflexivity);
      cbn [app String.concat]; run; reflexivity.
  - intros Hkinds.
    assert (Hk : forall k, In k optionSetKinds ->
              hasParamFlag E raw k = false ->
              isParamKind E (to_unsigned raw) k = false).
    { intros k Hin. rewrite Forall_forall in Hkinds.
      destruct (Hkinds k Hin). apply option_is_flag; assumption. }
    assert (Hrun : returns (printParamKind E Node) st
                     (fun r st' => r = None /\ grown st st')).
    { unfold printParamKind, Node. cbn [getIndex].
      apply returns_bind. unfold returns at 1, lift.
      destruct (hasParamFlag E raw ExistentialToGeneric) eqn:H1,
               (hasParamFlag E raw Dead) eqn:H2,
               (hasParamFlag E raw OwnedToGuaranteed) eqn:H3,
               (hasParamFlag E raw GuaranteedToOwned) eqn:H4,
               (hasParamFlag E raw SROA) eqn:H5;
        returns_go.
      rewrite (Hk ExistentialToGeneric), (Hk Dead), (Hk OwnedToGuaranteed),
        (Hk GuaranteedToOwned), (Hk SROA)
        by (assumption || (cbn; tauto)).
      cbn [orb].
      repeat match goal with
        | |- returns (if ?b then _ else _) _ _ => destruct b; returns_go
        end. }
    unfold returns in Hrun.
    destruct (printParamKind E Node st) as [[r st'] | e];
      [| contradiction].
    destruct Hrun as [-> [out ->]]. exists out. reflexivity.
Qed.

Lemma printParamKind_option_sets_witness :
  printParamKind swiftExternals
    (indexNode KFunctionSignatureSpecializationParamKind 192) newNodePrinter =
  Ok (None, mkNodePrinter "Dead and Owned To Guaranteed" false true) /\
  exists out,
    printParamKind swiftExternals
      (indexNode KFunctionSignatureSpecializationParamKind 64)
      newNodePrinter = Ok (None, appended newNodePrinter out).
Proof.
  split.
  - apply (proj1 (printParamKind_option_sets swiftExternals
                    KFunctionSignatureSpecializationParamKind None 192 []
                    newNodePrinter)).
    discriminate.
  - apply (proj2 (printParamKind_option_sets swiftExternals
                    KFunctionSignatureSpecializationParamKind None 64 []
                    newNodePrinter)).
    repeat constructor; discriminate.
Defined.

(** * More shapes *)

Section Shapes.

Variable E : Externals.
Variable Options : DemangleOptions.
Variable stack : nat.

Local Open Scope printer_scope.

(** X19: a variable in a module is its qualified name and, when the types of
    entities are displayed, a colon between two spaces and its type. *)
Theorem variable_with_type text index module name mi mc ni nc tt' ti type
    more out st :
  prints E Options (S stack) type out ->
  print E Options (S (S stack))
        (mkNode KVariable text index
                [mkNode KModule (Some module) mi mc;
                 mkNode KIdentifier (Some name) ni nc;
                 mkNode KType tt' ti (type :: more)])
        false st =
  Ok (None,
      appended st
        ((if moduleShown E Options module && DisplayModuleNames Options &&
             negb (empty module)
          then module ++ "." else "") ++ name ++
         (if DisplayEntityTypes Options then " : " ++ out else ""))).
Proof.
  intros Hout.
  assert (Hname : forall st',
            print E Options (S stack) (mkNode KIdentifier (Some name) ni nc)
                  false st' = Ok (None, appended st' name)).
  { intros st'. reflexivity. }
  assert (Hmodule : forall st',
            print E Options (S stack) (mkNode KModule (Some module) mi mc)
                  true st' =
            Ok (None,
                appended st' (if DisplayModuleNames Options then module
                              else ""))).
  { intros st'. cbn [print printNode getKind].
    destruct (DisplayModuleNames Options); [reflexivity |].
    run. reflexivity. }
  change (printEntity E Options (print E Options (S stack))
            (mkNode KVariable text index
                    [mkNode KModule (Some module) mi mc;
                     mkNode KIdentifier (Some name) ni nc;
                     mkNode KType tt' ti (type :: more)])
            false WithColon true "" (-1) "" st =
          Ok (None,
              appended st
                ((if moduleShown E Options module &&
                     DisplayModuleNames Options && negb (empty module)
                  then module ++ "." else "") ++ name ++
                 (if DisplayEntityTypes Options then " : " ++ out
                  else "")))).
  unfold printEntity.
  entity_run. rewrite printContext_module.
  assert (Htail : forall st',
    (if DisplayEntityTypes Options
     then emit " : " ;;
          printEntityType E Options (print E Options (S stack))
            (mkNode KVariable text index
                    [mkNode KModule (Some module) mi mc;
                     mkNode KIdentifier (Some name) ni nc;
                     mkNode KType tt' ti (type :: more)]) type None
     else ret tt) st' =
    Ok (tt, appended st' (if DisplayEntityTypes Options then " : " ++ out
                          else ""))).
  { intros st'. destruct (DisplayEntityTypes Options).
    - unfold printEntityType. entity_run.
      rewrite ?appended_appended. reflexivity.
    - cbn. rewrite appended_empty. reflexivity. }
  destruct (moduleShown E Options module); cbn [andb]; entity_run.
  - destruct (DisplayModuleNames Options); cbn [andb]; entity_run.
    + destruct module; entity_run;
        refine (eq_trans (run_to _ _ _ _ _ (Htail _)) _); entity_run;
        rewrite ?appended_appended, ?appended_empty, ?append_assoc;
        reflexivity.
    + refine (eq_trans (run_to _ _ _ _ _ (Htail _)) _). entity_run.
      rewrite ?appended_appended, ?appended_empty, ?append_assoc.
      reflexivity.
  - refine (eq_trans (run_to _ _ _ _ _ (Htail _)) _). entity_run.
    rewrite ?appended_appended, ?appended_empty, ?append_assoc.
    reflexivity.
Qed.

(** X20: the metatype of a type is the type, between parentheses when it is
    not simple, followed by [.Protocol] when the type is existential and by
    [.Type] when it is not. *)
Theorem metatype_of_type text index tt' ti type more out simple
    asPrefixContext st :
  isSimpleType type = Ok simple ->
  prints E Options stack type out ->
  print E Options (S stack)
        (mkNode KMetatype text index [mkNode KType tt' ti (type :: more)])
        asPrefixContext st =
  Ok (None,
      appended st
        ((if simple then out else "(" ++ out ++ ")") ++
         (if isExistentialType type then ".Protocol" else ".Type"))).
Proof.
  intros Hsimple Hout.
  change (print E Options (S stack)
            (mkNode KMetatype text index [mkNode KType tt' ti (type :: more)])
            asPrefixContext st)
    with (printNode E Options (print E Options stack)
            (mkNode KMetatype text index [mkNode KType tt' ti (type :: more)])
            asPrefixContext st).
  unfold printNode. cbn [getKind getNumChildren getChildren length Nat.eqb].
  entity_run. unfold printWithParens. rewrite Hsimple. entity_run.
  destruct simple; cbn [negb]; entity_run;
    destruct (isExistentialType type); entity_run;
    rewrite ?appended_appended, ?append_assoc; reflexivity.
Qed.

(** [renders frames n out valid]: whatever has been printed before, the node
    [n] appends [out] to it and leaves the one-shot flag as it is; it leaves
    the validity flag as it is when [valid] holds, and clears it when not. *)
Definition renders (frames : nat) (n : Node) (out : string) (valid : bool) :
    Prop :=
  forall st, exists r,
    print E Options frames n false st =
    Ok (r, mkNodePrinter (Printer st ++ out) (SpecializationPrefixPrinted st)
                         (isValid st && valid)).

Lemma printChildrenRange_renders frames cs (results : list (string * bool)) :
  Forall2 (fun c r => renders frames c (fst r) (snd r)) cs results ->
  forall st,
    printChildrenRange (print E Options frames) cs None st =
    Ok (tt,
        mkNodePrinter (Printer st ++ String.concat "" (map fst results))
                      (SpecializationPrefixPrinted st)
                      (isValid st && forallb snd results)).
Proof.
  induction 1 as [| c [out valid] cs' results' Hc Hrest IH]; intros st.
  - cbn. rewrite append_empty_r, andb_true_r. destruct st. reflexivity.
  - cbn [printChildrenRange]. unfold bind at 1.
    destruct (Hc st) as [r ->]. cbn [fst snd].
    unfold bind at 1. cbn [ret]. rewrite IH.
    cbn [Printer SpecializationPrefixPrinted isValid map forallb fst snd].
    rewrite concat_empty_cons, append_assoc, andb_assoc. reflexivity.
Qed.

(** X21: the public entry point on a global each of whose children appends a
    text of its own, and keeps or clears the validity flag, whatever has been
    printed before: the texts of the children, one after the other, when
    none of them clears the flag, and the empty string when one does. *)
Theorem nodeToString_global text index cs (results : list (string * bool)) :
  Forall2 (fun c r =>
             renders (depth (mkNode KGlobal text index cs) - 1) c
                     (fst r) (snd r))
          cs results ->
  nodeToString E (Some (mkNode KGlobal text index cs)) Options =
  Ok (if forallb snd results then String.concat "" (map fst results)
      else "").
Proof.
  intros H. rewrite nodeToString_unfold.
  remember (depth (mkNode KGlobal text index cs)) as d eqn:Hd.
  destruct d as [| d]; [discriminate Hd |].
  replace (S d - 1) with d in H by lia.
  cbn [print printNode getKind printChildren getChildren].
  unfold bind, done, ret.
  rewrite (printChildrenRange_renders d _ _ H).
  reflexivity.
Qed.

(** What the loop of [printSpecializationPrefix] takes a child for. *)
Definition isSpecializationArgument (k : Kind) : bool :=
  match k with
  | KSpecializationPassID | KIsSerialized
  | KFunctionSignatureSpecializationParam
  | KFunctionSignatureSpecializationReturn => false
  | _ => true
  end.

Lemma printSpecializationChildren_pass child rest ParamPrefix Separator
    argNum :
  getKind child = KSpecializationPassID ->
  printSpecializationChildren E (print E Options stack) (child :: rest)
                              ParamPrefix Separator argNum =
  printSpecializationChildren E (print E Options stack) rest ParamPrefix
                              Separator argNum.
Proof.
  intros Hk. cbn [printSpecializationChildren]. unfold isKind.
  rewrite Hk. reflexivity.
Qed.

Lemma printSpecializationChildren_argument child rest ParamPrefix Separator
    argNum st :
  isSpecializationArgument (getKind child) = true ->
  hasChildren child = true ->
  printSpecializationChildren E (print E Options stack) (child :: rest)
                              ParamPrefix Separator argNum st =
  (emit Separator ;; emit ParamPrefix ;;
   print E Options stack child false ;;
   printSpecializationChildren E (print E Options stack) rest ParamPrefix
                               ", " (int_add argNum 1)) st.
Proof.
  intros Hk Hc. cbn [printSpecializationChildren]. unfold isKind.
  rewrite Hc.
  destruct (getKind child); try discriminate Hk;
    cbv beta iota delta [Kind_eqb Kind_tag N.eqb Pos.eqb];
    unfold bind, emit, ret;
    destruct (print E Options stack child false _) as [[r st'] | e];
    reflexivity.
Qed.

(** The arguments after a first separator. *)
Fixpoint separated (Separator : string) (outs : list string) : string :=
  match outs with
  | [] => ""
  | out :: rest => Separator ++ out ++ separated ", " rest
  end.

Lemma separated_concat outs : separated "" outs = String.concat ", " outs.
Proof.
  destruct outs as [| out rest]; [reflexivity |].
  rewrite concat_separated. cbn [separated append]. f_equal.
  induction rest as [| o rest IH]; [reflexivity |].
  cbn [separated map]. rewrite concat_empty_cons, IH, ?append_assoc.
  reflexivity.
Qed.

Lemma printSpecializationChildren_arguments args outs :
  Forall (fun a => isSpecializationArgument (getKind a) = true /\
                   hasChildren a = true) args ->
  Forall2 (prints E Options stack) args outs ->
  forall Separator argNum st,
    printSpecializationChildren E (print E Options stack) args ""
                                Separator argNum st =
    Ok (tt, appended st (separated Separator outs)).
Proof.
  intros Hkinds H. induction H as [| a out args' outs' Ha Hrest IH];
    intros Separator argNum st.
  - cbn. rewrite appended_empty. reflexivity.
  - inversion Hkinds as [| ? ? [Hk Hc] Hks]; subst.
    rewrite (printSpecializationChildren_argument _ _ _ _ _ _ Hk Hc).
    run. rewrite (IH Hks). cbn [separated].
    rewrite !appended_appended, ?append_assoc. reflexivity.
Qed.

(** The kinds of generic specialization, and how they are described. *)
Definition specializationDescription (k : Kind) : option string :=
  match k with
  | KGenericSpecialization => Some "generic specialization"
  | KGenericSpecializationPrespecialized => Some "generic pre-specialization"
  | KGenericSpecializationNotReAbstracted =>
      Some "generic not re-abstracted specialization"
  | KInlinedGenericFunction => Some "inlined generic function"
  | _ => None
  end.

(** X22: when generic specializations are displayed, one is its description,
    its arguments between angle brackets with a comma and a space between two
    of them, and [" of "]; the identifier of the pass is not printed. *)
Theorem generic_specialization_shape kind description text index passes
    args outs asPrefixContext st :
  specializationDescription kind = Some description ->
  DisplayGenericSpecializations Options = true ->
  Forall (fun p => getKind p = KSpecializationPassID) passes ->
  Forall (fun a => isSpecializationArgument (getKind a) = true /\
                   hasChildren a = true) args ->
  Forall2 (prints E Options stack) args outs ->
  print E Options (S stack)
        (mkNode kind text index (passes ++ args)%list) asPrefixContext st =
  Ok (None,
      appended st
        (description ++ " <" ++ String.concat ", " outs ++ "> of ")).
Proof.
  intros Hkind Hdisplay Hpasses Hargs H.
  assert (Hskip : forall Separator argNum st',
            printSpecializationChildren E (print E Options stack)
              (passes ++ args)%list "" Separator argNum st' =
            Ok (tt, appended st' (separated Separator outs))).
  { intros Separator argNum st'.
    induction Hpasses as [| p ps Hp Hps IH]; cbn [app].
    - apply printSpecializationChildren_arguments; assumption.
    - rewrite (printSpecializationChildren_pass _ _ _ _ _ Hp). exact IH. }
  assert (Hrun :
    printSpecializationPrefix E Options (print E Options stack)
      (mkNode kind text index (passes ++ args)%list) description "" st =
    Ok (tt,
        appended st
          (description ++ " <" ++ String.concat ", " outs ++ "> of "))).
  { unfold printSpecializationPrefix. rewrite Hdisplay. cbn [negb getChildren].
    run. refine (eq_trans (run_to _ _ _ _ _ (Hskip _ _ _)) _).
    rewrite separated_concat. run. reflexivity. }
  destruct kind; try discriminate Hkind; injection Hkind as <-;
    cbn [print printNode getKind];
    refine (eq_trans (run_to _ _ _ _ _ Hrun) _); reflexivity.
Qed.

End Shapes.

Lemma variable_with_type_witness :
  print swiftExternals defaultOptions 5
        (innerNode KVariable
           [textNode KModule "main"; textNode KIdentifier "x"; swiftInt])
        false newNodePrinter =
  Ok (None, mkNodePrinter "main.x : Swift.Int" false true).
Proof.
  refine (variable_with_type swiftExternals defaultOptions 3 None None
            "main" "x" None [] None [] None None
            (innerNode KStructure
               [textNode KModule "Swift"; textNode KIdentifier "Int"])
            [] "Swift.Int" newNodePrinter _).
  apply prints_of_empty. intros f v. exists None.
  destruct f, v; reflexivity.
Defined.

Lemma metatype_of_type_witness :
  print swiftExternals defaultOptions 4
        (innerNode KMetatype [innerNode KType [swiftInt]]) false
        newNodePrinter =
  Ok (None, mkNodePrinter "Swift.Int.Type" false true).
Proof.
  exact (metatype_of_type swiftExternals defaultOptions 3 None None None
           None swiftInt [] "Swift.Int" true false newNodePrinter eq_refl
           (swiftInt_prints 0)).
Defined.

Lemma nodeToString_global_witness :
  nodeToString swiftExternals
    (Some (innerNode KGlobal [swiftInt; swiftString])) defaultOptions =
  Ok "Swift.IntSwift.String" /\
  nodeToString swiftExternals (Some brokenAfterX) defaultOptions = Ok "".
Proof.
  split.
  - refine (nodeToString_global swiftExternals defaultOptions None None
              [swiftInt; swiftString]
              [("Swift.Int", true); ("Swift.String", true)] _).
    repeat constructor; intros [buf f v]; cbn [fst snd];
      [destruct (swiftInt_prints 0 (mkNodePrinter buf f v)) as [r Hr]
      | destruct (swiftString_prints 0 (mkNodePrinter buf f v)) as [r Hr]];
      exists r; rewrite andb_true_r; exact Hr.
  - refine (nodeToString_global swiftExternals defaultOptions None None
              [textNode KIdentifier "x"; brokenFunctionType]
              [("x", true); ("", false)] _).
    repeat constructor; intros [buf f v]; exists None; cbn [fst snd].
    + rewrite andb_true_r. reflexivity.
    + rewrite append_empty_r, andb_false_r. reflexivity.
Defined.

Lemma generic_specialization_shape_witness :
  print swiftExternals defaultOptions 5
        (innerNode KGenericSpecialization
           [indexNode KSpecializationPassID 4;
            innerNode KGenericSpecializationParam [swiftInt];
            innerNode KGenericSpecializationParam [swiftString]])
        false newNodePrinter =
  Ok (None,
      mkNodePrinter "generic specialization <Swift.Int, Swift.String> of "
                    false true).
Proof.
  refine (generic_specialization_shape swiftExternals defaultOptions 4
            KGenericSpecialization "generic specialization" None None
            [indexNode KSpecializationPassID 4]
            [innerNode KGenericSpecializationParam [swiftInt];
             innerNode KGenericSpecializationParam [swiftString]]
            ["Swift.Int"; "Swift.String"] false newNodePrinter
            eq_refl eq_refl ltac:(repeat constructor)
            ltac:(repeat constructor) _).
  repeat constructor; apply prints_of_empty; intros f v; exists None;
    destruct f, v; reflexivity.
Defined.

(** * The depth of the recursion *)

(** X23: every call that [print] makes to itself, directly or through the
    other member functions, is on a node that lies below the node it was
    called on.  So a traversal needs no more frames of the stack than the tree
    is high, and the context that it hands back to be printed later is a node
    that is no higher than the node itself. *)
Theorem print_stack_bounded E Options stack Node asPrefixContext st :
  depth Node <= stack ->
  print E Options stack Node asPrefixContext st <> Stop StackExhausted /\
  forall r st',
    print E Options stack Node asPrefixContext st = Ok (r, st') ->
    pdepth r <= depth Node.
Proof.
  intros Hd.
  pose proof (print_safe E Options stack Node asPrefixContext Hd st) as H.
  unfold wp in H.
  destruct (print E Options stack Node asPrefixContext st)
    as [[r st'] | e].
  - split; [discriminate |]. intros r0 st0 [= <- <-]. tauto.
  - split; [| discriminate]. intros [= ->]. exact H.
Qed.

Lemma print_stack_bounded_witness :
  print swiftExternals defaultOptions 7 functionF true newNodePrinter <>
    Stop StackExhausted /\
  forall r st',
    print swiftExternals defaultOptions 7 functionF true newNodePrinter =
      Ok (r, st') ->
    pdepth r <= depth functionF.
Proof.
  apply print_stack_bounded. vm_compute. lia.
Defined.

(** * Sugar for the standard containers, in terms of what is printed *)

Section SugarShape.

Variable E : Externals.
Variable Options : DemangleOptions.
Variable stack : nat.

Local Open Scope printer_scope.

Lemma printWithParens_prints T out simple :
  isSimpleType T = Ok simple ->
  prints E Options stack T out ->
  forall st,
    printWithParens (print E Options stack) T st =
    Ok (tt, appended st (if simple then out else "(" ++ out ++ ")")).
Proof.
  intros Hsimple HT st. unfold printWithParens, when. rewrite Hsimple.
  destruct simple; cbn [negb]; run; reflexivity.
Qed.

(** X24: with sugar enabled, a bound generic enum or structure with the two
    children (base, type arguments) whose base is in the standard library is
    [T?] for [Optional] and [T!] for [ImplicitlyUnwrappedOptional] with one
    argument, where [T] is between parentheses exactly when the classifier
    answers that the argument, as it stands in the type list, is not simple,
    which it never answers for an argument under a [Type] node; [[T]] for
    [Array] with one argument and [[K : V]] for [Dictionary] with two.  With
    the base in another module it is the base followed by the arguments
    between angle brackets. *)
Theorem bound_generic_sugar kind text index base typeArgs unboundType ident
    module asPrefixContext st :
  SynthesizeSugarOnTypes Options = true ->
  getChild base 0 = Ok unboundType ->
  getChild unboundType 1 = Ok ident ->
  getChild unboundType 0 = Ok module ->
  hasText ident = true ->
  let run :=
    print E Options (S stack) (mkNode kind text index [base; typeArgs])
          asPrefixContext st in
  (forall T out simple (unwrapped : bool),
     kind = KBoundGenericEnum ->
     isIdentifier ident (if unwrapped then "ImplicitlyUnwrappedOptional"
                         else "Optional") = Ok true ->
     getChildren typeArgs = [T] ->
     isSwiftModule E module = Ok true ->
     isSimpleType T = Ok simple ->
     prints E Options stack T out ->
     run = Ok (None,
               appended st ((if simple then out else "(" ++ out ++ ")") ++
                            (if unwrapped then "!" else "?")))) /\
  (forall T out (unwrapped : bool),
     kind = KBoundGenericEnum ->
     isIdentifier ident (if unwrapped then "ImplicitlyUnwrappedOptional"
                         else "Optional") = Ok true ->
     getChildren typeArgs = [T] ->
     isSwiftModule E module = Ok true ->
     getKind T = KType ->
     prints E Options stack T out ->
     run = Ok (None, appended st (out ++ (if unwrapped then "!" else "?")))) /\
  (forall T out,
     kind = KBoundGenericStructure ->
     isIdentifier ident "Array" = Ok true ->
     getChildren typeArgs = [T] ->
     isSwiftModule E module = Ok true ->
     prints E Options stack T out ->
     run = Ok (None, appended st ("[" ++ out ++ "]"))) /\
  (forall K V outK outV,
     kind = KBoundGenericStructure ->
     isIdentifier ident "Dictionary" = Ok true ->
     getChildren typeArgs = [K; V] ->
     isSwiftModule E module = Ok true ->
     prints E Options stack K outK ->
     prints E Options stack V outV ->
     run = Ok (None, appended st ("[" ++ outK ++ " : " ++ outV ++ "]"))) /\
  (forall outB outs,
     kind = KBoundGenericEnum \/ kind = KBoundGenericStructure ->
     isSwiftModule E module = Ok false ->
     prints E Options stack base outB ->
     Forall2 (prints E Options stack) (getChildren typeArgs) outs ->
     run = Ok (None,
               appended st (outB ++ "<" ++ String.concat ", " outs ++ ">"))).
Proof.
  intros Hsugar Hbase Hident Hmodule Htext run.
  pose proof (printBoundGeneric_sugar_runs E Options stack kind text index
                base typeArgs unboundType ident module asPrefixContext st
                Hsugar Hbase Hident Hmodule Htext)
    as (Hopt & Hiuo & Harr & Hdict & Hnone).
  cbv zeta in Hopt, Hiuo, Harr, Hdict, Hnone.
  assert (Hparens : forall T out simple mark,
            isSimpleType T = Ok simple ->
            prints E Options stack T out ->
            (printWithParens (print E Options stack) T ;; emit mark ;; done)
              st =
            Ok (None,
                appended st ((if simple then out else "(" ++ out ++ ")") ++
                             mark))).
  { intros T out simple mark Hsimple HT. unfold bind at 1.
    rewrite (printWithParens_prints T out simple Hsimple HT).
    unfold bind, done, ret. rewrite emit_appended, appended_appended.
    reflexivity. }
  assert (Hboth : forall T out simple (unwrapped : bool),
     kind = KBoundGenericEnum ->
     isIdentifier ident (if unwrapped then "ImplicitlyUnwrappedOptional"
                         else "Optional") = Ok true ->
     getChildren typeArgs = [T] ->
     isSwiftModule E module = Ok true ->
     isSimpleType T = Ok simple ->
     prints E Options stack T out ->
     run = Ok (None,
               appended st ((if simple then out else "(" ++ out ++ ")") ++
                            (if unwrapped then "!" else "?")))).
  { intros T out simple unwrapped Hk Hid HT Hswift Hsimple Hout. subst run.
    destruct unwrapped.
    - rewrite (Hiuo T Hk Hid HT Hswift). apply Hparens; assumption.
    - rewrite (Hopt T Hk Hid HT Hswift). apply Hparens; assumption. }
  split; [exact Hboth |].
  split; [| split; [| split]].
  - intros T out unwrapped Hk Hid HT Hswift HType Hout.
    refine (Hboth T out true unwrapped Hk Hid HT Hswift _ Hout).
    destruct T as [k t i cs]. cbn in HType. subst k. reflexivity.
  - intros T out Hk Hid HT Hswift Hout. subst run.
    rewrite (Harr T Hk Hid HT Hswift).
    unfold bind, done, ret. rewrite emit_appended.
    destruct (Hout (appended st "[")) as [r ->].
    rewrite emit_appended, ?appended_appended, ?append_assoc. reflexivity.
  - intros K V outK outV Hk Hid HT Hswift HK HV. subst run.
    rewrite (Hdict K V Hk Hid HT Hswift).
    unfold bind, done, ret. rewrite emit_appended.
    destruct (HK (appended st "[")) as [r ->].
    rewrite emit_appended.
    destruct (HV (appended (appended (appended st "[") outK) " : "))
      as [r' ->].
    rewrite emit_appended, !appended_appended, ?append_assoc. reflexivity.
  - intros outB outs Hk Hswift HB Hargs. subst run.
    rewrite (Hnone Hk Hswift).
    unfold bind, done, ret.
    destruct (HB st) as [r ->]. rewrite emit_appended.
    rewrite (printChildrenRange_prints E Options stack (Some ", ") _ _ Hargs).
    rewrite emit_appended, ?appended_appended, ?append_assoc. reflexivity.
Qed.

End SugarShape.

Lemma intToVoid_prints :
  prints swiftExternals defaultOptions 8 intToVoid "(Swift.Int) -> ()".
Proof.
  apply prints_of_empty. intros f v. exists None.
  destruct f, v; reflexivity.
Qed.

Lemma wrapped_intToVoid_prints :
  prints swiftExternals defaultOptions 8 (innerNode KType [intToVoid])
         "(Swift.Int) -> ()".
Proof.
  apply prints_of_empty. intros f v. exists None.
  destruct f, v; reflexivity.
Qed.

Lemma bound_generic_sugar_witness :
  print swiftExternals defaultOptions 9 optionalInt false newNodePrinter
    = printed "Swift.Int?" /\
  print swiftExternals defaultOptions 9 unwrappedInt false newNodePrinter
    = printed "Swift.Int!" /\
  print swiftExternals defaultOptions 9 (optionalOf intToVoid) false
        newNodePrinter
    = printed "((Swift.Int) -> ())?" /\
  print swiftExternals defaultOptions 9
        (optionalOf (innerNode KType [intToVoid])) false newNodePrinter
    = printed "(Swift.Int) -> ()?" /\
  print swiftExternals defaultOptions 9 arrayOfString false newNodePrinter
    = printed "[Swift.String]" /\
  print swiftExternals defaultOptions 9 dictionaryOfStringInt false
        newNodePrinter
    = printed "[Swift.String : Swift.Int]" /\
  print swiftExternals defaultOptions 9 otherArrayOfString false
        newNodePrinter
    = printed "main.Array<Swift.String>".
Proof.
  pose proof (fun kind base typeArgs =>
    bound_generic_sugar swiftExternals defaultOptions 8 kind None None
      base typeArgs) as H.
  split; [| split; [| split; [| split; [| split; [| split]]]]].
  - exact (proj1 (H KBoundGenericEnum (nominalType KEnum "Swift" "Optional")
                    (innerNode KTypeList [swiftInt]) _ _ _ false
                    newNodePrinter eq_refl eq_refl eq_refl eq_refl eq_refl)
             swiftInt "Swift.Int" true false eq_refl eq_refl eq_refl eq_refl
             eq_refl (swiftInt_prints 5)).
  - exact (proj1 (H KBoundGenericEnum
                    (nominalType KEnum "Swift" "ImplicitlyUnwrappedOptional")
                    (innerNode KTypeList [swiftInt]) _ _ _ false
                    newNodePrinter eq_refl eq_refl eq_refl eq_refl eq_refl)
             swiftInt "Swift.Int" true true eq_refl eq_refl eq_refl eq_refl
             eq_refl (swiftInt_prints 5)).
  - exact (proj1 (H KBoundGenericEnum (nominalType KEnum "Swift" "Optional")
                    (innerNode KTypeList [intToVoid]) _ _ _ false
                    newNodePrinter eq_refl eq_refl eq_refl eq_refl eq_refl)
             intToVoid "(Swift.Int) -> ()" false false eq_refl eq_refl
             eq_refl eq_refl eq_refl intToVoid_prints).
  - exact (proj1 (proj2
             (H KBoundGenericEnum (nominalType KEnum "Swift" "Optional")
                (innerNode KTypeList [innerNode KType [intToVoid]]) _ _ _
                false newNodePrinter eq_refl eq_refl eq_refl eq_refl eq_refl))
             (innerNode KType [intToVoid]) "(Swift.Int) -> ()" false eq_refl
             eq_refl eq_refl eq_refl eq_refl wrapped_intToVoid_prints).
  - exact (proj1 (proj2 (proj2
             (H KBoundGenericStructure (nominalType KStructure "Swift" "Array")
                (innerNode KTypeList [swiftString]) _ _ _ false
                newNodePrinter eq_refl eq_refl eq_refl eq_refl eq_refl)))
             swiftString "Swift.String" eq_refl eq_refl eq_refl eq_refl
             (swiftString_prints 5)).
  - exact (proj1 (proj2 (proj2 (proj2
             (H KBoundGenericStructure
                (nominalType KStructure "Swift" "Dictionary")
                (innerNode KTypeList [swiftString; swiftInt]) _ _ _ false
                newNodePrinter eq_refl eq_refl eq_refl eq_refl eq_refl))))
             swiftString swiftInt "Swift.String" "Swift.Int" eq_refl eq_refl
             eq_refl eq_refl (swiftString_prints 5) (swiftInt_prints 5)).
  - exact (proj2 (proj2 (proj2 (proj2
             (H KBoundGenericStructure (nominalType KStructure "main" "Array")
                (innerNode KTypeList [swiftString]) _ _ _ false
                newNodePrinter eq_refl eq_refl eq_refl eq_refl eq_refl))))
             "main.Array" ["Swift.String"] (or_intror eq_refl) eq_refl
             ltac:(apply prints_of_empty; intros f v; exists None;
                   destruct f, v; reflexivity)
             (Forall2_cons _ _ (swiftString_prints 5) (Forall2_nil _))).
Defined.
